(** * VIOLEN: request dispatch, response extraction and media validation

    A shallow embedding of the request-orchestration and rendering core of
    the VIOLEN client ([src/services/gemini.ts], the message bubble
    components, [ScriptMode], [StockMode], the theme of [App], and the
    archive and the composer of [ChatMode.tsx]), together with the
    properties its specification states about them and further properties
    of the handlers that call them.

    Conventions of the embedding:
    - a JavaScript string is the list of its UTF-16 code units ([list N]);
      [js] turns an ASCII literal of the source into that list;
    - a value of the JavaScript heap that the code handles without a
      declared shape (the result of [JSON.parse]) is a [value];
    - an [async] function is a computation that threads the log of the
      requests sent to the hosted model and ends in [Resolved] or
      [Rejected]; the hosted model itself is a parameter;
    - a React component is its state, its render function and the step
      relation of the events it reacts to. *)

From Stdlib Require Import ZArith NArith String Ascii List Lia Bool.
From stdpp Require Import base option list gmap.

Import ListNotations.
Set Warnings "-register-all".
Local Open Scope list_scope.

(** ** JavaScript strings *)

Module JsString.

Abbreviation jsstring := (list N).

(** The code units of an ASCII literal. *)
Definition js (s : string) : jsstring :=
  map N_of_ascii (list_ascii_of_string s).
Arguments js s%_string.

Definition LF : N := 10.
Definition DQUOTE : N := 34.
Definition EM_DASH : N := 8212.

(** [s.startsWith(p)] *)
Fixpoint starts_with (s p : jsstring) {struct p} : bool :=
  match p, s with
  | [], _ => true
  | _ :: _, [] => false
  | c :: p', d :: s' => (c =? d)%N && starts_with s' p'
  end.

(** [s.includes(needle)] *)
Fixpoint includes (s needle : jsstring) : bool :=
  starts_with s needle ||
  match s with
  | [] => false
  | _ :: s' => includes s' needle
  end.

(** [s.replace(pat, repl)] for a string pattern (first occurrence only) and a
    replacement without [$] patterns. *)
Fixpoint replace_first (s pat repl : jsstring) : jsstring :=
  if starts_with s pat then repl ++ drop (length pat) s
  else match s with
       | [] => []
       | c :: s' => c :: replace_first s' pat repl
       end.

(** [s.split(sep)] for a one-unit separator. *)
Fixpoint split_on (sep : N) (s : jsstring) : list jsstring :=
  match s with
  | [] => [[]]
  | c :: s' =>
      if (c =? sep)%N then [] :: split_on sep s'
      else match split_on sep s' with
           | [] => [[c]]
           | l :: ls => (c :: l) :: ls
           end
  end.

(** [ls.join(sep)] *)
Fixpoint join (sep : jsstring) (ls : list jsstring) : jsstring :=
  match ls with
  | [] => []
  | [l] => l
  | l :: ls' => l ++ sep ++ join sep ls'
  end.

(** White space and line terminators, the code units [trim] and the regular
    expression class [\s] remove or match. *)
Definition is_white_space (c : N) : bool :=
  ((9 <=? c) && (c <=? 13) || (c =? 32) || (c =? 160) || (c =? 5760)
   || (8192 <=? c) && (c <=? 8202) || (c =? 8232) || (c =? 8233)
   || (c =? 8239) || (c =? 8287) || (c =? 12288) || (c =? 65279))%N.

Fixpoint trim_start (s : jsstring) : jsstring :=
  match s with
  | [] => []
  | c :: s' => if is_white_space c then trim_start s' else s
  end.

Definition trim_end (s : jsstring) : jsstring :=
  rev (trim_start (rev s)).

(** [s.trim()] *)
Definition trim (s : jsstring) : jsstring := trim_end (trim_start s).

(** Truthiness of a string, and of a possibly undefined string. *)
Definition truthy_str (s : jsstring) : bool :=
  match s with [] => false | _ => true end.

Definition truthy_opt (o : option jsstring) : bool :=
  match o with Some s => truthy_str s | None => false end.

(** [o || d] for a possibly undefined string [o] and a string [d]. *)
Definition or_str (o : option jsstring) (d : jsstring) : jsstring :=
  match o with
  | Some s => if truthy_str s then s else d
  | None => d
  end.

(** [o?.includes(needle)] as a condition: [undefined] counts as false. *)
Definition opt_includes (o : option jsstring) (needle : jsstring) : bool :=
  match o with Some s => includes s needle | None => false end.

(** [needle] occurs in [s]. *)
Definition contains (s needle : jsstring) : Prop :=
  exists before after, s = before ++ needle ++ after.


End JsString.
Import JsString.

(** ** JavaScript values and JSON *)

Module Json.

(** A number is kept as the exact decimal [mantissa * 10 ^ exponent] of its
    literal; the rounding of a literal to a double is not modelled, except
    where it decides a branch (see [number_is_zero]). *)
Record number := { mantissa : Z; exponent : Z }.

Definition of_Z (z : Z) : number := {| mantissa := z; exponent := 0 |}.

Inductive value :=
| VUndefined
| VNull
| VBool (b : bool)
| VNum (n : number)
| VStr (s : jsstring)
| VArr (items : list value)
| VObj (props : list (jsstring * value)).

(** A double is [0] when the literal is zero or rounds to zero, that is when
    its magnitude is at most [2 ^ -1075]. *)
Definition number_is_zero (n : number) : bool :=
  ((mantissa n =? 0)
   || (exponent n <? 0)
      && (Z.abs (mantissa n) * 2 ^ 1075 <=? 10 ^ (- exponent n)))%Z.

(** [ToBoolean] *)
Definition truthy (v : value) : bool :=
  match v with
  | VUndefined | VNull => false
  | VBool b => b
  | VNum n => negb (number_is_zero n)
  | VStr s => truthy_str s
  | VArr _ | VObj _ => true
  end.

(** [a || b] *)
Definition or_else (a b : value) : value := if truthy a then a else b.

Fixpoint lookup_prop (k : jsstring) (props : list (jsstring * value))
  : option value :=
  match props with
  | [] => None
  | (k', v) :: props' =>
      if decide (k' = k) then Some v else lookup_prop k props'
  end.

(** [v.k] for a key [k] that is no array index, not [length] and not a name
    of a built-in prototype (as [title], [url] and [source] are not): the own
    property of an object, [undefined] on any other value but [null] and
    [undefined], where the access throws a [TypeError] ([None]). *)
Definition get_field (v : value) (k : jsstring) : option value :=
  match v with
  | VUndefined | VNull => None
  | VObj props => Some (default VUndefined (lookup_prop k props))
  | _ => Some VUndefined
  end.

(** *** Numbers and their decimal digits *)

Definition is_digit (c : N) : bool := ((48 <=? c) && (c <=? 57))%N.

Fixpoint digits_value (ds : jsstring) (acc : N) : N :=
  match ds with
  | [] => acc
  | c :: ds' => digits_value ds' (10 * acc + (c - 48))
  end.

Fixpoint to_digits (fuel : nat) (n : N) (acc : jsstring) : jsstring :=
  match fuel with
  | O => acc
  | S fuel' =>
      if (n <? 10)%N then (48 + n)%N :: acc
      else to_digits fuel' (n / 10) ((48 + n mod 10)%N :: acc)
  end.

(** The decimal digits of [n], most significant first. *)
Definition digits_of_N (n : N) : jsstring :=
  to_digits (S (N.to_nat (N.log2 n))) n [].

Fixpoint drop_zeros (ds : jsstring) : jsstring :=
  match ds with
  | [] => []
  | c :: ds' => if (c =? 48)%N then drop_zeros ds' else ds
  end.

Definition strip_trailing_zeros (ds : jsstring) : jsstring :=
  rev (drop_zeros (rev ds)).

(** [Number::toString] in radix 10: with [s] the digits of the number
    without trailing zeros, [k] their count and [n] the position of the
    decimal point. *)
Definition number_to_string (x : number) : jsstring :=
  if (mantissa x =? 0)%Z then js "0"
  else
    let sign := if (mantissa x <? 0)%Z then js "-" else [] in
    let ds := digits_of_N (Z.abs_N (mantissa x)) in
    let s := strip_trailing_zeros ds in
    let k := Z.of_nat (length s) in
    let n := (Z.of_nat (length ds) + exponent x)%Z in
    sign ++
    if ((k <=? n) && (n <=? 21))%Z then
      s ++ repeat 48%N (Z.to_nat (n - k))
    else if ((0 <? n) && (n <=? 21))%Z then
      take (Z.to_nat n) s ++ js "." ++ drop (Z.to_nat n) s
    else if ((-6 <? n) && (n <=? 0))%Z then
      js "0." ++ repeat 48%N (Z.to_nat (- n)) ++ s
    else
      let e := (n - 1)%Z in
      let exp := (if (e <? 0)%Z then js "-" else js "+")
                 ++ digits_of_N (Z.abs_N e) in
      match s with
      | [] => []
      | [d] => d :: js "e" ++ exp
      | d :: r => d :: js "." ++ r ++ js "e" ++ exp
      end.

(** [z.toString()] for an integer [z], as [Date.now().toString()]. *)
Definition Z_toString (z : Z) : jsstring := number_to_string (of_Z z).

(** *** [JSON.parse] *)

Definition is_json_ws (c : N) : bool :=
  ((c =? 32) || (c =? 9) || (c =? 10) || (c =? 13))%N.

Fixpoint skip_ws (s : jsstring) : jsstring :=
  match s with
  | [] => []
  | c :: s' => if is_json_ws c then skip_ws s' else s
  end.

Fixpoint span_digits (s : jsstring) : jsstring * jsstring :=
  match s with
  | [] => ([], [])
  | c :: s' =>
      if is_digit c then
        let '(ds, r) := span_digits s' in (c :: ds, r)
      else ([], s)
  end.

(** [s] without its first character when that is [c]. *)
Definition next_is (c : N) (s : jsstring) : option jsstring :=
  match s with
  | d :: r => if (d =? c)%N then Some r else None
  | [] => None
  end.

(** A number literal: an optional [-], the integer part ([0], or digits not
    starting with [0]), an optional fraction ([.] and digits), an optional
    exponent ([e] or [E], an optional sign, digits). *)
Definition parse_number (s : jsstring) : option (number * jsstring) :=
  let '(neg, s1) :=
    match next_is 45 s with
    | Some r => (true, r)
    | None => (false, s)
    end in
  let '(ip, s2) := span_digits s1 in
  match ip with
  | [] => None
  | d :: ip' =>
      if (d =? 48)%N && negb (bool_decide (ip' = [])) then None
      else
        let frac :=
          match next_is 46 s2 with
          | Some r =>
              let '(fp, s3) := span_digits r in
              match fp with [] => None | _ => Some (fp, s3) end
          | None => Some ([], s2)
          end in
        match frac with
        | None => None
        | Some (fp, s3) =>
            let expo :=
              match s3 with
              | c :: r =>
                  if ((c =? 101) || (c =? 69))%N then
                    let '(eneg, r1) :=
                      match next_is 45 r with
                      | Some r' => (true, r')
                      | None =>
                          match next_is 43 r with
                          | Some r' => (false, r')
                          | None => (false, r)
                          end
                      end in
                    let '(ep, s4) := span_digits r1 in
                    match ep with
                    | [] => None
                    | _ =>
                        let e := Z.of_N (digits_value ep 0) in
                        Some (if eneg then (- e)%Z else e, s4)
                    end
                  else Some (0%Z, s3)
              | [] => Some (0%Z, s3)
              end in
            match expo with
            | None => None
            | Some (e, s4) =>
                let m := Z.of_N (digits_value (ip ++ fp) 0) in
                Some ({| mantissa := if neg then (- m)%Z else m;
                         exponent := (e - Z.of_nat (length fp))%Z |}, s4)
            end
        end
  end.

Definition hex_value (c : N) : option N :=
  if is_digit c then Some (c - 48)%N
  else if ((97 <=? c) && (c <=? 102))%N then Some (c - 87)%N
  else if ((65 <=? c) && (c <=? 70))%N then Some (c - 55)%N
  else None.

Definition hex4_value (a b c d : N) : option N :=
  match hex_value a, hex_value b, hex_value c, hex_value d with
  | Some x, Some y, Some z, Some w => Some (((x * 16 + y) * 16 + z) * 16 + w)%N
  | _, _, _, _ => None
  end.

(** The code unit of a one-letter escape. *)
Definition simple_escape (c : N) : option N :=
  if (c =? 34)%N then Some 34%N
  else if (c =? 92)%N then Some 92%N
  else if (c =? 47)%N then Some 47%N
  else if (c =? 98)%N then Some 8%N
  else if (c =? 102)%N then Some 12%N
  else if (c =? 110)%N then Some 10%N
  else if (c =? 114)%N then Some 13%N
  else if (c =? 116)%N then Some 9%N
  else None.

(** The characters of a string literal after its opening quote, up to and
    including the closing quote. *)
Fixpoint parse_string_body (s : jsstring) : option (jsstring * jsstring) :=
  match s with
  | [] => None
  | c :: s' =>
      if (c =? 34)%N then Some ([], s')
      else if (c =? 92)%N then
        match s' with
        | [] => None
        | e :: s'' =>
            if (e =? 117)%N then
              match s'' with
              | h1 :: h2 :: h3 :: h4 :: s3 =>
                  match hex4_value h1 h2 h3 h4 with
                  | Some u =>
                      match parse_string_body s3 with
                      | Some (str, r) => Some (u :: str, r)
                      | None => None
                      end
                  | None => None
                  end
              | _ => None
              end
            else
              match simple_escape e with
              | Some u =>
                  match parse_string_body s'' with
                  | Some (str, r) => Some (u :: str, r)
                  | None => None
                  end
              | None => None
              end
        end
      else if (c <? 32)%N then None
      else
        match parse_string_body s' with
        | Some (str, r) => Some (c :: str, r)
        | None => None
        end
  end.

(** An array index: the canonical decimal of an integer below [2^32 - 1].
    Such keys are enumerated first, in ascending order. *)
Definition array_index (k : jsstring) : option N :=
  match k with
  | [] => None
  | c :: k' =>
      if forallb is_digit k
         && ((negb (c =? 48)%N) || bool_decide (k' = []))
         && (length k <=? 10)%nat
         && (digits_value k 0 <? 4294967295)%N
      then Some (digits_value k 0)
      else None
  end.

(** Placing an index key among the index keys that lead the property list. *)
Fixpoint insert_index (i : N) (k : jsstring) (v : value)
  (props : list (jsstring * value)) : list (jsstring * value) :=
  match props with
  | [] => [(k, v)]
  | (k', v') :: props' =>
      match array_index k' with
      | Some j =>
          if (j <? i)%N then (k', v') :: insert_index i k v props'
          else (k, v) :: props
      | None => (k, v) :: props
      end
  end.

Fixpoint replace_prop (k : jsstring) (v : value)
  (props : list (jsstring * value)) : list (jsstring * value) :=
  match props with
  | [] => []
  | (k', v') :: props' =>
      if decide (k' = k) then (k, v) :: props'
      else (k', v') :: replace_prop k v props'
  end.

(** [obj[k] = v] on an ordinary object: an existing property keeps its
    place, a new one goes last, or among the index keys if it is one. *)
Definition set_prop (k : jsstring) (v : value)
  (props : list (jsstring * value)) : list (jsstring * value) :=
  match lookup_prop k props with
  | Some _ => replace_prop k v props
  | None =>
      match array_index k with
      | Some i => insert_index i k v props
      | None => props ++ [(k, v)]
      end
  end.

Fixpoint parse_value (fuel : nat) (s : jsstring)
  : option (value * jsstring) :=
  match fuel with
  | O => None
  | S fuel' =>
      match s with
      | [] => None
      | c :: s' =>
          if (c =? 34)%N then
            match parse_string_body s' with
            | Some (str, r) => Some (VStr str, r)
            | None => None
            end
          else if (c =? 91)%N then
            match next_is 93 (skip_ws s') with
            | Some r => Some (VArr [], r)
            | None =>
                match parse_elements fuel' (skip_ws s') with
                | Some (items, r) => Some (VArr items, r)
                | None => None
                end
            end
          else if (c =? 123)%N then
            match next_is 125 (skip_ws s') with
            | Some r => Some (VObj [], r)
            | None =>
                match parse_members fuel' [] (skip_ws s') with
                | Some (props, r) => Some (VObj props, r)
                | None => None
                end
            end
          else if starts_with s (js "true") then
            Some (VBool true, drop 4 s)
          else if starts_with s (js "false") then
            Some (VBool false, drop 5 s)
          else if starts_with s (js "null") then
            Some (VNull, drop 4 s)
          else
            match parse_number s with
            | Some (n, r) => Some (VNum n, r)
            | None => None
            end
      end
  end

(** The elements of a non-empty array, up to and including its [']']. *)
with parse_elements (fuel : nat) (s : jsstring)
  : option (list value * jsstring) :=
  match fuel with
  | O => None
  | S fuel' =>
      match parse_value fuel' s with
      | Some (v, r) =>
          match next_is 44 (skip_ws r) with
          | Some r' =>
              match parse_elements fuel' (skip_ws r') with
              | Some (items, r'') => Some (v :: items, r'')
              | None => None
              end
          | None =>
              match next_is 93 (skip_ws r) with
              | Some r' => Some ([v], r')
              | None => None
              end
          end
      | None => None
      end
  end

(** The members of a non-empty object, up to and including its ['}'];
    [acc] holds the properties defined so far. *)
with parse_members (fuel : nat) (acc : list (jsstring * value))
  (s : jsstring) : option (list (jsstring * value) * jsstring) :=
  match fuel with
  | O => None
  | S fuel' =>
      match next_is 34 s with
      | Some s' =>
          match parse_string_body s' with
          | Some (k, r) =>
              match next_is 58 (skip_ws r) with
              | Some r1 =>
                  match parse_value fuel' (skip_ws r1) with
                  | Some (v, r2) =>
                      let acc' := set_prop k v acc in
                      match next_is 44 (skip_ws r2) with
                      | Some r3 => parse_members fuel' acc' (skip_ws r3)
                      | None =>
                          match next_is 125 (skip_ws r2) with
                          | Some r3 => Some (acc', r3)
                          | None => None
                          end
                      end
                  | None => None
                  end
              | None => None
              end
          | None => None
          end
      | None => None
      end
  end.

(** [JSON.parse(s)]; [None] stands for the [SyntaxError] it throws. Each
    nested call consumes a character at least every second step, so the fuel
    never runs out on a text that parses. *)
Definition JSON_parse (s : jsstring) : option value :=
  match parse_value (2 * length s + 2) (skip_ws s) with
  | Some (v, r) =>
      match skip_ws r with
      | [] => Some v
      | _ => None
      end
  | None => None
  end.

(** *** [JSON.stringify] *)

Definition is_high_surrogate (c : N) : bool :=
  ((55296 <=? c) && (c <=? 56319))%N.

Definition is_low_surrogate (c : N) : bool :=
  ((56320 <=? c) && (c <=? 57343))%N.

Definition hex_digit (d : N) : N :=
  if (d <? 10)%N then (48 + d)%N else (87 + d)%N.

(** [UnicodeEscape]: a backslash, [u] and four lower-case hex digits. *)
Definition unicode_escape (c : N) : jsstring :=
  [92; 117; hex_digit (c / 4096); hex_digit ((c / 256) mod 16);
   hex_digit ((c / 16) mod 16); hex_digit (c mod 16)]%N.

Definition quote_unit (c : N) : jsstring :=
  if (c =? 8)%N then [92; 98]%N
  else if (c =? 9)%N then [92; 116]%N
  else if (c =? 10)%N then [92; 110]%N
  else if (c =? 12)%N then [92; 102]%N
  else if (c =? 13)%N then [92; 114]%N
  else if (c =? 34)%N then [92; 34]%N
  else if (c =? 92)%N then [92; 92]%N
  else if (c <? 32)%N then unicode_escape c
  else [c].

(** The body of [QuoteJSONString]: the string is read by code points, so a
    surrogate pair is copied and a lone surrogate is escaped. *)
Fixpoint quote_body (s : jsstring) : jsstring :=
  match s with
  | [] => []
  | c :: s' =>
      if is_high_surrogate c then
        match s' with
        | d :: s'' =>
            if is_low_surrogate d then c :: d :: quote_body s''
            else unicode_escape c ++ quote_body s'
        | [] => unicode_escape c
        end
      else if is_low_surrogate c then unicode_escape c ++ quote_body s'
      else quote_unit c ++ quote_body s'
  end.

Definition quote (s : jsstring) : jsstring :=
  DQUOTE :: quote_body s ++ [DQUOTE].

(** The members of an object, each written by [ser]: a property that holds
    [undefined] is left out. *)
Fixpoint members_with (ser : value -> jsstring)
  (props : list (jsstring * value)) : list jsstring :=
  match props with
  | [] => []
  | (k, v) :: props' =>
      match v with
      | VUndefined => members_with ser props'
      | _ => (quote k ++ js ":" ++ ser v) :: members_with ser props'
      end
  end.

(** [SerializeJSONProperty] without indentation: an [undefined] element of
    an array is written [null]. *)
Fixpoint serialize (v : value) : jsstring :=
  match v with
  | VUndefined | VNull => js "null"
  | VBool true => js "true"
  | VBool false => js "false"
  | VNum n => number_to_string n
  | VStr s => quote s
  | VArr items => js "[" ++ join (js ",") (map serialize items) ++ js "]"
  | VObj props =>
      js "{" ++ join (js ",") (members_with serialize props) ++ js "}"
  end.

(** [JSON.stringify(v)]; [None] is the [undefined] it returns for
    [undefined]. *)
Definition JSON_stringify (v : value) : option jsstring :=
  match v with
  | VUndefined => None
  | _ => Some (serialize v)
  end.

(** An integer that a double holds exactly, as [Date.now()] returns. *)
Definition safe_integer (z : Z) : Prop :=
  (Z.abs z <= 9007199254740991)%Z.

(** The property list that defining the properties one by one, as
    [JSON.parse] does, ends with. *)
Definition define_all (props acc : list (jsstring * value))
  : list (jsstring * value) :=
  fold_left (fun acc kv => set_prop kv.1 kv.2 acc) props acc.

(** The values that a JSON text denotes exactly and that are written back
    as they were read: no [undefined], integers that a double holds exactly,
    and objects whose properties are in the order [JSON.parse] defines
    them. *)
Fixpoint storable (v : value) : Prop :=
  match v with
  | VUndefined => False
  | VNull | VBool _ | VStr _ => True
  | VNum n => exponent n = 0%Z /\ safe_integer (mantissa n)
  | VArr items =>
      (fix all (l : list value) : Prop :=
         match l with
         | [] => True
         | x :: l' => storable x /\ all l'
         end) items
  | VObj props =>
      define_all props [] = props
      /\ (fix all (l : list (jsstring * value)) : Prop :=
            match l with
            | [] => True
            | (_, x) :: l' => storable x /\ all l'
            end) props
  end.

(** The text of a safe integer: a sign and its digits. *)
Definition integer_text (z : Z) : jsstring :=
  (if (z <? 0)%Z then js "-" else []) ++ digits_of_N (Z.abs_N z).

(** The text of one member of an object. *)
Definition member_text (kv : jsstring * value) : jsstring :=
  quote kv.1 ++ js ":" ++ serialize kv.2.

(** What may follow a number in a text: no character that continues it. *)
Definition number_end (rest : jsstring) : Prop :=
  match rest with
  | [] => True
  | c :: _ =>
      is_digit c = false /\ c <> 46%N /\ c <> 101%N /\ c <> 69%N
  end.

(** What follows a value inside a text that [serialize] wrote. *)
Definition value_end (rest : jsstring) : Prop :=
  match rest with
  | [] => True
  | c :: _ => c = 44%N \/ c = 93%N \/ c = 125%N
  end.

(** The characters a written value can begin with are no white space and
    none of the characters that end an array, an object or an element. *)
Definition opens_value (c : N) : Prop :=
  is_json_ws c = false /\ c <> 93%N /\ c <> 125%N /\ c <> 44%N.

(** What [parse_string_body] returns once it has read the unit [c]. *)
Definition after_unit (c : N) (s : jsstring) : option (jsstring * jsstring) :=
  match parse_string_body s with
  | Some (str, r) => Some (c :: str, r)
  | None => None
  end.

(** The strings a string yields when iterated: one per code point. *)
Fixpoint code_points (s : jsstring) : list jsstring :=
  match s with
  | [] => []
  | c :: s' =>
      if is_high_surrogate c then
        match s' with
        | d :: s'' =>
            if is_low_surrogate d then [c; d] :: code_points s''
            else [c] :: code_points s'
        | [] => [[c]]
        end
      else [c] :: code_points s'
  end.

(** The elements [...v] spreads into an array literal; [None] is the
    [TypeError] for a value that is not iterable. *)
Definition spread (v : value) : option (list value) :=
  match v with
  | VArr items => Some items
  | VStr s => Some (map VStr (code_points s))
  | _ => None
  end.

End Json.

Import Json.

(** ** [src/types.ts] *)

Inductive BotMode :=
| surfer | research | creative | coder | visual
| guide | deal_hunter | unroller | trailer | ideas.

Module WebRef.
Record t := { uri : option jsstring; title : option jsstring }.
End WebRef.

Record GroundingChunk := { web : option WebRef.t }.

Inductive Role := role_user | role_model.

Module Source.
Record t := { title : option jsstring; uri : option jsstring }.
End Source.

Module ChatMessage.
Record t := {
  id : jsstring;
  role : Role;
  text : jsstring;
  imageUrl : option jsstring;
  timestamp : Z;
  sources : option (list Source.t)
}.
End ChatMessage.

Module ChatSession.
Record t := {
  id : jsstring;
  title : jsstring;
  messages : list ChatMessage.t;
  timestamp : Z
}.
End ChatSession.

(** [StockVideo]: the declared fields are strings, but [findStockFootage]
    fills them with whatever the parsed JSON holds. *)
Module StockVideo.
Record t := { title : Json.value; url : Json.value; source : Json.value }.
End StockVideo.

(** [ScriptParams]; [wordCount] is a finite number, given by its decimal
    expansion. *)
Module ScriptParams.
Record t := {
  topic : jsstring;
  channelName : jsstring;
  wordCount : number;
  tone : jsstring
}.
End ScriptParams.

Module SavedScript.
Record t := {
  id : jsstring;
  title : jsstring;
  channel : jsstring;
  content : jsstring;
  timestamp : Z
}.
End SavedScript.

(** ** The hosted model ([@google/genai]) *)

Inductive Part :=
| inlineData (data mimeType : jsstring)
| textPart (text : jsstring).

Inductive Contents :=
| ContentText (text : jsstring)
| ContentParts (role : jsstring) (parts : list Part).

Record Config := {
  googleSearch : bool;
  systemInstruction : option jsstring
}.

Record Request := {
  model : jsstring;
  contents : Contents;
  config : option Config
}.

Record GroundingMetadata := {
  gm_groundingChunks : option (list GroundingChunk)
}.

Record Candidate := { groundingMetadata : option GroundingMetadata }.

Record GenerateContentResponse := {
  response_text : option jsstring;
  candidates : option (list Candidate)
}.

(** What a [catch] clause receives: an [Error] object, of which the code reads
    [message] and [status]. *)
Record JsError := {
  message : option jsstring;
  status : option Z
}.

(** [new Error(msg)] *)
Definition Error (msg : jsstring) : JsError :=
  {| message := Some msg; status := None |}.

Inductive outcome (A : Type) :=
| Resolved (a : A)
| Rejected (e : JsError).
Arguments Resolved {A} a.
Arguments Rejected {A} e.

(** ** Asynchronous computations over the request log *)

Definition Async (A : Type) : Type :=
  list Request -> outcome A * list Request.

Definition ret {A} (a : A) : Async A := fun log => (Resolved a, log).

Definition throw {A} (e : JsError) : Async A := fun log => (Rejected e, log).

Definition bind {A B} (m : Async A) (k : A -> Async B) : Async B :=
  fun log =>
    match m log with
    | (Resolved a, log') => k a log'
    | (Rejected e, log') => (Rejected e, log')
    end.

(** [try { m } catch (e) { h e }] *)
Definition try_catch {A} (m : Async A) (h : JsError -> Async A) : Async A :=
  fun log =>
    match m log with
    | (Resolved a, log') => (Resolved a, log')
    | (Rejected e, log') => h e log'
    end.

Notation "'let*' x := m 'in' k" := (bind m (fun x => k))
  (at level 10, x name, m at level 100, k at level 200).

(** ** [src/services/gemini.ts]

    The calls of [console.warn] and [console.error] only print, and are left
    out. *)

Module Gemini.

Definition CORE_PROTOCOL : jsstring := js "gemini-3-flash-preview".
Definition BACKUP_PROTOCOL : jsstring := js "gemini-3-pro-preview".
Definition VISION_PROTOCOL : jsstring := js "gemini-3-flash-preview".

Record WebResponse := {
  text : jsstring;
  groundingChunks : option (list GroundingChunk)
}.

Definition NO_DATA : jsstring := js "NO_DATA_RECEIVED_FROM_VIOLEN".

Definition BACKUP_MARKER : jsstring :=
  [LF; LF] ++ js "_" ++ [EM_DASH] ++ js " [Rerouted via Backup Node]_".

Definition SYSTEM_OVERLOAD : jsstring :=
  js "## SYSTEM OVERLOAD" ++ [LF; LF]
  ++ js "High traffic on all VIOLEN nodes. Please wait 30 seconds.".

Definition CONNECTION_ERROR : jsstring :=
  js "## CONNECTION ERROR" ++ [LF; LF]
  ++ js "Unable to reach the VIOLEN Gateway.".

Section Uplink.

(** The hosted service behind [internetUplink.models.generateContent]: for
    each request it resolves with a response or rejects with an error. The two
    requests of one dispatch differ in their [model], so a function of the
    request describes every behaviour of the service within one call. *)
Variable generateContent : Request -> outcome GenerateContentResponse.

(** [new Date().toLocaleDateString('en-US', ...)], read from the clock. *)
Variable currentDate : jsstring.

(** [await internetUplink.models.generateContent(req)]: the request is
    logged, and the service's answer is the result. *)
Definition await_generateContent (req : Request)
  : Async GenerateContentResponse :=
  fun log => (generateContent req, log ++ [req]).

Definition getProtocolInstruction (mode : BotMode) : jsstring :=
  join [LF] [
    [];
    js "    IDENTITY: VIOLEN AI.";
    js "    STATUS: ONLINE.";
    js "    CURRENT_DATE: " ++ currentDate ++ js ".";
    js "    STRICT_MODE: FACT_CHECK_ENABLED.";
    js "    ";
    js "    CORE DIRECTIVE: You are a high-end True Crime and Documentary Script Engine. You function as a "
      ++ [DQUOTE] ++ js "Deep Net" ++ [DQUOTE]
      ++ js " scanner, aggregating data from top-tier journalism, police archives, and community forums.";
    js "    ";
    js "    SEARCH PROTOCOL - " ++ [DQUOTE] ++ js "FULL SPECTRUM SCAN" ++ [DQUOTE] ++ js ":";
    js "    1. **TIER 1 NEWS**: Prioritize facts from: New York Times, CNN, Yahoo News, Google News, The Washington Post, USA Today, CNBC, AP News, Reuters.";
    js "    2. **COMMUNITY INTEL**: Scan Reddit (r/TrueCrime, r/UnresolvedMysteries, etc.) for theories, timeline clarifications, and local discussions.";
    js "    3. **ARCHIVES & RECORDS**: For historical queries (e.g., "
      ++ [DQUOTE] ++ js "Murders in the 1980s" ++ [DQUOTE]
      ++ js "), search digitized newspaper archives, police reports, and court documents.";
    js "    ";
    js "    CRITICAL RULES:";
    js "    1. **TEMPORAL ACCURACY**: You know today is " ++ currentDate
      ++ js ". If the user asks for " ++ [DQUOTE] ++ js "new" ++ [DQUOTE]
      ++ js " or " ++ [DQUOTE] ++ js "current" ++ [DQUOTE]
      ++ js " cases, double-check the event dates. Do not present old cases as new.";
    js "    2. **NO BIAS**: Present the narrative objectively. ";
    js "    3. **NO MISINFORMATION**: If sources conflict (e.g., Reddit vs. Police Report), state the conflict clearly.";
    js "    4. **VISUAL EVIDENCE**: You MUST search for actual photos of the people, places, or evidence involved. Use markdown: `![Evidence: Description](URL)`.";
    js "    ";
    js "    TONE: Gritty, Professional, Investigative, "
      ++ [DQUOTE] ++ js "YouTube Documentary" ++ [DQUOTE]
      ++ js " Style (e.g. JCS Criminal Psychology, Nexpo, Lemmino).";
    js "  "
  ].

(** [response.candidates?.[0]?.groundingMetadata?.groundingChunks] *)
Definition webSources_of (response : GenerateContentResponse)
  : option (list GroundingChunk) :=
  match candidates response with
  | Some (c :: _) =>
      match groundingMetadata c with
      | Some gm => gm_groundingChunks gm
      | None => None
      end
  | _ => None
  end.

(** [error.message?.includes('429') || error.status === 429
     || error.message?.includes('503')] *)
Definition isTrafficError (error : JsError) : bool :=
  opt_includes (message error) (js "429")
  || match status error with Some st => (st =? 429)%Z | None => false end
  || opt_includes (message error) (js "503").


Section queryWebNetwork.

Variable query : jsstring.
Variables visualData visualMimeType : option jsstring.
Variable activeNode : BotMode.

Definition dataPackets : list Part :=
  (match visualData, visualMimeType with
   | Some d, Some m =>
       if truthy_str d && truthy_str m then [inlineData d m] else []
   | _, _ => []
   end) ++ [textPart query].

Definition request_for (model : jsstring) : Request :=
  {| model := model;
     contents := ContentParts (js "user") dataPackets;
     config := Some {| googleSearch := true;
                       systemInstruction :=
                         Some (getProtocolInstruction activeNode) |} |}.

Definition executeRequest (model : jsstring) : Async WebResponse :=
  let* response := await_generateContent (request_for model) in
  let outputText := or_str (response_text response) NO_DATA in
  let webSources := webSources_of response in
  ret {| text := outputText; groundingChunks := webSources |}.

Definition queryWebNetwork : Async WebResponse :=
  try_catch (executeRequest CORE_PROTOCOL) (fun error =>
    if isTrafficError error then
      try_catch
        (let* fallbackResponse := executeRequest BACKUP_PROTOCOL in
         ret {| text := text fallbackResponse ++ BACKUP_MARKER;
                groundingChunks := groundingChunks fallbackResponse |})
        (fun fallbackError =>
           ret {| text := SYSTEM_OVERLOAD; groundingChunks := Some [] |})
    else
      ret {| text := CONNECTION_ERROR; groundingChunks := Some [] |}).

End queryWebNetwork.

(** The response [executeRequest] builds from an answer of the service. *)
Definition packaged (response : GenerateContentResponse) : WebResponse :=
  {| text := or_str (response_text response) NO_DATA;
     groundingChunks := webSources_of response |}.

(** The three errors [transcribeVideo] raises. *)
Definition TOO_LARGE : jsstring :=
  js "Video file is too large for client-side processing. Please try a smaller file (under 20MB).".

Definition MODEL_NOT_FOUND : jsstring :=
  js "Model " ++ VISION_PROTOCOL
  ++ js " not found. Please try again later or check API availability.".

Definition TRANSCRIBE_FAILED (error : JsError) : jsstring :=
  js "Failed to transcribe video. "
  ++ or_str (message error) (js "Unknown error").

Definition TRANSCRIBE_PROMPT : jsstring :=
  js "Generate a verbatim, highly accurate transcription of the spoken audio in this video. Format the output cleanly with speaker labels if multiple voices are detected (e.g., Speaker 1:, Speaker 2:). If there is no speech, describe the audio environment (e.g., [Silence], [Music playing]). Do not add any introductory or concluding remarks, just the transcription.".

Definition transcribe_request (videoBase64 mimeType : jsstring) : Request :=
  {| model := VISION_PROTOCOL;
     contents := ContentParts (js "user")
                   [inlineData videoBase64 mimeType;
                    textPart TRANSCRIBE_PROMPT];
     config := None |}.

Definition transcribeVideo (videoBase64 mimeType : jsstring)
  : Async jsstring :=
  try_catch
    (let* response :=
       await_generateContent (transcribe_request videoBase64 mimeType) in
     ret (or_str (response_text response)
                 (js "[No transcription generated]")))
    (fun error =>
       if opt_includes (message error) (js "413") then
         throw (Error TOO_LARGE)
       else if opt_includes (message error) (js "404") then
         throw (Error MODEL_NOT_FOUND)
       else throw (Error (TRANSCRIBE_FAILED error))).

(** The prompt of [findStockFootage]. *)
Definition stock_prompt (query : jsstring) : jsstring :=
  join [LF] [
    [];
    js "        Search for free stock videos related to "
      ++ [DQUOTE] ++ query ++ [DQUOTE] ++ js ".";
    js "        Focus on sources like Pexels, Pixabay, Mixkit, and Coverr.";
    js "        Return a list of 4 videos found.";
    js "        Format the output strictly as a JSON array of objects.";
    js "        Each object must have:";
    js "        - " ++ [DQUOTE] ++ js "title" ++ [DQUOTE]
      ++ js ": string (description of video)";
    js "        - " ++ [DQUOTE] ++ js "url" ++ [DQUOTE]
      ++ js ": string (link to the video page)";
    js "        - " ++ [DQUOTE] ++ js "source" ++ [DQUOTE]
      ++ js ": string (e.g. " ++ [DQUOTE] ++ js "Pexels" ++ [DQUOTE] ++ js ")";
    js "        ";
    js "        Do not wrap in markdown code blocks. Just return the raw JSON array.";
    js "      "
  ].

Definition stock_request (query : jsstring) : Request :=
  {| model := CORE_PROTOCOL;
     contents := ContentText (stock_prompt query);
     config := Some {| googleSearch := true; systemInstruction := None |} |}.

Definition OPEN_BRACKET : N := 91.
Definition CLOSE_BRACKET : N := 93.

(** The suffix of [s] that starts at its first ['[']. *)
Fixpoint from_first_open (s : jsstring) : option jsstring :=
  match s with
  | [] => None
  | c :: s' => if (c =? OPEN_BRACKET)%N then Some s else from_first_open s'
  end.

Fixpoint drop_until_close (s : jsstring) : jsstring :=
  match s with
  | [] => []
  | c :: s' => if (c =? CLOSE_BRACKET)%N then s else drop_until_close s'
  end.

(** The prefix of [s] that ends at its last [']']. *)
Definition upto_last_close (s : jsstring) : option jsstring :=
  match drop_until_close (rev s) with
  | [] => None
  | r => Some (rev r)
  end.

(** [text.match(/\[[\s\S]*\]/)]: the leftmost match starts at the first ['[']
    that a [']'] follows, which is the first ['['] of the text if any is, and
    the greedy star runs to the last [']']. The result is [jsonMatch[0]]. *)
Definition json_match (text : jsstring) : option jsstring :=
  match from_first_open text with
  | Some s => upto_last_close s
  | None => None
  end.

(** One element of the parsed array made a [StockVideo]; [None] is the
    [TypeError] of reading a property of [null]. *)
Definition to_stock_video (query : jsstring) (item : value)
  : option StockVideo.t :=
  match get_field item (js "title") with
  | None => None
  | Some t =>
      match get_field item (js "url") with
      | None => None
      | Some u =>
          match get_field item (js "source") with
          | None => None
          | Some s =>
              Some {| StockVideo.title := or_else t (VStr query);
                      StockVideo.url := or_else u (VStr (js "#"));
                      StockVideo.source := or_else s (VStr (js "Web")) |}
          end
      end
  end.

(** The record [to_stock_video] makes of an element, as a relation: each
    field is what the element holds under that name, or the default where it
    holds nothing truthy. *)
Definition coerced (query : jsstring) (item : value) (video : StockVideo.t)
  : Prop :=
  exists t u s,
    get_field item (js "title") = Some t
    /\ get_field item (js "url") = Some u
    /\ get_field item (js "source") = Some s
    /\ StockVideo.title video = (if truthy t then t else VStr query)
    /\ StockVideo.url video = (if truthy u then u else VStr (js "#"))
    /\ StockVideo.source video = (if truthy s then s else VStr (js "Web")).

(** The values whose properties cannot be read. *)
Definition nullish (v : value) : Prop := v = VNull \/ v = VUndefined.

(** [json.map(item => ...)]: the first element that throws ends the map. *)
Fixpoint map_stock_videos (query : jsstring) (items : list value)
  : option (list StockVideo.t) :=
  match items with
  | [] => Some []
  | item :: items' =>
      match to_stock_video query item with
      | None => None
      | Some v =>
          match map_stock_videos query items' with
          | None => None
          | Some vs => Some (v :: vs)
          end
      end
  end.

Definition SyntaxError : JsError :=
  Error (js "Unexpected token in JSON").

Definition TypeError : JsError :=
  Error (js "Cannot read properties of null (reading 'title')").

Definition findStockFootage (query : jsstring) : Async (list StockVideo.t) :=
  try_catch
    (let* response := await_generateContent (stock_request query) in
     let text := or_str (response_text response) [] in
     match json_match text with
     | Some jsonMatch =>
         match JSON_parse jsonMatch with
         | None => throw SyntaxError
         | Some (VArr json) =>
             match map_stock_videos query json with
             | Some videos => ret videos
             | None => throw TypeError
             end
         | Some _ => ret []
         end
     | None => ret []
     end)
    (fun error => ret []).

(** The eye in the heading of the theories section: U+1F441, a surrogate
    pair, and the variation selector U+FE0F. *)
Definition EYE : jsstring := [55357; 56385; 65039]%N.

Definition conspiracyInstruction (includeConspiracies : bool) : jsstring :=
  if includeConspiracies then
    join [LF] [
      [];
      js "      6. **THEORIES & SPECULATION**: ";
      js "         - Create a distinct section at the end titled "
        ++ [DQUOTE] ++ js "## " ++ EYE ++ js " ALTERNATIVE THEORIES"
        ++ [DQUOTE] ++ js ".";
      js "         - Detail popular conspiracy theories or alternative explanations regarding this case from Reddit/Forums.";
      js "         - **CRITICAL**: Clearly label these as theories/speculation.";
      js "      "
    ]
  else [].

(** The prompt of [compileWebReport]; [today] is the reading of
    [new Date().toLocaleDateString()]. *)
Definition report_prompt (today topic channelName : jsstring)
  (wordCount : number) (tone : jsstring) (includeConspiracies : bool)
  : jsstring :=
  join [LF] [
    js "PROTOCOL: SCRIPT_COMPILATION";
    js "     TARGET: YouTube True Crime/Documentary Script";
    js "     TOPIC: " ++ topic;
    js "     CHANNEL: " ++ channelName;
    js "     LENGTH: " ++ number_to_string wordCount ++ js " words";
    js "     TONE: " ++ tone ++ js " (Maintain high accuracy and neutrality)";
    js "     CURRENT_DATE: " ++ today;
    js "     ";
    js "     INSTRUCTION: ";
    js "     1. **DEEP NET RESEARCH**: Search NYT, CNN, AP News, local police reports, and Reddit for comprehensive details.";
    js "     2. **VERIFY DATES**: Explicitly state the date of the events in the script to confirm accuracy against today's date ("
      ++ today ++ js ").";
    js "     3. Write a compelling, viral-ready script structure (Hook, Intro, Body, Conclusion).";
    js "     4. **VISUAL EVIDENCE**: Find and insert at least 3-5 relevant images (real photos of subject/location) using markdown format: `![Evidence: Description](URL)`.";
    js "     5. Format speaker names clearly as **Narrator:** or **"
      ++ channelName ++ js ":**.";
    js "     " ++ conspiracyInstruction includeConspiracies;
    js "     ";
    js "     7. **NEXT INVESTIGATIONS**: At the very end of your response, strictly output 3 related but distinct stories or cases that the user might want to cover next. Use this exact format:";
    js "     > SUGGESTION: [Title of Story]";
    js "     > SUGGESTION: [Title of Story]";
    js "     > SUGGESTION: [Title of Story]"
  ].

Definition compileWebReport (today topic channelName : jsstring)
  (wordCount : number) (tone : jsstring) (includeConspiracies : bool)
  : Async WebResponse :=
  queryWebNetwork (report_prompt today topic channelName wordCount tone
                     includeConspiracies)
    None None creative.

End Uplink.

End Gemini.

(** ** The message bubble ([src/unnamed/part_000]) *)

(** [React.ReactNode], of which the code only asks whether it is a string. *)
Inductive ReactNode :=
| node_string (s : jsstring)
| node_element.

(** The three states of a media reference. Class names and the [theme]
    property only style the output and are left out of the views. *)
Inductive Status := loading | loaded | error.

Definition status_is (a b : Status) : bool :=
  match a, b with
  | loading, loading | loaded, loaded | error, error => true
  | _, _ => false
  end.

(** [src.includes('wiki/File:') || src.includes('wiki/Image:')] *)
Definition is_wiki_wrapper (src : jsstring) : bool :=
  includes src (js "wiki/File:") || includes src (js "wiki/Image:").

Module YouTubeEmbed.

Definition is_id_char (c : N) : bool :=
  (is_digit c || (65 <=? c) && (c <=? 90) || (97 <=? c) && (c <=? 122)
   || (c =? 95) || (c =? 45))%N.

(** [([\w-]{11})] at the head of [s]. *)
Definition take_id (s : jsstring) : option jsstring :=
  let id := take 11 s in
  if (length id =? 11)%nat && forallb is_id_char id then Some id else None.

(** The rest of [\S+([\w-]{11})] once [\S+] has matched a character: the
    greedy [\S+] first tries to take one more, and gives back otherwise. *)
Fixpoint after_nonspace (s : jsstring) : option jsstring :=
  match s with
  | [] => None
  | c :: s' =>
      match (if is_white_space c then None else after_nonspace s') with
      | Some id => Some id
      | None => take_id s
      end
  end.

Definition user_path (s : jsstring) : option jsstring :=
  match s with
  | [] => None
  | c :: s' => if is_white_space c then None else after_nonspace s'
  end.

Definition after_literal (lit : jsstring)
  (k : jsstring -> option jsstring) (s : jsstring) : option jsstring :=
  if starts_with s lit then k (drop (length lit) s) else None.

Definition orelse (a b : option jsstring) : option jsstring :=
  match a with Some x => Some x | None => b end.

(** A match of the pattern that starts at the head of [s]; alternatives are
    tried in the order they are written. *)
Definition match_here (s : jsstring) : option jsstring :=
  orelse (after_literal (js "youtu.be/") take_id s)
    (after_literal (js "youtube.com") (fun r =>
       orelse (after_literal (js "/embed/") take_id r)
      (orelse (after_literal (js "/v/") take_id r)
      (orelse (after_literal (js "/watch?v=") take_id r)
      (orelse (after_literal (js "/user/") user_path r)
      (orelse (after_literal (js "/ytscreeningroom?v=") take_id r)
              (after_literal (js "/shorts/") take_id r)))))) s).

(** The leftmost match. *)
Fixpoint search (s : jsstring) : option jsstring :=
  match match_here s with
  | Some id => Some id
  | None =>
      match s with
      | [] => None
      | _ :: s' => search s'
      end
  end.

Definition getVideoId (url : jsstring) : option jsstring :=
  if truthy_str url then search url else None.

(** The alternatives of the pattern that the id follows at once. *)
Definition video_markers : list jsstring :=
  [js "youtu.be/"; js "youtube.com/embed/"; js "youtube.com/v/";
   js "youtube.com/watch?v="; js "youtube.com/ytscreeningroom?v=";
   js "youtube.com/shorts/"].

(** [s] starts with a match of the pattern whose group is [id]: a marker
    and the id, or the path of a user, one or more units that are no white
    space, and the id. *)
Definition marked (s id : jsstring) : Prop :=
  (exists marker rest, marker ∈ video_markers /\ s = marker ++ id ++ rest)
  \/ (exists name rest,
        s = js "youtube.com/user/" ++ name ++ id ++ rest
        /\ name <> [] /\ Forall (fun c => is_white_space c = false) name).

(** [isValid], and the thumbnail images created and not yet answered. *)
Record State := {
  isValid : option bool;
  pending : list jsstring
}.

Definition initial : State := {| isValid := None; pending := [] |}.

Definition thumbnail (videoId : jsstring) : jsstring :=
  js "https://i.ytimg.com/vi/" ++ videoId ++ js "/hqdefault.jpg".

Inductive Event :=
| Effect
| OnLoad (width : N)
| OnError.

(** The effect of mounting, and the two callbacks of a thumbnail image. *)
Inductive step (url : jsstring) : State -> Event -> State -> Prop :=
| step_effect_no_id st :
    getVideoId url = None ->
    step url st Effect {| isValid := Some false; pending := pending st |}
| step_effect_probe st videoId :
    getVideoId url = Some videoId ->
    step url st Effect
      {| isValid := isValid st;
         pending := pending st ++ [thumbnail videoId] |}
| step_onload st img rest width :
    pending st = img :: rest ->
    step url st (OnLoad width)
      {| isValid := Some (120 <? width)%N; pending := rest |}
| step_onerror st img rest :
    pending st = img :: rest ->
    step url st OnError {| isValid := Some false; pending := rest |}.

(** An event that reports no thumbnail wider than the 120 pixels of the
    image the platform serves for a video that is not available. *)
Definition placeholder (ev : Event) : Prop :=
  match ev with
  | OnLoad width => (width <= 120)%N
  | _ => True
  end.

(** A run of the component: the states it renders, one after each event. *)
Inductive run (url : jsstring) : State -> list Event -> State -> Prop :=
| run_nil st : run url st [] st
| run_cons st ev st' evs st'' :
    step url st ev st' -> run url st' evs st'' ->
    run url st (ev :: evs) st''.

Inductive View :=
| Nothing
| VideoRestricted (searchUrl : jsstring)
| Verifying
| Player (src : jsstring).

Section Render.

(** The platform's [encodeURIComponent], on the well-formed text that the
    markdown renderer hands over. *)
Variable encodeURIComponent : jsstring -> jsstring.

(** [typeof title === 'string' ? title : 'related video'] *)
Definition searchTitle (title : ReactNode) : jsstring :=
  match title with
  | node_string s => s
  | node_element => js "related video"
  end.

Definition searchUrl (title : ReactNode) : jsstring :=
  js "https://www.youtube.com/results?search_query="
  ++ encodeURIComponent (searchTitle title).

Definition render (url : jsstring) (title : ReactNode) (st : State) : View :=
  match getVideoId url with
  | None => Nothing
  | Some videoId =>
      match isValid st with
      | Some false => VideoRestricted (searchUrl title)
      | None => Verifying
      | Some true =>
          Player (js "https://www.youtube.com/embed/" ++ videoId
                  ++ js "?autoplay=0&rel=0&modestbranding=1")
      end
  end.

End Render.

End YouTubeEmbed.

(** What an image component shows. *)
Inductive ImageView :=
| NoElement
| LinkCard (href caption : jsstring)
| SearchCard (searchUrl caption : jsstring)
| LoadingPlaceholder
| ImageElement (src : jsstring) (alt : option jsstring).

(** The effect and the callbacks that the two image components share. *)
Module ImageProbe.

(** The state of an image component: its [status], and the [Image] objects
    the effect created to load a URL and that have not answered yet. *)
Record State := {
  status : Status;
  probes : list jsstring
}.

Definition initial : State :=
  {| status := loading; probes := [] |}.

Inductive Event := Effect | OnLoad | OnError.

Inductive step (src : option jsstring) : State -> Event -> State -> Prop :=
| step_effect_no_src st :
    truthy_opt src = false ->
    step src st Effect {| status := error; probes := probes st |}
| step_effect_wrapper st s :
    src = Some s -> truthy_str s = true -> is_wiki_wrapper s = true ->
    step src st Effect {| status := error; probes := probes st |}
| step_effect_probe st s :
    src = Some s -> truthy_str s = true -> is_wiki_wrapper s = false ->
    step src st Effect
      {| status := status st; probes := probes st ++ [s] |}
| step_onload st img rest :
    probes st = img :: rest ->
    step src st OnLoad {| status := loaded; probes := rest |}
| step_onerror st img rest :
    probes st = img :: rest ->
    step src st OnError {| status := error; probes := rest |}.

Inductive run (src : option jsstring)
  : State -> list Event -> State -> Prop :=
| run_nil st : run src st [] st
| run_cons st ev st' evs st'' :
    step src st ev st' -> run src st' evs st'' ->
    run src st (ev :: evs) st''.

End ImageProbe.

Module MarkdownImage.

Section Render.

Variable encodeURIComponent : jsstring -> jsstring.

Definition render (src alt : option jsstring) (st : ImageProbe.State) : ImageView :=
  match src with
  | Some s =>
      if truthy_str s && is_wiki_wrapper s then
        LinkCard s (or_str alt (js "Wikipedia Image"))
      else if status_is (ImageProbe.status st) error || negb (truthy_str s) then
        SearchCard
          (js "https://www.google.com/search?tbm=isch&q="
           ++ encodeURIComponent (or_str alt (js "image")))
          (or_str alt (js "Source blocked"))
      else if status_is (ImageProbe.status st) loading then LoadingPlaceholder
      else ImageElement s alt
  | None =>
      SearchCard
        (js "https://www.google.com/search?tbm=isch&q="
         ++ encodeURIComponent (or_str alt (js "image")))
        (or_str alt (js "Source blocked"))
  end.

End Render.

End MarkdownImage.

(** The renderers of [MessageBubbleComponent] for a link and for the sources
    of a message. *)
Module MessageBubble.

(** [href && (href.includes('youtube.com/watch')
     || href.includes('youtu.be/'))], as a condition. *)
Definition isYouTube (href : option jsstring) : bool :=
  match href with
  | Some h =>
      truthy_str h
      && (includes h (js "youtube.com/watch") || includes h (js "youtu.be/"))
  | None => false
  end.

(** What the renderer of a link returns: the anchor with its [href], and
    the [url] and [title] of the [YouTubeEmbed] mounted after it, if one
    is. *)
Record Link := {
  anchor : option jsstring;
  embed : option (jsstring * ReactNode)
}.

Definition a (href : option jsstring) (children : ReactNode) : Link :=
  {| anchor := href;
     embed :=
       match href with
       | Some h =>
           if isYouTube href && truthy_str h then Some (h, children)
           else None
       | None => None
       end |}.

(** The footprint under a message: for each source shown, the [href] of its
    chip and its label. *)
Definition footprint (message : ChatMessage.t)
  : list (option jsstring * jsstring) :=
  match ChatMessage.role message, ChatMessage.sources message with
  | role_model, Some sources =>
      map (fun source =>
             (Source.uri source,
              or_str (Source.title source) (js "Web Source")))
        sources
  | _, _ => []
  end.

End MessageBubble.

(** ** Lists kept in [localStorage] *)

(** [a.id !== id] for a string [id]; [None] is the [TypeError] of reading a
    property of [null] or [undefined]. *)
Definition id_differs (id : jsstring) (a : value) : option bool :=
  match get_field a (js "id") with
  | None => None
  | Some (VStr s) => Some (negb (bool_decide (s = id)))
  | Some _ => Some true
  end.

(** [items.filter(a => a.id !== id)]: an element that throws ends the
    filter. *)
Fixpoint without_id (id : jsstring) (items : list value)
  : option (list value) :=
  match items with
  | [] => Some []
  | a :: items' =>
      match id_differs id a with
      | None => None
      | Some keep =>
          match without_id id items' with
          | None => None
          | Some kept => Some (if keep then a :: kept else kept)
          end
      end
  end.

(** ** The script view ([ScriptMode], in [src/components/StockMode.tsx]) *)

Module ScriptImage.

Definition render (src alt : option jsstring) (st : ImageProbe.State) : ImageView :=
  match src with
  | Some s =>
      if status_is (ImageProbe.status st) error || negb (truthy_str s) then NoElement
      else if status_is (ImageProbe.status st) loading then LoadingPlaceholder
      else ImageElement s alt
  | None => NoElement
  end.

End ScriptImage.

Module ScriptMode.

Definition SUGGESTION : jsstring := js "> SUGGESTION:".

(** A line of the form the prompt of [compileWebReport] asks for: the
    marker, a space and a title. *)
Definition suggestion_line (X : jsstring) : jsstring :=
  js "> SUGGESTION: " ++ X.

(** The body of [lines.forEach]: what one line adds to [foundSuggestions]. *)
Definition scan_line (foundSuggestions : list jsstring) (line : jsstring)
  : list jsstring :=
  if includes line SUGGESTION then
    let title := trim (replace_first line SUGGESTION []) in
    if truthy_str title then foundSuggestions ++ [title]
    else foundSuggestions
  else foundSuggestions.

(** The effect on [generatedScript]: the value it gives [suggestions]. *)
Definition parseSuggestions (generatedScript : jsstring) : list jsstring :=
  if truthy_str generatedScript then
    let lines := split_on LF generatedScript in
    fold_left scan_line lines []
  else [].

Definition STORAGE_KEY : jsstring := js "violen_scripts".

(** The object behind a [SavedScript], its properties in the order of the
    literal in [saveScript]. *)
Definition value_of_script (s : SavedScript.t) : value :=
  VObj [(js "id", VStr (SavedScript.id s));
        (js "title", VStr (SavedScript.title s));
        (js "channel", VStr (SavedScript.channel s));
        (js "content", VStr (SavedScript.content s));
        (js "timestamp", VNum (of_Z (SavedScript.timestamp s)))].

(** A script whose timestamp is a reading of [Date.now()]. *)
Definition timely_script (s : SavedScript.t) : Prop :=
  safe_integer (SavedScript.timestamp s).

(** The state of the component. [savedScripts] is declared [SavedScript[]],
    and holds whatever [JSON.parse] returned once the history is loaded. *)
Record State := {
  params : ScriptParams.t;
  includeConspiracies : bool;
  generatedScript : jsstring;
  suggestions : list jsstring;
  isGenerating : bool;
  copied : bool;
  savedScripts : value
}.

Definition initial : State :=
  {| params := {| ScriptParams.topic := [];
                  ScriptParams.channelName := [];
                  ScriptParams.wordCount := of_Z 600;
                  ScriptParams.tone := js "True Crime" |};
     includeConspiracies := false;
     generatedScript := [];
     suggestions := [];
     isGenerating := false;
     copied := false;
     savedScripts := VArr [] |}.

Definition setParams (p : ScriptParams.t) (st : State) : State :=
  {| params := p;
     includeConspiracies := includeConspiracies st;
     generatedScript := generatedScript st;
     suggestions := suggestions st;
     isGenerating := isGenerating st;
     copied := copied st;
     savedScripts := savedScripts st |}.

Definition setGeneratedScript (script : jsstring) (st : State) : State :=
  {| params := params st;
     includeConspiracies := includeConspiracies st;
     generatedScript := script;
     suggestions := suggestions st;
     isGenerating := isGenerating st;
     copied := copied st;
     savedScripts := savedScripts st |}.

Definition setSuggestions (found : list jsstring) (st : State) : State :=
  {| params := params st;
     includeConspiracies := includeConspiracies st;
     generatedScript := generatedScript st;
     suggestions := found;
     isGenerating := isGenerating st;
     copied := copied st;
     savedScripts := savedScripts st |}.

Definition setIsGenerating (b : bool) (st : State) : State :=
  {| params := params st;
     includeConspiracies := includeConspiracies st;
     generatedScript := generatedScript st;
     suggestions := suggestions st;
     isGenerating := b;
     copied := copied st;
     savedScripts := savedScripts st |}.

Definition setCopied (b : bool) (st : State) : State :=
  {| params := params st;
     includeConspiracies := includeConspiracies st;
     generatedScript := generatedScript st;
     suggestions := suggestions st;
     isGenerating := isGenerating st;
     copied := b;
     savedScripts := savedScripts st |}.

Definition setSavedScripts (scripts : value) (st : State) : State :=
  {| params := params st;
     includeConspiracies := includeConspiracies st;
     generatedScript := generatedScript st;
     suggestions := suggestions st;
     isGenerating := isGenerating st;
     copied := copied st;
     savedScripts := scripts |}.

(** The effect that loads the history when the component mounts. *)
Definition loadHistory (localStorage : gmap jsstring jsstring) (st : State)
  : State :=
  match localStorage !! STORAGE_KEY with
  | Some stored =>
      if truthy_str stored then
        match JSON_parse stored with
        | Some v => setSavedScripts v st
        | None => st
        end
      else st
  | None => st
  end.

(** The effect that runs once [generatedScript] has changed. *)
Definition suggestionsEffect (st : State) : State :=
  setSuggestions (parseSuggestions (generatedScript st)) st.



(** [deleteScript]; [None] is the [TypeError] of a history that has no
    [filter], or of an entry that is [null]. *)
Definition deleteScript (id : jsstring) (st : State)
  (localStorage : gmap jsstring jsstring)
  : option (State * gmap jsstring jsstring) :=
  match savedScripts st with
  | VArr items =>
      match without_id id items with
      | Some kept =>
          let updated := VArr kept in
          Some (setSavedScripts updated st,
                <[STORAGE_KEY :=
                    default (js "undefined") (JSON_stringify updated)]>
                  localStorage)
      | None => None
      end
  | _ => None
  end.

(** The scripts of a list with another id than [id]. *)
Definition scripts_without (id : jsstring) (scripts : list SavedScript.t)
  : list SavedScript.t :=
  List.filter (fun s => negb (bool_decide (SavedScript.id s = id))) scripts.

(** [/> SUGGESTION:.*\n?/g] in [handleGenerate]. A dot matches any unit
    but a line terminator. *)
Definition is_line_terminator (c : N) : bool :=
  ((c =? 10) || (c =? 13) || (c =? 8232) || (c =? 8233))%N.

(** What the greedy [.*] leaves of [s]. *)
Fixpoint rest_of_line (s : jsstring) : jsstring :=
  match s with
  | [] => []
  | c :: s' => if is_line_terminator c then s else rest_of_line s'
  end.

(** What follows a match of the pattern that starts at the head of [s]. *)
Definition after_suggestion (s : jsstring) : option jsstring :=
  if starts_with s SUGGESTION then
    let r := rest_of_line (drop (length SUGGESTION) s) in
    Some (match next_is LF r with Some r' => r' | None => r end)
  else None.

(** [s.replace(/> SUGGESTION:.*\n?/g, '')]: every step consumes a unit, so
    as many steps as [s] has units end the scan. *)
Fixpoint without_suggestions (steps : nat) (s : jsstring) : jsstring :=
  match steps with
  | O => s
  | S steps' =>
      match after_suggestion s with
      | Some r => without_suggestions steps' r
      | None =>
          match s with
          | [] => []
          | c :: s' => c :: without_suggestions steps' s'
          end
      end
  end.

Definition cleanText (text : jsstring) : jsstring :=
  without_suggestions (length text) text.

Section Generate.

Variable generateContent : Request -> outcome GenerateContentResponse.

(** The two readings of the clock: [toLocaleDateString('en-US', ...)] in
    the system instruction, [toLocaleDateString()] in the prompt. *)
Variables currentDate today : jsstring.

(** [handleGenerate], with the effect on [generatedScript] that follows its
    last render: the state once the call is settled, and the requests
    sent. *)
Definition handleGenerate (overrideTopic : option jsstring) (st : State)
  : list Request -> State * list Request :=
  fun log =>
    let topicToUse := or_str overrideTopic (ScriptParams.topic (params st)) in
    if negb (truthy_str topicToUse)
       || negb (truthy_str (ScriptParams.channelName (params st)))
    then (st, log)
    else
      let st1 :=
        setCopied false
          (setSuggestions [] (setGeneratedScript [] (setIsGenerating true st))) in
      let st2 :=
        match overrideTopic with
        | Some t =>
            if truthy_str t then
              setParams
                {| ScriptParams.topic := t;
                   ScriptParams.channelName :=
                     ScriptParams.channelName (params st1);
                   ScriptParams.wordCount :=
                     ScriptParams.wordCount (params st1);
                   ScriptParams.tone := ScriptParams.tone (params st1) |}
                st1
            else st1
        | None => st1
        end in
      match
        Gemini.compileWebReport generateContent currentDate today topicToUse
          (ScriptParams.channelName (params st))
          (ScriptParams.wordCount (params st))
          (ScriptParams.tone (params st)) (includeConspiracies st) log
      with
      | (Resolved response, log') =>
          let st3 := setGeneratedScript (cleanText (Gemini.text response)) st2 in
          let st4 := setGeneratedScript (Gemini.text response) st3 in
          (suggestionsEffect (setIsGenerating false st4), log')
      | (Rejected failure, log') =>
          (suggestionsEffect (setIsGenerating false st2), log')
      end.

End Generate.

(** What [downloadScript] hands to the browser: the name of the file and
    the text of the blob. *)
Record Download := {
  download : jsstring;
  blob : jsstring
}.

(** [s.replace(/\s+/g, '_')]: a unit of white space gives the underscore of
    its run when it is the last of the run. *)
Fixpoint underscored (s : jsstring) : jsstring :=
  match s with
  | [] => []
  | c :: s' =>
      if is_white_space c then
        if match s' with d :: _ => is_white_space d | [] => false end
        then underscored s'
        else 95%N :: underscored s'
      else c :: underscored s'
  end.

(** [downloadScript]; [None] when there is no script, and nothing is
    downloaded. *)
Definition downloadScript (st : State) : option Download :=
  if truthy_str (generatedScript st) then
    Some {| download :=
              underscored
                (or_str (Some (ScriptParams.topic (params st))) (js "case"))
              ++ js ".md";
            blob := generatedScript st |}
  else None.

End ScriptMode.

(** ** The chat archive ([src/components/ChatMode.tsx]) *)

Module ChatMode.

Definition CHAT_ARCHIVE_KEY : jsstring := js "violen_chat_archives".

(** The objects of the heap behind the declared types: a property is listed
    in the order of the object literals that create the records, and an
    optional property that is [undefined] is left out, as reading it and
    [JSON.stringify] make no difference between the two. *)
Definition optional (k : jsstring) (o : option value)
  : list (jsstring * value) :=
  match o with
  | Some v => [(k, v)]
  | None => []
  end.

Definition value_of_source (s : Source.t) : value :=
  VObj (optional (js "title") (VStr <$> Source.title s)
        ++ optional (js "uri") (VStr <$> Source.uri s)).

Definition value_of_role (r : Role) : value :=
  match r with
  | role_user => VStr (js "user")
  | role_model => VStr (js "model")
  end.

Definition value_of_message (m : ChatMessage.t) : value :=
  VObj ([(js "id", VStr (ChatMessage.id m));
         (js "role", value_of_role (ChatMessage.role m));
         (js "text", VStr (ChatMessage.text m))]
        ++ optional (js "imageUrl") (VStr <$> ChatMessage.imageUrl m)
        ++ [(js "timestamp", VNum (of_Z (ChatMessage.timestamp m)))]
        ++ optional (js "sources")
             ((fun l => VArr (map value_of_source l))
                <$> ChatMessage.sources m)).

Definition value_of_session (s : ChatSession.t) : value :=
  VObj [(js "id", VStr (ChatSession.id s));
        (js "title", VStr (ChatSession.title s));
        (js "messages", VArr (map value_of_message (ChatSession.messages s)));
        (js "timestamp", VNum (of_Z (ChatSession.timestamp s)))].

(** Messages and sessions whose timestamps are readings of [Date.now()]. *)
Definition timely_message (m : ChatMessage.t) : Prop :=
  safe_integer (ChatMessage.timestamp m).

Definition timely_session (s : ChatSession.t) : Prop :=
  safe_integer (ChatSession.timestamp s)
  /\ Forall timely_message (ChatSession.messages s).

(** The state the archive uses. [archives] is declared [ChatSession[]], and
    holds whatever [JSON.parse] returned once the stored list is loaded. *)
Record State := {
  archives : value;
  isArchivesOpen : bool
}.

Definition initial : State :=
  {| archives := VArr []; isArchivesOpen := false |}.

(** The effect that loads the archives when the component mounts. *)
Definition loadArchives (localStorage : gmap jsstring jsstring) (st : State)
  : State :=
  match localStorage !! CHAT_ARCHIVE_KEY with
  | Some stored =>
      if truthy_str stored then
        match JSON_parse stored with
        | Some v => {| archives := v; isArchivesOpen := isArchivesOpen st |}
        | None => st
        end
      else st
  | None => st
  end.

(** The session [saveCurrentSession] builds; [now_id] and [now] are its two
    readings of [Date.now()]. *)
Definition new_session (now_id now : Z) (messages : list ChatMessage.t)
  (first : ChatMessage.t) : ChatSession.t :=
  let title :=
    take 40 (ChatMessage.text first)
    ++ (if (40 <? length (ChatMessage.text first))%nat then js "..."
        else []) in
  {| ChatSession.id := Z_toString now_id;
     ChatSession.title := or_str (Some title) (js "Untitled Investigation");
     ChatSession.messages := messages;
     ChatSession.timestamp := now |}.

(** [saveCurrentSession]; [None] is the [TypeError] of spreading archives
    that are not iterable. The store has no quota. *)
Definition saveCurrentSession (now_id now : Z) (messages : list ChatMessage.t)
  (st : State) (localStorage : gmap jsstring jsstring)
  : option (State * gmap jsstring jsstring) :=
  match messages with
  | [] => Some (st, localStorage)
  | first :: _ =>
      let session := new_session now_id now messages first in
      match spread (archives st) with
      | None => None
      | Some old =>
          let newArchives := VArr (value_of_session session :: old) in
          Some ({| archives := newArchives; isArchivesOpen := true |},
                <[CHAT_ARCHIVE_KEY :=
                    default (js "undefined") (JSON_stringify newArchives)]>
                  localStorage)
      end
  end.

(** [deleteSession]; [None] is the [TypeError] of archives that have no
    [filter], or of an entry that is [null]. *)
Definition deleteSession (id : jsstring) (st : State)
  (localStorage : gmap jsstring jsstring)
  : option (State * gmap jsstring jsstring) :=
  match archives st with
  | VArr items =>
      match without_id id items with
      | Some kept =>
          let newArchives := VArr kept in
          Some ({| archives := newArchives;
                   isArchivesOpen := isArchivesOpen st |},
                <[CHAT_ARCHIVE_KEY :=
                    default (js "undefined") (JSON_stringify newArchives)]>
                  localStorage)
      | None => None
      end
  | _ => None
  end.

(** [chunk => ({ title: chunk.web?.title, uri: chunk.web?.uri })] *)
Definition to_source (chunk : GroundingChunk) : Source.t :=
  {| Source.title :=
       match web chunk with Some w => WebRef.title w | None => None end;
     Source.uri :=
       match web chunk with Some w => WebRef.uri w | None => None end |}.

(** [response.groundingChunks?.map(...).filter(s => s.uri)] *)
Definition sources_of (response : Gemini.WebResponse)
  : option (list Source.t) :=
  match Gemini.groundingChunks response with
  | Some chunks =>
      Some (List.filter (fun s => truthy_opt (Source.uri s))
              (map to_source chunks))
  | None => None
  end.

Section Send.

Variable generateContent : Request -> outcome GenerateContentResponse.
Variable currentDate : jsstring.

(** A [File], of which the component reads the [type], and
    [fileToBase64] of [utils/helpers], which is not among the sources: the
    promise it returns for a file resolves with a string or rejects. *)
Variable File : Type.
Variable file_type : File -> jsstring.
Variable fileToBase64 : File -> outcome jsstring.

(** The state of the component that [handleSend] reads and writes. *)
Record Composer := {
  inputText : jsstring;
  isLoading : bool;
  selectedImage : option File;
  imagePreview : option jsstring;
  activeBotMode : BotMode
}.

Definition clearImage (st : Composer) : Composer :=
  {| inputText := inputText st;
     isLoading := isLoading st;
     selectedImage := None;
     imagePreview := None;
     activeBotMode := activeBotMode st |}.

Definition setIsLoading (b : bool) (st : Composer) : Composer :=
  {| inputText := inputText st;
     isLoading := b;
     selectedImage := selectedImage st;
     imagePreview := imagePreview st;
     activeBotMode := activeBotMode st |}.

Definition setInputText (t : jsstring) (st : Composer) : Composer :=
  {| inputText := t;
     isLoading := isLoading st;
     selectedImage := selectedImage st;
     imagePreview := imagePreview st;
     activeBotMode := activeBotMode st |}.

Definition setActiveBotMode (mode : BotMode) (st : Composer) : Composer :=
  {| inputText := inputText st;
     isLoading := isLoading st;
     selectedImage := selectedImage st;
     imagePreview := imagePreview st;
     activeBotMode := mode |}.

(** One call of [handleSend] from start to end: how its promise is settled,
    the lists it handed to [onMessagesChange], in order, the state it
    leaves and the requests sent. *)
Record Sent := {
  settled : outcome unit;
  shown : list (list ChatMessage.t);
  composer : Composer;
  requests : list Request
}.

(** [(!inputText.trim() && !selectedImage) || isLoading] *)
Definition nothing_to_send (st : Composer) : bool :=
  negb (truthy_str (trim (inputText st)))
  && match selectedImage st with Some _ => false | None => true end
  || isLoading st.

(** The message of the user; [now_id] and [now] are the two readings of
    [Date.now()]. *)
Definition userMessage (now_id now : Z) (st : Composer) : ChatMessage.t :=
  {| ChatMessage.id := Z_toString now_id;
     ChatMessage.role := role_user;
     ChatMessage.text := inputText st;
     ChatMessage.imageUrl :=
       if truthy_opt (imagePreview st) then imagePreview st else None;
     ChatMessage.timestamp := now;
     ChatMessage.sources := None |}.

(** The message of the model, with two more readings of the clock. *)
Definition botMessage (now_id now : Z) (response : Gemini.WebResponse)
  : ChatMessage.t :=
  {| ChatMessage.id := Z_toString (now_id + 1);
     ChatMessage.role := role_model;
     ChatMessage.text := Gemini.text response;
     ChatMessage.imageUrl := None;
     ChatMessage.timestamp := now;
     ChatMessage.sources := sources_of response |}.

(** [handleSend], called with the [messages] of the render it belongs to.
    [user_at] and [bot_at] are the readings of the clock for the two
    messages, each an id and a timestamp. *)
Definition handleSend (user_at bot_at : Z * Z)
  (messages : list ChatMessage.t) (st : Composer) (log : list Request)
  : Sent :=
  if nothing_to_send st then
    {| settled := Resolved tt; shown := []; composer := st; requests := log |}
  else
    let user := userMessage user_at.1 user_at.2 st in
    let shown1 := [messages ++ [user]] in
    let st1 := setIsLoading true (setInputText [] st) in
    let attached :=
      match selectedImage st with
      | Some file =>
          if truthy_opt (imagePreview st) then
            match fileToBase64 file with
            | Resolved rawBase64 =>
                Resolved (Some rawBase64, Some (file_type file),
                          clearImage st1)
            | Rejected e => Rejected e
            end
          else Resolved (None, None, st1)
      | None => Resolved (None, None, st1)
      end in
    match attached with
    | Rejected e =>
        {| settled := Rejected e; shown := shown1; composer := st1;
           requests := log |}
    | Resolved (imageBase64, imageMimeType, st2) =>
        match
          Gemini.queryWebNetwork generateContent currentDate
            (ChatMessage.text user) imageBase64 imageMimeType
            (activeBotMode st) log
        with
        | (Resolved response, log') =>
            let bot := botMessage bot_at.1 bot_at.2 response in
            {| settled := Resolved tt;
               shown := shown1 ++ [messages ++ [user; bot]];
               composer := setIsLoading false st2;
               requests := log' |}
        | (Rejected failure, log') =>
            {| settled := Resolved tt;
               shown := shown1;
               composer := setIsLoading false st2;
               requests := log' |}
        end
    end.

End Send.

Arguments inputText {File} _.
Arguments isLoading {File} _.
Arguments selectedImage {File} _.
Arguments imagePreview {File} _.
Arguments activeBotMode {File} _.
Arguments clearImage {File} _.
Arguments setIsLoading {File} _ _.
Arguments setInputText {File} _ _.
Arguments setActiveBotMode {File} _ _.
Arguments settled {File} _.
Arguments shown {File} _.
Arguments composer {File} _.
Arguments requests {File} _.
Arguments nothing_to_send {File} _.
Arguments userMessage {File} _ _ _.

(** The sessions of a list with another id than [id]. *)
Definition sessions_without (id : jsstring) (sessions : list ChatSession.t)
  : list ChatSession.t :=
  List.filter (fun s => negb (bool_decide (ChatSession.id s = id))) sessions.

End ChatMode.

(** ** The footage search ([StockMode], in [src/components/StockMode.tsx]) *)

Module StockMode.

Record State := {
  query : jsstring;
  results : list StockVideo.t;
  loading : bool
}.

Definition initial : State :=
  {| query := []; results := []; loading := false |}.

Section Search.

Variable generateContent : Request -> outcome GenerateContentResponse.

(** [handleSearch]: the state once the call is settled, and the requests
    sent. *)
Definition handleSearch (st : State) (log : list Request)
  : State * list Request :=
  if negb (truthy_str (trim (query st))) then (st, log)
  else
    let st1 := {| query := query st; results := []; loading := true |} in
    match Gemini.findStockFootage generateContent (query st) log with
    | (Resolved videos, log') =>
        ({| query := query st1; results := videos; loading := false |}, log')
    | (Rejected e, log') =>
        ({| query := query st1; results := results st1; loading := false |},
         log')
    end.

End Search.

(** [!loading && results.length === 0 && query]: whether the notice that
    no footage was found is shown. *)
Definition nothing_found (st : State) : bool :=
  negb (loading st) && (length (results st) =? 0)%nat && truthy_str (query st).

End StockMode.

(** ** The theme ([App], in [src/services/gemini.ts]) *)

Module App.

Definition THEME_KEY : jsstring := js "violen_theme".

(** The [theme] of the component, and whether the root element of the
    document has the class [dark]. *)
Record State := {
  theme : jsstring;
  dark : bool
}.

(** The effect that runs when the component mounts. *)
Definition mount (localStorage : gmap jsstring jsstring) (st : State)
  : State :=
  match localStorage !! THEME_KEY with
  | Some storedTheme =>
      if truthy_str storedTheme then
        {| theme := storedTheme;
           dark := bool_decide (storedTheme = js "dark") |}
      else {| theme := js "dark"; dark := true |}
  | None => {| theme := js "dark"; dark := true |}
  end.

Definition toggleTheme (st : State) (localStorage : gmap jsstring jsstring)
  : State * gmap jsstring jsstring :=
  let newTheme :=
    if bool_decide (theme st = js "dark") then js "light" else js "dark" in
  ({| theme := newTheme; dark := bool_decide (newTheme = js "dark") |},
   <[THEME_KEY := newTheme]> localStorage).

(** [toggleTheme], [n] times in a row. *)
Fixpoint toggled (n : nat) (st : State)
  (localStorage : gmap jsstring jsstring)
  : State * gmap jsstring jsstring :=
  match n with
  | O => (st, localStorage)
  | S n' =>
      let '(st', localStorage') := toggleTheme st localStorage in
      toggled n' st' localStorage'
  end.

End App.

(** ** Inputs used to run the definitions *)

Module Examples.

Definition no_text : GenerateContentResponse :=
  {| response_text := None; candidates := None |}.

Definition answer (t : jsstring) : GenerateContentResponse :=
  {| response_text := Some t; candidates := None |}.

Definition rate_limited : JsError :=
  {| message := Some (js "got status: 429 Too Many Requests");
     status := Some 429%Z |}.

Definition offline : JsError :=
  {| message := Some (js "Failed to fetch"); status := None |}.

(** A service whose primary tier rejects every request with [e] and whose
    other tiers answer [backup]. *)
Definition primary_down (e : JsError)
  (backup : outcome GenerateContentResponse)
  : Request -> outcome GenerateContentResponse :=
  fun req =>
    if bool_decide (model req = Gemini.CORE_PROTOCOL) then Rejected e
    else backup.

Definition always (r : outcome GenerateContentResponse)
  : Request -> outcome GenerateContentResponse :=
  fun _ => r.

Definition today : jsstring := js "Monday, November 2, 2026".


Definition question : jsstring := js "Who was D. B. Cooper?".

(** The three answers to a footage search that the specification lists, and
    one whose array holds [null]. *)
Definition footage_in_prose : jsstring :=
  js "here are results: [{" ++ [DQUOTE] ++ js "title" ++ [DQUOTE] ++ js ":"
  ++ [DQUOTE] ++ js "a" ++ [DQUOTE] ++ js "," ++ [DQUOTE] ++ js "url"
  ++ [DQUOTE] ++ js ":" ++ [DQUOTE] ++ js "u" ++ [DQUOTE] ++ js ","
  ++ [DQUOTE] ++ js "source" ++ [DQUOTE] ++ js ":" ++ [DQUOTE] ++ js "Pexels"
  ++ [DQUOTE] ++ js "}] thanks".

Definition footage_without_array : jsstring := js "no array here".

Definition footage_not_json : jsstring := js "[{not valid json}]".

Definition footage_null : jsstring := js "[null]".

Definition wiki_page : jsstring :=
  js "https://en.wikipedia.org/wiki/File:DBCooper.jpg".

Definition watch_link : jsstring :=
  js "https://www.youtube.com/watch?v=dQw4w9WgXcQ".

(** A question and its answer, as [handleSend] records them. *)
Definition asked : ChatMessage.t :=
  {| ChatMessage.id := js "1700000000000";
     ChatMessage.role := role_user;
     ChatMessage.text := question;
     ChatMessage.imageUrl := None;
     ChatMessage.timestamp := 1700000000000;
     ChatMessage.sources := None |}.

Definition answered : ChatMessage.t :=
  {| ChatMessage.id := js "1700000004001";
     ChatMessage.role := role_model;
     ChatMessage.text := js "A hijacker who was never found.";
     ChatMessage.imageUrl := None;
     ChatMessage.timestamp := 1700000004000;
     ChatMessage.sources :=
       Some [{| Source.title := Some (js "FBI");
                Source.uri := Some (js "https://www.fbi.gov/") |}] |}.

(** A session saved earlier. *)
Definition archived : ChatSession.t :=
  {| ChatSession.id := js "1690000000000";
     ChatSession.title := js "The Zodiac letters";
     ChatSession.messages := [];
     ChatSession.timestamp := 1690000000000 |}.

(** An encoder that leaves its argument as it is, to run [render]. *)
Definition no_encoding (s : jsstring) : jsstring := s.

(** The id of the video of [watch_link]. *)
Definition video : jsstring := js "dQw4w9WgXcQ".

(** A file to attach, given by its type and by what reading it gives. *)
Record Upload := {
  upload_type : jsstring;
  upload_read : outcome jsstring
}.

Definition snapshot : Upload :=
  {| upload_type := js "image/png";
     upload_read := Resolved (js "iVBORw0KGgo=") |}.

Definition unreadable : Upload :=
  {| upload_type := js "image/png";
     upload_read := Rejected (Error (js "NotReadableError")) |}.

(** The chat with the question typed, and a picture attached or not. *)
Definition composing (picture : option Upload) : ChatMode.Composer Upload :=
  {| ChatMode.inputText := question;
     ChatMode.isLoading := false;
     ChatMode.selectedImage := picture;
     ChatMode.imagePreview :=
       match picture with
       | Some _ => Some (js "data:image/png;base64,iVBORw0KGgo=")
       | None => None
       end;
     ChatMode.activeBotMode := surfer |}.

(** The script view with a script written, and a script saved earlier. *)
Definition drafted : ScriptMode.State :=
  ScriptMode.setGeneratedScript (js "**Narrator:** It was a cold night.")
    (ScriptMode.setParams
       {| ScriptParams.topic := js "D. B. Cooper";
          ScriptParams.channelName := js "Cold Files";
          ScriptParams.wordCount := of_Z 600;
          ScriptParams.tone := js "True Crime" |}
       ScriptMode.initial).

Definition filed : SavedScript.t :=
  {| SavedScript.id := js "1690000000000";
     SavedScript.title := js "The Zodiac letters";
     SavedScript.channel := js "Cold Files";
     SavedScript.content := js "**Narrator:** The first letter came in July.";
     SavedScript.timestamp := 1690000000000 |}.

Definition photo : jsstring := js "https://example.org/cooper.jpg".

End Examples.

(** * Properties *)

(** ** Strings *)

Section StringFacts.

Lemma starts_with_spec (s p : jsstring) :
  starts_with s p = true <-> exists r, s = p ++ r.
Proof.
  revert s; induction p as [|c p IH]; intros s.
  - destruct s; simpl; split; eauto.
  - destruct s as [|d s]; simpl.
    + split; [done | intros [r Hr]; discriminate].
    + rewrite andb_true_iff, N.eqb_eq, IH. split.
      * intros [-> [r ->]]. eauto.
      * intros [r Hr]. injection Hr as -> ->. eauto.
Qed.

Lemma includes_spec (s needle : jsstring) :
  includes s needle = true <-> contains s needle.
Proof.
  unfold contains. induction s as [|c s IH].
  - cbn [includes]. rewrite orb_false_r, starts_with_spec. split.
    + intros [r Hr]. exists [], r. done.
    + intros (a & b & H). symmetry in H.
      apply app_eq_nil in H as [-> H]. exists b. done.
  - cbn [includes]. rewrite orb_true_iff, starts_with_spec, IH. split.
    + intros [[r Hr] | (a & b & Hab)].
      * exists [], r. done.
      * exists (c :: a), b. rewrite Hab. done.
    + intros (a & b & H). destruct a as [|c' a].
      * left. exists b. done.
      * right. injection H as -> ->. eauto.
Qed.

Lemma includes_false (s needle : jsstring) :
  includes s needle = false <-> ~ contains s needle.
Proof.
  rewrite <- includes_spec. destruct (includes s needle); intuition congruence.
Qed.

Lemma or_str_nonempty (o : option jsstring) (d : jsstring) :
  d <> [] -> or_str o d <> [].
Proof.
  intros Hd. destruct o as [[|c s]|]; simpl; done.
Qed.

Lemma or_str_falsy (o : option jsstring) (d : jsstring) :
  truthy_opt o = false -> or_str o d = d.
Proof. destruct o as [[|c s]|]; simpl; done. Qed.

End StringFacts.

(** ** The dispatcher *)

Module GeminiFacts.
Import Gemini.

Section Dispatch.

Variable generateContent : Request -> outcome GenerateContentResponse.
Variable currentDate : jsstring.
Variable query : jsstring.
Variables visualData visualMimeType : option jsstring.
Variable activeNode : BotMode.

Let request (model : jsstring) : Request :=
  request_for currentDate query visualData visualMimeType activeNode model.

Let dispatch : Async WebResponse :=
  queryWebNetwork generateContent currentDate query visualData
    visualMimeType activeNode.


Lemma primary_answers response log :
  generateContent (request CORE_PROTOCOL) = Resolved response ->
  dispatch log = (Resolved (packaged response), log ++ [request CORE_PROTOCOL]).
Proof.
  intros H. unfold dispatch, queryWebNetwork, try_catch, executeRequest, bind,
    await_generateContent.
  fold (request CORE_PROTOCOL). rewrite H. reflexivity.
Qed.

Lemma primary_fails_other e log :
  generateContent (request CORE_PROTOCOL) = Rejected e ->
  isTrafficError e = false ->
  dispatch log =
    (Resolved {| text := CONNECTION_ERROR; groundingChunks := Some [] |},
     log ++ [request CORE_PROTOCOL]).
Proof.
  intros H Ht. unfold dispatch, queryWebNetwork, try_catch, executeRequest,
    bind, await_generateContent.
  fold (request CORE_PROTOCOL). rewrite H, Ht. reflexivity.
Qed.

Lemma backup_answers e response log :
  generateContent (request CORE_PROTOCOL) = Rejected e ->
  isTrafficError e = true ->
  generateContent (request BACKUP_PROTOCOL) = Resolved response ->
  dispatch log =
    (Resolved {| text := text (packaged response) ++ BACKUP_MARKER;
                 groundingChunks := groundingChunks (packaged response) |},
     log ++ [request CORE_PROTOCOL; request BACKUP_PROTOCOL]).
Proof.
  intros H Ht Hb. unfold dispatch, queryWebNetwork, try_catch, executeRequest,
    bind, await_generateContent.
  fold (request CORE_PROTOCOL). rewrite H, Ht.
  fold (request BACKUP_PROTOCOL). rewrite Hb. cbn.
  by rewrite <- app_assoc.
Qed.

Lemma backup_fails e e' log :
  generateContent (request CORE_PROTOCOL) = Rejected e ->
  isTrafficError e = true ->
  generateContent (request BACKUP_PROTOCOL) = Rejected e' ->
  dispatch log =
    (Resolved {| text := SYSTEM_OVERLOAD; groundingChunks := Some [] |},
     log ++ [request CORE_PROTOCOL; request BACKUP_PROTOCOL]).
Proof.
  intros H Ht Hb. unfold dispatch, queryWebNetwork, try_catch, executeRequest,
    bind, await_generateContent.
  fold (request CORE_PROTOCOL). rewrite H, Ht.
  fold (request BACKUP_PROTOCOL). rewrite Hb. cbn.
  by rewrite <- app_assoc.
Qed.

Lemma packaged_nonempty response : text (packaged response) <> [].
Proof. apply or_str_nonempty. done. Qed.

End Dispatch.

End GeminiFacts.

Module DispatcherSpec.
Import Gemini GeminiFacts.



Section Claims.

Variable generateContent : Request -> outcome GenerateContentResponse.
Variable currentDate : jsstring.
Variable query : jsstring.
Variables visualData visualMimeType : option jsstring.
Variable activeNode : BotMode.

Let request (model : jsstring) : Request :=
  request_for currentDate query visualData visualMimeType activeNode model.

Let dispatch : Async WebResponse :=
  queryWebNetwork generateContent currentDate query visualData
    visualMimeType activeNode.

(** C1: whatever the query, the inline data, the mode and the answers of
    the service, [queryWebNetwork] resolves, and the text of its response is
    not empty; a missing or empty text of the service is replaced by
    [NO_DATA_RECEIVED_FROM_VIOLEN] (to which the backup marker is appended
    when the answer came from the backup tier). *)
Theorem queryWebNetwork_resolves_with_text (log : list Request) :
  exists r log',
    dispatch log = (Resolved r, log')
    /\ text r <> []
    /\ (forall response,
          generateContent (request CORE_PROTOCOL) = Resolved response ->
          truthy_opt (response_text response) = false ->
          text r = NO_DATA)
    /\ (forall e response,
          generateContent (request CORE_PROTOCOL) = Rejected e ->
          isTrafficError e = true ->
          generateContent (request BACKUP_PROTOCOL) = Resolved response ->
          truthy_opt (response_text response) = false ->
          text r = NO_DATA ++ BACKUP_MARKER).
Proof.
  destruct (generateContent (request CORE_PROTOCOL)) as [resp | e] eqn:Hcore.
  - eexists _, _. split; [by apply primary_answers |].
    split; [apply packaged_nonempty |]. split.
    + intros response [= <-] Hfalsy. cbn. by apply or_str_falsy.
    + intros e response [=].
  - destruct (isTrafficError e) eqn:Htraffic.
    + destruct (generateContent (request BACKUP_PROTOCOL))
        as [resp | e'] eqn:Hbackup.
      * eexists _, _. split; [by eapply backup_answers |].
        split; [|split].
        -- cbn. intros H. apply app_eq_nil in H as [_ H]. discriminate H.
        -- intros response [=].
        -- intros e0 response _ _ [= <-] Hfalsy. cbn.
           by rewrite or_str_falsy.
      * eexists _, _. split; [by eapply backup_fails |].
        split; [done |]. split.
        -- intros response [=].
        -- intros e0 response _ _ [=].
    + eexists _, _. split; [by eapply primary_fails_other |].
      split; [done |]. split.
      * intros response [=].
      * intros e0 response [= <-]. congruence.
Qed.

(** C2: when the primary attempt fails without an overload signal, the
    backup tier is not called (the one request sent is the primary one, to
    another model than the backup's) and the response is the
    connection-error sentinel with no citations; when it fails with an overload signal and the
    backup attempt fails too, the response is the system-overload sentinel
    with no citations. *)
Theorem primary_failure_sentinels (e : JsError) (log : list Request) :
  generateContent (request CORE_PROTOCOL) = Rejected e ->
  (isTrafficError e = false ->
   dispatch log =
     (Resolved {| text := CONNECTION_ERROR; groundingChunks := Some [] |},
      log ++ [request CORE_PROTOCOL])
   /\ model (request CORE_PROTOCOL) <> BACKUP_PROTOCOL)
  /\ (isTrafficError e = true ->
      forall e', generateContent (request BACKUP_PROTOCOL) = Rejected e' ->
      dispatch log =
        (Resolved {| text := SYSTEM_OVERLOAD; groundingChunks := Some [] |},
         log ++ [request CORE_PROTOCOL; request BACKUP_PROTOCOL])).
Proof.
  intros Hcore. split.
  - intros Hother. split; [by eapply primary_fails_other |]. discriminate.
  - intros Htraffic e' Hbackup. by eapply backup_fails.
Qed.



End Claims.

Section Transcription.

Variable generateContent : Request -> outcome GenerateContentResponse.
Variables videoBase64 mimeType : jsstring.

Let request : Request := transcribe_request videoBase64 mimeType.


End Transcription.

Import Examples.

Lemma queryWebNetwork_resolves_with_text_witness :
  exists r log',
    queryWebNetwork (always (Resolved no_text)) today question None None
      surfer [] = (Resolved r, log')
    /\ text r = NO_DATA.
Proof.
  destruct (queryWebNetwork_resolves_with_text (always (Resolved no_text))
              today question None None surfer [])
    as (r & log' & Hrun & _ & Hprimary & _).
  exists r, log'. split; [exact Hrun |].
  apply (Hprimary no_text); reflexivity.
Defined.

Lemma primary_failure_sentinels_witness :
  queryWebNetwork (primary_down offline (Resolved no_text)) today question
    None None surfer []
  = (Resolved {| text := CONNECTION_ERROR; groundingChunks := Some [] |},
     [request_for today question None None surfer CORE_PROTOCOL])
  /\ fst (queryWebNetwork (primary_down rate_limited (Rejected rate_limited))
            today question None None surfer [])
     = Resolved {| text := SYSTEM_OVERLOAD; groundingChunks := Some [] |}.
Proof.
  split.
  - apply (primary_failure_sentinels
             (primary_down offline (Resolved no_text)) today question None
             None surfer offline []); reflexivity.
  - rewrite (proj2 (primary_failure_sentinels
                      (primary_down rate_limited (Rejected rate_limited))
                      today question None None surfer rate_limited []
                      eq_refl) eq_refl rate_limited eq_refl).
    reflexivity.
Defined.




End DispatcherSpec.

(** ** Media validation *)

Module MediaSpec.

Section Video.
Import YouTubeEmbed.

Variable encodeURIComponent : jsstring -> jsstring.

Lemma take_id_length (s id : jsstring) :
  take_id s = Some id -> length id = 11.
Proof.
  unfold take_id. intros H.
  destruct (length (take 11 s) =? 11)%nat eqn:Hlen; [|done].
  destruct (forallb is_id_char (take 11 s)); [|done].
  injection H as <-. by apply Nat.eqb_eq.
Qed.

Lemma after_nonspace_length (s id : jsstring) :
  after_nonspace s = Some id -> length id = 11.
Proof.
  induction s as [|c s IH]; [done |]. cbn [after_nonspace].
  destruct (is_white_space c).
  - apply take_id_length.
  - destruct (after_nonspace s) as [id'|].
    + intros [= <-]. by apply IH.
    + apply take_id_length.
Qed.

Lemma after_literal_length lit k (s id : jsstring) :
  (forall r, k r = Some id -> length id = 11) ->
  after_literal lit k s = Some id -> length id = 11.
Proof.
  unfold after_literal. intros Hk. destruct (starts_with s lit); [|done].
  apply Hk.
Qed.

Lemma orelse_length (a b : option jsstring) (id : jsstring) :
  (a = Some id -> length id = 11) ->
  (b = Some id -> length id = 11) ->
  orelse a b = Some id -> length id = 11.
Proof. destruct a; simpl; intros Ha Hb H; auto. Qed.

Lemma match_here_length (s id : jsstring) :
  match_here s = Some id -> length id = 11.
Proof.
  unfold match_here.
  repeat first
    [ apply orelse_length
    | apply after_literal_length; intros ?
    | apply take_id_length ].
  unfold user_path. destruct r0 as [|c r']; [done |].
  destruct (is_white_space c); [done |]. apply after_nonspace_length.
Qed.

Lemma getVideoId_length (url id : jsstring) :
  getVideoId url = Some id -> length id = 11.
Proof.
  unfold getVideoId. destruct (truthy_str url); [|done].
  induction url as [|c url IH]; cbn [search].
  - destruct (match_here []) eqn:H; [|done].
    intros [= <-]. by eapply match_here_length.
  - destruct (match_here (c :: url)) eqn:H.
    + intros [= <-]. by eapply match_here_length.
    + apply IH.
Qed.


Lemma run_never_valid (url : jsstring) (st st' : State) (evs : list Event) :
  run url st evs st' ->
  Forall placeholder evs ->
  isValid st <> Some true ->
  isValid st' <> Some true.
Proof.
  induction 1 as [st | st ev st1 evs st2 Hstep _ IH]; [done |].
  intros Hevs Hst. apply Forall_cons in Hevs as [Hev Hevs].
  apply IH; [done |]. destruct Hstep; cbn; try done.
  cbn in Hev. apply N.ltb_ge in Hev. by rewrite Hev.
Qed.

(** C7: for a link from which [getVideoId] extracts an identifier (which
    has 11 characters), the effect creates one probe, of the thumbnail
    [https://i.ytimg.com/vi/<id>/hqdefault.jpg], and the component shows that
    it is verifying. Once that thumbnail has loaded at most 120 pixels wide,
    the component is in its error state with nothing left to wait for and
    shows the restricted card, whose link is
    [https://www.youtube.com/results?search_query=] followed by the encoded
    title of the link, or by the encoded text [related video] when the title
    is no string. In no state of a run in which every thumbnail that loads
    is at most 120 pixels wide does it show the embedded player.

    [encodeURIComponent] is the function of the platform, taken as total:
    it throws on a text with a lone surrogate, and the theorem says nothing
    of a title that has one. *)
Theorem placeholder_thumbnail_restricts (url videoId : jsstring)
  (title : ReactNode) (width : N) :
  getVideoId url = Some videoId ->
  (width <= 120)%N ->
  length videoId = 11
  /\ (forall st,
        run url initial [Effect] st ->
        isValid st = None
        /\ pending st
           = [js "https://i.ytimg.com/vi/" ++ videoId ++ js "/hqdefault.jpg"]
        /\ render encodeURIComponent url title st = Verifying)
  /\ (exists st, run url initial [Effect; OnLoad width] st)
  /\ (forall st,
        run url initial [Effect; OnLoad width] st ->
        isValid st = Some false
        /\ pending st = []
        /\ render encodeURIComponent url title st
           = VideoRestricted
               (js "https://www.youtube.com/results?search_query="
                ++ encodeURIComponent
                     match title with
                     | node_string s => s
                     | node_element => js "related video"
                     end))
  /\ (forall evs st,
        run url initial evs st ->
        Forall (fun ev => forall w, ev = OnLoad w -> (w <= 120)%N) evs ->
        forall src, render encodeURIComponent url title st <> Player src).
Proof.
  intros Hid Hwidth. split; [by eapply getVideoId_length |].
  split; [|split; [|split]].
  - intros st Hrun.
    inversion Hrun as [|? ? st1 ? ? Heffect Hrun1]; subst.
    inversion Hrun1; subst.
    inversion Heffect as [? Hnone | ? id Hsome | |]; subst; [congruence |].
    assert (id = videoId) as -> by congruence.
    cbn [isValid pending initial app]. split; [done |]. split; [done |].
    unfold render. by rewrite Hid.
  - eexists. eapply run_cons; [by eapply step_effect_probe |].
    eapply run_cons; [by eapply step_onload | apply run_nil].
  - intros st Hrun.
    inversion Hrun as [|? ? st1 ? ? Heffect Hrun1]; subst.
    inversion Hrun1 as [|? ? st2 ? ? Hload Hrun2]; subst.
    inversion Hrun2; subst.
    inversion Heffect as [? Hnone | ? id Hsome | |]; subst; [congruence |].
    inversion Hload as [| | ? img rest ? Hpending |]; subst.
    cbn in Hpending. injection Hpending as <- <-.
    apply N.ltb_ge in Hwidth. rewrite Hwidth. cbn [isValid pending].
    split; [done |]. split; [done |].
    unfold render. rewrite Hid. cbn [isValid]. by destruct title.
  - intros evs st Hrun Hevs src. unfold render. rewrite Hid.
    assert (Forall placeholder evs) as Hplaceholder.
    { eapply Forall_impl; [exact Hevs |]. intros [| w |] Hev; cbn; [done | | done].
      by apply Hev. }
    pose proof (run_never_valid _ _ _ _ Hrun Hplaceholder) as Hnever.
    destruct (isValid st) as [[|]|]; try done.
    by destruct Hnever.
Qed.

End Video.

Section Images.

Variable encodeURIComponent : jsstring -> jsstring.

Lemma wrapper_is_truthy (s : jsstring) :
  is_wiki_wrapper s = true -> truthy_str s = true.
Proof. by destruct s. Qed.

Lemma wrapper_step (s : jsstring) (st st' : ImageProbe.State)
  (ev : ImageProbe.Event) :
  is_wiki_wrapper s = true ->
  ImageProbe.step (Some s) st ev st' ->
  ImageProbe.probes st = [] ->
  ImageProbe.probes st' = [] /\ ImageProbe.status st' = error.
Proof.
  intros Hwiki Hstep Hnone.
  destruct Hstep as [st Hfalsy | st s' Hs _ _ | st s' Hs _ Hdirect
                    | st img rest Hp | st img rest Hp]; cbn.
  - done.
  - done.
  - injection Hs as <-. congruence.
  - congruence.
  - congruence.
Qed.

Lemma wrapper_run (s : jsstring) (st st' : ImageProbe.State)
  (evs : list ImageProbe.Event) :
  is_wiki_wrapper s = true ->
  ImageProbe.run (Some s) st evs st' ->
  ImageProbe.probes st = [] ->
  ImageProbe.probes st' = []
  /\ (evs = [] -> st' = st)
  /\ (evs <> [] -> ImageProbe.status st' = error).
Proof.
  intros Hwiki. induction 1 as [st | st ev st1 evs st2 Hstep Hrun IH].
  - intros Hnone. by repeat split.
  - intros Hnone.
    destruct (wrapper_step _ _ _ _ Hwiki Hstep Hnone) as [Hnone1 Herr].
    destruct (IH Hnone1) as (Hnone2 & Hsame & Herr2).
    split; [done |]. split; [done |]. intros _.
    destruct evs as [|ev' evs]; [|by apply Herr2].
    by rewrite (Hsame eq_refl).
Qed.

(** C6, as the code has it: for a URL that contains [wiki/File:] or
    [wiki/Image:], neither image component ever creates an image to load it
    or shows an image element; the image of a chat message shows the link
    card to the source page in every state, and the image of a script shows
    no card: the loading placeholder until its effect has run, and nothing
    from then on. *)
Theorem wrapper_page_never_loaded (s : jsstring) (alt : option jsstring)
  (evs : list ImageProbe.Event) (st : ImageProbe.State) :
  is_wiki_wrapper s = true ->
  ImageProbe.run (Some s) ImageProbe.initial evs st ->
  ImageProbe.probes st = []
  /\ MarkdownImage.render encodeURIComponent (Some s) alt st
     = LinkCard s (or_str alt (js "Wikipedia Image"))
  /\ (evs = [] ->
      ScriptImage.render (Some s) alt st = LoadingPlaceholder)
  /\ (evs <> [] -> ScriptImage.render (Some s) alt st = NoElement).
Proof.
  intros Hwiki Hrun.
  pose proof (wrapper_is_truthy _ Hwiki) as Htruthy.
  destruct (wrapper_run _ _ _ _ Hwiki Hrun eq_refl) as (Hnone & Hsame & Herr).
  split; [done |]. split; [|split].
  - unfold MarkdownImage.render. by rewrite Htruthy, Hwiki.
  - intros Hevs. rewrite (Hsame Hevs). unfold ScriptImage.render.
    by rewrite Htruthy.
  - intros Hevs. unfold ScriptImage.render. by rewrite (Herr Hevs).
Qed.

End Images.

Import Examples.

Lemma placeholder_thumbnail_restricts_witness :
  exists st,
    YouTubeEmbed.run watch_link YouTubeEmbed.initial
      [YouTubeEmbed.Effect; YouTubeEmbed.OnLoad 120] st
    /\ YouTubeEmbed.isValid st = Some false
    /\ YouTubeEmbed.render no_encoding watch_link node_element st
       = YouTubeEmbed.VideoRestricted
           (js "https://www.youtube.com/results?search_query="
            ++ js "related video").
Proof.
  destruct (placeholder_thumbnail_restricts no_encoding watch_link
              (js "dQw4w9WgXcQ") node_element 120 eq_refl)
    as (_ & _ & [st Hrun] & Hfinal & _).
  - vm_compute. discriminate.
  - exists st. split; [exact Hrun |].
    destruct (Hfinal st Hrun) as (Hvalid & _ & Hrender).
    split; [exact Hvalid | exact Hrender].
Defined.

Lemma wrapper_page_never_loaded_witness :
  MarkdownImage.render no_encoding (Some wiki_page) None
    {| ImageProbe.status := error; ImageProbe.probes := [] |}
  = LinkCard wiki_page (js "Wikipedia Image").
Proof.
  apply (wrapper_page_never_loaded no_encoding wiki_page None
           [ImageProbe.Effect]).
  - reflexivity.
  - eapply ImageProbe.run_cons; [|apply ImageProbe.run_nil].
    apply (ImageProbe.step_effect_wrapper (Some wiki_page)
             ImageProbe.initial wiki_page); reflexivity.
Defined.

(** C6 as the specification states it fails for the image of a script: on
    a wrapper-page URL it comes to show nothing, not the link card. *)
Lemma script_image_shows_no_link_card :
  ~ (forall (s : jsstring) (alt : option jsstring)
            (evs : list ImageProbe.Event) (st : ImageProbe.State),
       is_wiki_wrapper s = true ->
       ImageProbe.run (Some s) ImageProbe.initial evs st ->
       exists caption, ScriptImage.render (Some s) alt st = LinkCard s caption).
Proof.
  intros Hclaim.
  destruct (Hclaim wiki_page None [ImageProbe.Effect]
              {| ImageProbe.status := error; ImageProbe.probes := [] |})
    as [caption Hcard].
  - reflexivity.
  - eapply ImageProbe.run_cons; [|apply ImageProbe.run_nil].
    apply (ImageProbe.step_effect_wrapper (Some wiki_page)
             ImageProbe.initial wiki_page); reflexivity.
  - discriminate Hcard.
Qed.

End MediaSpec.

(** ** Directive extraction *)

Module DirectiveSpec.
Import ScriptMode.

Lemma split_on_no_sep (sep : N) (l : jsstring) :
  sep ∉ l -> split_on sep l = [l].
Proof.
  induction l as [|c l IH]; [done |]. intros Hsep.
  apply not_elem_of_cons in Hsep as [Hc Hl]. cbn [split_on].
  destruct (N.eqb_spec c sep) as [-> | _]; [done |]. by rewrite IH.
Qed.

Lemma split_on_app (sep : N) (l rest : jsstring) :
  sep ∉ l -> split_on sep (l ++ sep :: rest) = l :: split_on sep rest.
Proof.
  induction l as [|c l IH]; intros Hsep.
  - cbn [app split_on]. by rewrite N.eqb_refl.
  - apply not_elem_of_cons in Hsep as [Hc Hl]. cbn [app split_on].
    destruct (N.eqb_spec c sep) as [-> | _]; [done |]. by rewrite IH.
Qed.

Lemma split_on_join (sep : N) (ls : list jsstring) :
  ls <> [] ->
  Forall (fun l => sep ∉ l) ls ->
  split_on sep (join [sep] ls) = ls.
Proof.
  induction ls as [|l ls IH]; [done |]. intros _ Hall.
  apply Forall_cons in Hall as [Hl Hls]. destruct ls as [|l' ls].
  - by apply split_on_no_sep.
  - change (join [sep] (l :: l' :: ls))
      with (l ++ sep :: join [sep] (l' :: ls)).
    rewrite split_on_app by done. by rewrite IH.
Qed.

(** Each line of a text is a piece of it, the first one its beginning. *)
Lemma split_on_pieces (sep : N) (s : jsstring) :
  (exists l ls rest, split_on sep s = l :: ls /\ s = l ++ rest)
  /\ (forall l, l ∈ split_on sep s -> contains s l).
Proof.
  induction s as [|c s [(l0 & ls & rest & Hsplit & Hs) IH]].
  - split.
    + by exists [], [], [].
    + intros l Hl. apply list_elem_of_singleton in Hl as ->.
      by exists [], [].
  - cbn [split_on]. destruct (c =? sep)%N.
    + split.
      * exists [], (split_on sep s), (c :: s). done.
      * intros l Hl. apply elem_of_cons in Hl as [-> | Hl].
        -- by exists [], (c :: s).
        -- destruct (IH l Hl) as (a & b & ->). by exists (c :: a), b.
    + rewrite Hsplit. split.
      * exists (c :: l0), ls, rest. by rewrite Hs.
      * intros l Hl. apply elem_of_cons in Hl as [-> | Hl].
        -- exists [], rest. by rewrite Hs.
        -- destruct (IH l) as (a & b & ->).
           { rewrite Hsplit. by apply list_elem_of_further. }
           by exists (c :: a), b.
Qed.

Lemma contains_trans (s l needle : jsstring) :
  contains s l -> contains l needle -> contains s needle.
Proof.
  intros (a & b & ->) (a' & b' & ->). exists (a ++ a'), (b' ++ b).
  by rewrite <- !app_assoc.
Qed.

Lemma scan_line_other (found : list jsstring) (line : jsstring) :
  ~ contains line SUGGESTION -> scan_line found line = found.
Proof.
  intros H. apply includes_false in H. unfold scan_line. by rewrite H.
Qed.

Lemma scan_lines_other (found : list jsstring) (lines : list jsstring) :
  Forall (fun l => ~ contains l SUGGESTION) lines ->
  fold_left scan_line lines found = found.
Proof.
  induction 1 as [|l ls Hl _ IH]; [done |]. cbn [fold_left].
  by rewrite scan_line_other.
Qed.


Lemma scan_line_suggestion (found : list jsstring) (X : jsstring) :
  scan_line found (suggestion_line X)
  = if truthy_str (trim X) then found ++ [trim X] else found.
Proof.
  unfold scan_line.
  assert (includes (suggestion_line X) SUGGESTION = true) as ->.
  { apply includes_spec. by exists [], (32%N :: X). }
  reflexivity.
Qed.

Lemma parseSuggestions_fold (text : jsstring) :
  parseSuggestions text = fold_left scan_line (split_on LF text) [].
Proof. by destruct text. Qed.

(** C5, as the code has it: on a text with three lines of the form
    [> SUGGESTION: X] and no other occurrence of the marker, the titles
    returned are the trimmed titles of these lines that are not blank, in
    the order of the lines (all three when none is blank); on a text where
    the marker does not occur the result is the empty list. *)
Theorem suggestions_in_source_order
  (before between1 between2 after : list jsstring) (X1 X2 X3 : jsstring) :
  let lines :=
    before ++ [suggestion_line X1] ++ between1 ++ [suggestion_line X2]
    ++ between2 ++ [suggestion_line X3] ++ after in
  Forall (fun l => LF ∉ l) lines ->
  Forall (fun l => ~ contains l SUGGESTION)
    (before ++ between1 ++ between2 ++ after) ->
  parseSuggestions (join [LF] lines)
    = List.filter truthy_str [trim X1; trim X2; trim X3]
  /\ (trim X1 <> [] -> trim X2 <> [] -> trim X3 <> [] ->
      parseSuggestions (join [LF] lines) = [trim X1; trim X2; trim X3])
  /\ (forall text,
        ~ contains text SUGGESTION -> parseSuggestions text = []).
Proof.
  intros lines Hlf Hother.
  assert (parseSuggestions (join [LF] lines)
          = List.filter truthy_str [trim X1; trim X2; trim X3]) as Hrun.
  { rewrite parseSuggestions_fold, split_on_join; [|by destruct before|done].
    rewrite !Forall_app in Hother. destruct Hother as (Hb & H1 & H2 & Ha).
    unfold lines. rewrite !fold_left_app. cbn [fold_left].
    rewrite (scan_lines_other _ before) by done.
    rewrite scan_line_suggestion.
    rewrite (scan_lines_other _ between1) by done.
    rewrite scan_line_suggestion.
    rewrite (scan_lines_other _ between2) by done.
    rewrite scan_line_suggestion.
    rewrite (scan_lines_other _ after) by done.
    cbn [List.filter].
    by destruct (truthy_str (trim X1)), (truthy_str (trim X2)),
      (truthy_str (trim X3)). }
  split; [exact Hrun |]. split.
  - intros H1 H2 H3. rewrite Hrun. cbn [List.filter].
    destruct (trim X1), (trim X2), (trim X3); done.
  - intros text Hnone. rewrite parseSuggestions_fold.
    apply scan_lines_other, Forall_forall. intros l Hl Hmarker.
    apply Hnone. eapply contains_trans; [|exact Hmarker].
    by apply (proj2 (split_on_pieces LF text)).
Qed.

Import Examples.

Lemma suggestions_in_source_order_witness :
  parseSuggestions
    (join [LF] [js "Intro."; suggestion_line (js " Flight 19 ");
                suggestion_line (js "DB Cooper");
                suggestion_line (js "The Zodiac letters")])
  = [js "Flight 19"; js "DB Cooper"; js "The Zodiac letters"].
Proof.
  apply (suggestions_in_source_order [js "Intro."] [] [] []
           (js " Flight 19 ") (js "DB Cooper") (js "The Zodiac letters")).
  - apply (bool_decide_unpack _). vm_compute. exact I.
  - apply Forall_cons. split; [|by apply Forall_nil].
    apply includes_false. reflexivity.
  - vm_compute. discriminate.
  - vm_compute. discriminate.
  - vm_compute. discriminate.
Defined.

(** C5 as the specification states it fails when a title is blank: the
    line is skipped, and fewer than three titles come back. *)
Lemma blank_suggestion_is_skipped :
  ~ (forall X1 X2 X3 : jsstring,
       LF ∉ X1 -> LF ∉ X2 -> LF ∉ X3 ->
       parseSuggestions
         (join [LF] [suggestion_line X1; suggestion_line X2;
                     suggestion_line X3])
       = [trim X1; trim X2; trim X3]).
Proof.
  intros Hclaim.
  assert (forall t : jsstring, bool_decide (LF ∉ t) = true -> LF ∉ t)
    as Hfree by (intros t; apply bool_decide_eq_true_1).
  specialize (Hclaim [] (js "The Zodiac letters") (js "Flight 19")
                (Hfree [] eq_refl)
                (Hfree (js "The Zodiac letters") eq_refl)
                (Hfree (js "Flight 19") eq_refl)).
  vm_compute in Hclaim. discriminate Hclaim.
Qed.

End DirectiveSpec.

(** ** Footage search *)

Module FootageSpec.
Import Gemini.

Lemma from_first_open_some (text s : jsstring) :
  from_first_open text = Some s ->
  exists before rest,
    text = before ++ s /\ s = OPEN_BRACKET :: rest /\ OPEN_BRACKET ∉ before.
Proof.
  revert s. induction text as [|c text IH]; intros s; [done |].
  cbn [from_first_open]. destruct (N.eqb_spec c OPEN_BRACKET) as [-> | Hc].
  - intros [= <-]. exists [], text. split; [done |]. split; [done |].
    apply not_elem_of_nil.
  - intros H. destruct (IH s H) as (before & rest & -> & -> & Hbefore).
    exists (c :: before), rest. split; [done |]. split; [done |].
    apply not_elem_of_cons. split; [congruence | done].
Qed.

Lemma from_first_open_none (text : jsstring) :
  from_first_open text = None -> OPEN_BRACKET ∉ text.
Proof.
  induction text as [|c text IH]; [intros _; apply not_elem_of_nil |].
  cbn [from_first_open]. destruct (N.eqb_spec c OPEN_BRACKET) as [-> | Hc].
  - done.
  - intros H. apply not_elem_of_cons. split; [congruence | by apply IH].
Qed.

Lemma not_elem_of_rev (c : N) (s : jsstring) : c ∉ s -> c ∉ rev s.
Proof. by rewrite !list_elem_of_In, <- in_rev. Qed.

Lemma drop_until_close_spec (s : jsstring) :
  exists skipped,
    s = skipped ++ drop_until_close s
    /\ (CLOSE_BRACKET ∉ skipped)
    /\ (drop_until_close s = []
        \/ exists r, drop_until_close s = CLOSE_BRACKET :: r).
Proof.
  induction s as [|c s (skipped & Hs & Hskipped & Hrest)].
  - exists []. split; [done |]. split; [apply not_elem_of_nil | by left].
  - cbn [drop_until_close].
    destruct (N.eqb_spec c CLOSE_BRACKET) as [-> | Hc].
    + exists []. split; [done |]. split; [apply not_elem_of_nil |].
      right. by eexists.
    + exists (c :: skipped). split; [by rewrite Hs at 1 |].
      split; [|done]. apply not_elem_of_cons. split; [congruence | done].
Qed.

Lemma upto_last_close_some (s m : jsstring) :
  upto_last_close s = Some m ->
  exists body after,
    s = m ++ after /\ m = body ++ [CLOSE_BRACKET] /\ CLOSE_BRACKET ∉ after.
Proof.
  unfold upto_last_close.
  destruct (drop_until_close_spec (rev s))
    as (skipped & Hs & Hskipped & [Hnil | [r Hr]]).
  - by rewrite Hnil.
  - rewrite Hr in *. intros [= <-]. exists (rev r), (rev skipped).
    split; [|split].
    + rewrite <- (rev_involutive s), Hs, rev_app_distr. done.
    + done.
    + by apply not_elem_of_rev.
Qed.

Lemma upto_last_close_none (s : jsstring) :
  upto_last_close s = None -> CLOSE_BRACKET ∉ s.
Proof.
  unfold upto_last_close.
  destruct (drop_until_close_spec (rev s))
    as (skipped & Hs & Hskipped & [Hnil | [r Hr]]).
  - intros _. rewrite Hnil, app_nil_r in Hs.
    rewrite <- (rev_involutive s), Hs. by apply not_elem_of_rev.
  - by rewrite Hr.
Qed.

(** What [json_match] finds is the piece of the text from its first ['[']
    to its last [']']. *)
Lemma json_match_some (text m : jsstring) :
  json_match text = Some m ->
  exists before inner after,
    text = before ++ m ++ after
    /\ m = OPEN_BRACKET :: inner ++ [CLOSE_BRACKET]
    /\ (OPEN_BRACKET ∉ before)
    /\ (CLOSE_BRACKET ∉ after).
Proof.
  unfold json_match. destruct (from_first_open text) as [s|] eqn:Hopen; [|done].
  intros Hclose.
  destruct (from_first_open_some _ _ Hopen) as (before & rest & -> & -> & Hb).
  destruct (upto_last_close_some _ _ Hclose) as (body & after & Hs & -> & Ha).
  destruct body as [|c body].
  - discriminate Hs.
  - injection Hs as <- Hrest. exists before, body, after. by rewrite Hrest.
Qed.

Lemma json_match_none (text : jsstring) :
  json_match text = None ->
  ~ exists before inner after,
      text = before ++ OPEN_BRACKET :: inner ++ CLOSE_BRACKET :: after.
Proof.
  unfold json_match. intros Hnone (before & inner & after & Htext).
  destruct (from_first_open text) as [s|] eqn:Hopen.
  - destruct (from_first_open_some _ _ Hopen) as (b & rest & Hb & -> & Hfirst).
    apply upto_last_close_none in Hnone. apply Hnone.
    rewrite Htext in Hb.
    apply app_eq_inv in Hb as [(k & -> & Hk) | (k & -> & Hk)].
    + rewrite Hk. set_solver.
    + destruct k as [|c k].
      * rewrite app_nil_l in Hk. rewrite <- Hk. set_solver.
      * injection Hk as <- _. set_solver.
  - apply from_first_open_none in Hopen. apply Hopen. rewrite Htext.
    set_solver.
Qed.


Lemma get_field_some (v : value) (k : jsstring) :
  ~ nullish v -> exists f, get_field v k = Some f.
Proof.
  unfold nullish. destruct v; cbn; intros H; eauto; destruct H; auto.
Qed.

Lemma to_stock_video_coerced (query : jsstring) (item : value)
  (video : StockVideo.t) :
  to_stock_video query item = Some video -> coerced query item video.
Proof.
  unfold to_stock_video, coerced, or_else.
  destruct (get_field item (js "title")) as [t|]; [|done].
  destruct (get_field item (js "url")) as [u|]; [|done].
  destruct (get_field item (js "source")) as [s|]; [|done].
  intros [= <-]. by exists t, u, s.
Qed.

Lemma map_stock_videos_some (query : jsstring) (items : list value) :
  Forall (fun item => ~ nullish item) items ->
  exists videos,
    map_stock_videos query items = Some videos
    /\ Forall2 (coerced query) items videos.
Proof.
  induction 1 as [|item items Hitem _ (videos & Hmap & Hall)].
  - exists []. by split.
  - cbn [map_stock_videos].
    destruct (to_stock_video query item) as [video|] eqn:Hvideo.
    + rewrite Hmap. exists (video :: videos). split; [done |].
      constructor; [by apply to_stock_video_coerced | done].
    + unfold to_stock_video in Hvideo.
      destruct (get_field_some item (js "title") Hitem) as [t Ht].
      destruct (get_field_some item (js "url") Hitem) as [u Hu].
      destruct (get_field_some item (js "source") Hitem) as [s Hs].
      by rewrite Ht, Hu, Hs in Hvideo.
Qed.

Lemma map_stock_videos_none (query : jsstring) (items : list value) :
  Exists nullish items -> map_stock_videos query items = None.
Proof.
  induction 1 as [item items [-> | ->] | item items _ IH]; cbn; try done.
  destruct (to_stock_video query item); [|done]. by rewrite IH.
Qed.

Lemma default_defined (v d : value) :
  d <> VUndefined -> (if truthy v then v else d) <> VUndefined.
Proof.
  intros Hd. destruct (truthy v) eqn:Hv; [|done]. intros ->. discriminate Hv.
Qed.

Lemma coerced_defined (query : jsstring) (item : value)
  (video : StockVideo.t) :
  coerced query item video ->
  StockVideo.title video <> VUndefined
  /\ StockVideo.url video <> VUndefined
  /\ StockVideo.source video <> VUndefined.
Proof.
  intros (t & u & s & _ & _ & _ & -> & -> & ->).
  repeat split; by apply default_defined.
Qed.

Lemma parse_value_array (fuel : nat) (s r : jsstring) (items : list value) :
  parse_value fuel s = Some (VArr items, r) ->
  items = [] \/ exists fuel' s', parse_elements fuel' s' = Some (items, r).
Proof.
  destruct fuel as [|fuel]; [done |]. destruct s as [|c s]; [done |].
  cbn [parse_value].
  repeat case_match; intros [=]; subst; eauto.
Qed.

Lemma parse_value_defined (fuel : nat) (s r : jsstring) (v : value) :
  parse_value fuel s = Some (v, r) -> v <> VUndefined.
Proof.
  destruct fuel as [|fuel]; [done |]. destruct s as [|c s]; [done |].
  cbn [parse_value].
  repeat case_match; intros [=]; subst; done.
Qed.

Lemma parse_elements_defined (fuel : nat) (s r : jsstring)
  (items : list value) :
  parse_elements fuel s = Some (items, r) -> VUndefined ∉ items.
Proof.
  revert s r items. induction fuel as [|fuel IH]; intros s r items; [done |].
  cbn [parse_elements].
  destruct (parse_value fuel s) as [[v r1]|] eqn:Hv; [|done].
  apply parse_value_defined in Hv.
  repeat case_match; intros [=]; subst.
  all: apply not_elem_of_cons; split; [done |].
  all: eauto using not_elem_of_nil.
Qed.

(** [JSON.parse] yields no array that holds [undefined]. *)
Lemma JSON_parse_array_defined (m : jsstring) (items : list value) :
  JSON_parse m = Some (VArr items) -> VUndefined ∉ items.
Proof.
  unfold JSON_parse.
  destruct (parse_value _ _) as [[v r]|] eqn:Hv; [|done].
  destruct (skip_ws r); [|done]. intros [= ->].
  apply parse_value_array in Hv as [-> | (fuel & s & Hitems)].
  - apply not_elem_of_nil.
  - by eapply parse_elements_defined.
Qed.

Lemma null_in_or_out (items : list value) : VNull ∈ items \/ VNull ∉ items.
Proof.
  induction items as [|item items [IH | IH]].
  - right. apply not_elem_of_nil.
  - left. by apply list_elem_of_further.
  - destruct item; try (right; apply not_elem_of_cons; by split).
    left. apply list_elem_of_here.
Qed.

Section Claim.

Variable generateContent : Request -> outcome GenerateContentResponse.
Variable query : jsstring.

(** C4, as the code has it: [findStockFootage] never throws. The piece of
    the text it parses runs from the first ['['] to the last [']']; when
    there is none, when it does not parse, or when it parses to something
    that is no array, the result is empty. When it parses to an array with no
    [null] in it, every element gives one record, in order, whose [title],
    [url] and [source] are those of the element, or the query, [#] and [Web]
    where the element has none (or a falsy one), and never [undefined]. When
    the array holds a [null], the result is empty. *)
Theorem findStockFootage_all_or_nothing (log : list Request) :
  exists videos,
    findStockFootage generateContent query log
      = (Resolved videos, log ++ [stock_request query])
    /\ forall response,
         generateContent (stock_request query) = Resolved response ->
         let text := or_str (response_text response) [] in
         (json_match text = None ->
          videos = []
          /\ ~ exists before inner after,
                 text = before ++ OPEN_BRACKET :: inner
                        ++ CLOSE_BRACKET :: after)
         /\ forall m,
              json_match text = Some m ->
              (exists before inner after,
                 text = before ++ m ++ after
                 /\ m = OPEN_BRACKET :: inner ++ [CLOSE_BRACKET]
                 /\ (OPEN_BRACKET ∉ before)
                 /\ (CLOSE_BRACKET ∉ after))
              /\ (JSON_parse m = None -> videos = [])
              /\ (forall v,
                    JSON_parse m = Some v ->
                    (forall items, v <> VArr items) ->
                    videos = [])
              /\ (forall items,
                    JSON_parse m = Some (VArr items) ->
                    (VNull ∉ items ->
                     length videos = length items
                     /\ Forall2 (coerced query) items videos
                     /\ Forall (fun video =>
                                  StockVideo.title video <> VUndefined
                                  /\ StockVideo.url video <> VUndefined
                                  /\ StockVideo.source video <> VUndefined)
                          videos)
                    /\ (VNull ∈ items -> videos = [])).
Proof.
  unfold findStockFootage, try_catch, bind, await_generateContent.
  destruct (generateContent (stock_request query)) as [response | e] eqn:Hgen;
    [|by eexists].
  destruct (json_match (or_str (response_text response) [])) as [m|] eqn:Hm.
  - destruct (JSON_parse m) as [v|] eqn:Hparse.
    + destruct v as [| | | | |items|].
      6: {
        destruct (null_in_or_out items) as [Hnull | Hnull].
        - rewrite map_stock_videos_none.
          2: { apply Exists_exists. exists VNull. split; [done | by left]. }
          eexists. split; [done |]. intros ? [= <-]. cbn zeta. rewrite Hm.
          split; [done |]. intros ? [= <-].
          split; [by apply json_match_some |]. rewrite Hparse.
          split; [done |]. split; [intros v [= <-] Hv; by destruct (Hv items) |].
          intros ? [= <-]. by split.
        - destruct (map_stock_videos_some query items)
            as (videos & -> & Hall).
          { apply Forall_forall. intros item Hitem [-> | ->]; [done |].
            by apply (JSON_parse_array_defined _ _ Hparse). }
          exists videos. split; [done |]. intros ? [= <-]. cbn zeta.
          rewrite Hm. split; [done |]. intros ? [= <-].
          split; [by apply json_match_some |]. rewrite Hparse.
          split; [done |]. split; [intros v [= <-] Hv; by destruct (Hv items) |].
          intros ? [= <-]. split; [|done]. intros _.
          split; [symmetry; by eapply Forall2_length |]. split; [done |].
          clear -Hall. induction Hall; constructor; [|done].
          by eapply coerced_defined. }
      all: eexists; split; [done |]; intros ? [= <-]; cbn zeta; rewrite Hm.
      all: split; [done |]; intros ? [= <-].
      all: split; [by apply json_match_some |]; rewrite Hparse.
      all: split; [done |]; split; [done |]; intros ? [=].
    + eexists. split; [done |]. intros ? [= <-]. cbn zeta. rewrite Hm.
      split; [done |]. intros ? [= <-].
      split; [by apply json_match_some |]. rewrite Hparse.
      split; [done |]. split; [done |]. intros ? [=].
  - eexists. split; [done |]. intros ? [= <-]. cbn zeta. rewrite Hm.
    split; [|done]. intros _. split; [done |]. by apply json_match_none.
Qed.

End Claim.

Import Examples.

Lemma findStockFootage_all_or_nothing_witness :
  exists video,
    fst (findStockFootage (always (Resolved (answer footage_in_prose)))
           (js "rain") []) = Resolved [video]
    /\ coerced (js "rain")
         (VObj [(js "title", VStr (js "a")); (js "url", VStr (js "u"));
                (js "source", VStr (js "Pexels"))]) video.
Proof.
  destruct (findStockFootage_all_or_nothing
              (always (Resolved (answer footage_in_prose))) (js "rain") [])
    as (videos & Hrun & Hcases).
  destruct (Hcases (answer footage_in_prose) eq_refl) as [_ Hfound].
  destruct (Hfound (js "[{" ++ [DQUOTE] ++ js "title" ++ [DQUOTE] ++ js ":"
                    ++ [DQUOTE] ++ js "a" ++ [DQUOTE] ++ js "," ++ [DQUOTE]
                    ++ js "url" ++ [DQUOTE] ++ js ":" ++ [DQUOTE] ++ js "u"
                    ++ [DQUOTE] ++ js "," ++ [DQUOTE] ++ js "source"
                    ++ [DQUOTE] ++ js ":" ++ [DQUOTE] ++ js "Pexels"
                    ++ [DQUOTE] ++ js "}]") eq_refl)
    as (_ & _ & _ & Harray).
  destruct (Harray [VObj [(js "title", VStr (js "a"));
                          (js "url", VStr (js "u"));
                          (js "source", VStr (js "Pexels"))]] eq_refl)
    as [Hall _].
  destruct Hall as (_ & Hall & _).
  - apply not_elem_of_cons. split; [discriminate | apply not_elem_of_nil].
  - inversion Hall as [|item video items videos' Hvideo Hrest]; subst.
    inversion Hrest; subst. exists video. split; [|exact Hvideo].
    by rewrite Hrun.
Defined.

(** The three answers the specification lists. *)
Example footage_found_in_prose :
  fst (findStockFootage (always (Resolved (answer footage_in_prose)))
         (js "rain") [])
  = Resolved [{| StockVideo.title := VStr (js "a");
                 StockVideo.url := VStr (js "u");
                 StockVideo.source := VStr (js "Pexels") |}].
Proof. reflexivity. Qed.

Example footage_without_array_is_empty :
  fst (findStockFootage (always (Resolved (answer footage_without_array)))
         (js "rain") [])
  = Resolved [].
Proof. reflexivity. Qed.

Example footage_not_json_is_empty :
  fst (findStockFootage (always (Resolved (answer footage_not_json)))
         (js "rain") [])
  = Resolved [].
Proof. reflexivity. Qed.

(** C4 as the specification states it fails on an array that holds [null]:
    reading [title] of [null] throws, the handler returns the empty list, and
    the element is not returned. *)
Lemma null_element_empties_the_result :
  ~ (forall (generateContent : Request -> outcome GenerateContentResponse)
            (query : jsstring) (response : GenerateContentResponse)
            (m : jsstring) (items : list value),
       generateContent (stock_request query) = Resolved response ->
       json_match (or_str (response_text response) []) = Some m ->
       JSON_parse m = Some (VArr items) ->
       exists videos,
         fst (findStockFootage generateContent query []) = Resolved videos
         /\ length videos = length items).
Proof.
  intros Hclaim.
  destruct (Hclaim (always (Resolved (answer footage_null))) (js "rain")
              (answer footage_null) footage_null [VNull]
              eq_refl eq_refl eq_refl)
    as (videos & Hrun & Hlength).
  vm_compute in Hrun. injection Hrun as <-. discriminate Hlength.
Qed.

End FootageSpec.

(** ** JSON: what is written is read back *)

Module JsonFacts.

Lemma digits_value_acc (ds : jsstring) (acc : N) :
  digits_value ds acc
  = (acc * 10 ^ N.of_nat (length ds) + digits_value ds 0)%N.
Proof.
  revert acc. induction ds as [|c ds IH]; intros acc.
  - cbn. lia.
  - cbn [digits_value length]. rewrite IH, (IH (10 * 0 + (c - 48))%N).
    rewrite Nat2N.inj_succ, N.pow_succ_r'. lia.
Qed.

Lemma digits_value_cons (d : N) (ds : jsstring) :
  digits_value ((48 + d)%N :: ds) 0
  = (d * 10 ^ N.of_nat (length ds) + digits_value ds 0)%N.
Proof.
  cbn [digits_value]. rewrite digits_value_acc.
  replace (10 * 0 + (48 + d - 48))%N with d by lia. done.
Qed.

Lemma to_digits_value (fuel : nat) (n : N) (acc : jsstring) :
  (n < 10 ^ N.of_nat fuel)%N ->
  digits_value (to_digits fuel n acc) 0
  = (n * 10 ^ N.of_nat (length acc) + digits_value acc 0)%N.
Proof.
  revert n acc. induction fuel as [|fuel IH]; intros n acc Hn.
  - cbn in Hn. assert (n = 0%N) as -> by lia. cbn. lia.
  - cbn [to_digits]. destruct (N.ltb_spec n 10) as [Hsmall | Hbig].
    + apply digits_value_cons.
    + rewrite IH.
      * cbn [length]. rewrite digits_value_cons.
        rewrite Nat2N.inj_succ, N.pow_succ_r'.
        pose proof (N.div_mod n 10). lia.
      * rewrite Nat2N.inj_succ, N.pow_succ_r' in Hn.
        apply N.Div0.div_lt_upper_bound. lia.
Qed.

Lemma pow10_log2 (n : N) : (n < 10 ^ N.of_nat (S (N.to_nat (N.log2 n))))%N.
Proof.
  rewrite Nat2N.inj_succ, N2Nat.id.
  destruct (N.eq_dec n 0%N) as [-> | Hn]; [done |].
  assert (n < 2 ^ N.succ (N.log2 n))%N by (apply N.log2_spec; lia).
  assert (2 ^ N.succ (N.log2 n) <= 10 ^ N.succ (N.log2 n))%N
    by (apply N.pow_le_mono_l; lia).
  lia.
Qed.

Lemma digits_of_N_value (n : N) : digits_value (digits_of_N n) 0 = n.
Proof.
  unfold digits_of_N. rewrite to_digits_value by apply pow10_log2. cbn. lia.
Qed.

Lemma to_digits_digits (fuel : nat) (n : N) (acc : jsstring) :
  Forall (fun c => is_digit c = true) acc ->
  Forall (fun c => is_digit c = true) (to_digits fuel n acc).
Proof.
  revert n acc. induction fuel as [|fuel IH]; intros n acc Hacc; [done |].
  cbn [to_digits]. destruct (N.ltb_spec n 10) as [Hsmall | Hbig].
  - constructor; [|done]. unfold is_digit. 
    apply andb_true_iff. split; apply N.leb_le; lia.
  - apply IH. constructor; [|done]. unfold is_digit.
    assert (n mod 10 < 10)%N by (apply N.mod_upper_bound; lia).
    generalize dependent (n mod 10)%N. intros d Hd.
    apply andb_true_iff. split; apply N.leb_le; lia.
Qed.

Lemma to_digits_head (fuel : nat) (n : N) (acc : jsstring) :
  (n < 10 ^ N.of_nat fuel)%N -> n <> 0%N ->
  exists d r, to_digits fuel n acc = d :: r /\ d <> 48%N.
Proof.
  revert n acc. induction fuel as [|fuel IH]; intros n acc Hn Hpos.
  - cbn in Hn. lia.
  - cbn [to_digits]. destruct (N.ltb_spec n 10) as [Hsmall | Hbig].
    + eexists _, _. split; [done |]. lia.
    + apply IH.
      * rewrite Nat2N.inj_succ, N.pow_succ_r' in Hn.
        apply N.Div0.div_lt_upper_bound. lia.
      * assert (n mod 10 < 10)%N by (apply N.mod_upper_bound; lia).
        pose proof (N.div_mod n 10). lia.
Qed.

Lemma to_digits_length (fuel : nat) (n : N) (acc : jsstring) (k : nat) :
  (n < 10 ^ N.of_nat k)%N -> 1 <= k ->
  length (to_digits fuel n acc) <= length acc + k.
Proof.
  revert n acc k. induction fuel as [|fuel IH]; intros n acc k Hn Hk.
  - cbn. lia.
  - cbn [to_digits]. destruct (N.ltb_spec n 10) as [Hsmall | Hbig].
    + cbn. lia.
    + destruct k as [|[|k]]; [lia | cbn in Hn; lia |].
      etransitivity; [apply (IH _ _ (S k))|].
      * rewrite (Nat2N.inj_succ (S k)), N.pow_succ_r' in Hn.
        apply N.Div0.div_lt_upper_bound. lia.
      * lia.
      * cbn [length]. lia.
Qed.

Lemma drop_zeros_spec (ds : jsstring) :
  exists m, ds = repeat 48%N m ++ drop_zeros ds.
Proof.
  induction ds as [|c ds [m IH]]; [by exists 0 |].
  cbn [drop_zeros]. destruct (N.eqb_spec c 48) as [-> | Hc].
  - exists (S m). cbn. by rewrite <- IH.
  - by exists 0.
Qed.

Lemma rev_repeat {A} (x : A) (m : nat) : rev (repeat x m) = repeat x m.
Proof.
  induction m as [|m IH]; [done |]. cbn [repeat rev]. rewrite IH.
  clear IH. induction m as [|m IH]; [done |]. cbn. by rewrite IH.
Qed.

Lemma strip_restore (ds : jsstring) :
  strip_trailing_zeros ds
  ++ repeat 48%N (length ds - length (strip_trailing_zeros ds)) = ds.
Proof.
  unfold strip_trailing_zeros.
  destruct (drop_zeros_spec (rev ds)) as [m Hm].
  set (s := rev (drop_zeros (rev ds))).
  assert (ds = s ++ repeat 48%N m) as Hds.
  { rewrite <- (rev_involutive ds) at 1. rewrite Hm at 1.
    by rewrite rev_app_distr, rev_repeat. }
  assert (length ds = length s + m) as Hlen.
  { rewrite Hds at 1. by rewrite length_app, repeat_length. }
  replace (length ds - length s) with m by lia. done.
Qed.

Lemma digits_of_N_length (n : N) :
  (n < 10 ^ 21)%N -> length (digits_of_N n) <= 21.
Proof. intros Hn. apply (to_digits_length _ n [] 21); [done | lia]. Qed.

Lemma digits_of_N_digits (n : N) :
  Forall (fun c => is_digit c = true) (digits_of_N n).
Proof. by apply to_digits_digits. Qed.

Lemma digits_of_N_head (n : N) :
  exists d r,
    digits_of_N n = d :: r
    /\ is_digit d = true
    /\ ((d =? 48)%N && negb (bool_decide (r = [])) = false).
Proof.
  pose proof (digits_of_N_digits n) as Hall.
  destruct (N.eq_dec n 0%N) as [-> | Hn].
  - exists 48%N, []. done.
  - destruct (to_digits_head _ n [] (pow10_log2 n) Hn) as (d & r & Hd & H48).
    fold (digits_of_N n) in Hd. rewrite Hd in Hall.
    apply Forall_cons in Hall as [Hdigit _].
    exists d, r. split; [done |]. split; [done |].
    by destruct (N.eqb_spec d 48).
Qed.

Lemma strip_length (ds : jsstring) :
  length (strip_trailing_zeros ds) <= length ds.
Proof.
  pose proof (f_equal length (strip_restore ds)) as H.
  rewrite length_app in H. lia.
Qed.

Lemma safe_integer_bound (z : Z) :
  safe_integer z -> (Z.abs_N z < 10 ^ 21)%N.
Proof. unfold safe_integer. intros H. lia. Qed.

Lemma number_to_string_integer (z : Z) :
  safe_integer z -> number_to_string (of_Z z) = integer_text z.
Proof.
  intros Hsafe. unfold number_to_string, integer_text.
  cbn [of_Z mantissa exponent].
  destruct (Z.eqb_spec z 0) as [-> | Hz]; [done |].
  set (ds := digits_of_N (Z.abs_N z)).
  pose proof (digits_of_N_length _ (safe_integer_bound _ Hsafe)) as Hlen.
  fold ds in Hlen. pose proof (strip_length ds) as Hstrip.
  f_equal.
  destruct (Z.leb_spec (Z.of_nat (length (strip_trailing_zeros ds)))
              (Z.of_nat (length ds) + 0)) as [_ | H]; [|lia].
  destruct (Z.leb_spec (Z.of_nat (length ds) + 0) 21) as [_ | H]; [|lia].
  cbn [andb].
  replace (Z.to_nat (Z.of_nat (length ds) + 0
                     - Z.of_nat (length (strip_trailing_zeros ds))))
    with (length ds - length (strip_trailing_zeros ds)) by lia.
  apply strip_restore.
Qed.

Lemma span_digits_app (ds rest : jsstring) :
  Forall (fun c => is_digit c = true) ds ->
  number_end rest ->
  span_digits (ds ++ rest) = (ds, rest).
Proof.
  intros Hds Hrest. induction Hds as [|c ds Hc _ IH].
  - destruct rest as [|c rest]; [done |]. cbn. by destruct Hrest as [-> _].
  - cbn. by rewrite Hc, IH.
Qed.

Lemma parse_number_integer (z : Z) (rest : jsstring) :
  number_end rest ->
  parse_number (integer_text z ++ rest) = Some (of_Z z, rest).
Proof.
  intros Hrest. unfold parse_number, integer_text.
  destruct (digits_of_N_head (Z.abs_N z)) as (d & r & Hds & Hd & Hlead).
  pose proof (digits_of_N_digits (Z.abs_N z)) as Hall.
  pose proof (digits_of_N_value (Z.abs_N z)) as Hvalue.
  assert (next_is 46 rest = None) as Hdot.
  { destruct rest as [|c rest]; [done |]. cbn.
    destruct Hrest as (_ & Hc & _). by destruct (N.eqb_spec c 46). }
  destruct (Z.ltb_spec z 0) as [Hneg | Hpos].
  - change (js "-") with [45%N]. cbn [app next_is]. rewrite N.eqb_refl. rewrite span_digits_app by done.
    rewrite Hds, Hlead, Hdot. rewrite <- Hds.
    destruct rest as [|c rest].
    + rewrite app_nil_r, Hvalue. cbn. unfold of_Z. f_equal. f_equal. f_equal. lia.
    + destruct Hrest as (_ & _ & He & HE).
      destruct (N.eqb_spec c 101), (N.eqb_spec c 69); try done.
      rewrite app_nil_r, Hvalue. cbn. unfold of_Z. f_equal. f_equal. f_equal. lia.
  - assert (next_is 45 (digits_of_N (Z.abs_N z) ++ rest) = None) as Hsign.
    { rewrite Hds. cbn [app next_is].
      unfold is_digit in Hd. apply andb_true_iff in Hd as [Hd _].
      apply N.leb_le in Hd. destruct (N.eqb_spec d 45); [lia | done]. }
    cbn [app]. rewrite Hsign.
    rewrite span_digits_app by done.
    rewrite Hds, Hlead, Hdot. rewrite <- Hds.
    destruct rest as [|c rest].
    + rewrite app_nil_r, Hvalue. cbn. unfold of_Z. f_equal. f_equal. f_equal. lia.
    + destruct Hrest as (_ & _ & He & HE).
      destruct (N.eqb_spec c 101), (N.eqb_spec c 69); try done.
      rewrite app_nil_r, Hvalue. cbn. unfold of_Z. f_equal. f_equal. f_equal. lia.
Qed.

Lemma parse_literal (c : N) (s : jsstring) :
  (32 <= c)%N -> c <> 34%N -> c <> 92%N ->
  parse_string_body (c :: s) = after_unit c s.
Proof.
  intros H32 H34 H92. cbn [parse_string_body].
  destruct (N.eqb_spec c 34); [done |]. destruct (N.eqb_spec c 92); [done |].
  destruct (N.ltb_spec c 32); [lia | done].
Qed.

Lemma hex_value_digit (d : N) :
  (d < 16)%N -> hex_value (hex_digit d) = Some d.
Proof.
  intros Hd. unfold hex_value, hex_digit, is_digit.
  destruct (N.ltb_spec d 10).
  - destruct (N.leb_spec 48 (48 + d)); [|lia].
    destruct (N.leb_spec (48 + d) 57); [|lia]. cbn. f_equal. lia.
  - destruct (N.leb_spec 48 (87 + d)); [|lia].
    destruct (N.leb_spec (87 + d) 57); [lia |]. cbn.
    destruct (N.leb_spec 97 (87 + d)); [|lia].
    destruct (N.leb_spec (87 + d) 102); [|lia]. cbn. f_equal. lia.
Qed.

Lemma hex4_value_escape (c : N) :
  (c < 65536)%N ->
  hex4_value (hex_digit (c / 4096)) (hex_digit ((c / 256) mod 16))
    (hex_digit ((c / 16) mod 16)) (hex_digit (c mod 16)) = Some c.
Proof.
  intros Hc. unfold hex4_value.
  assert (c / 4096 < 16)%N by (apply N.Div0.div_lt_upper_bound; lia).
  assert ((c / 256) mod 16 < 16)%N by (apply N.mod_upper_bound; lia).
  assert ((c / 16) mod 16 < 16)%N by (apply N.mod_upper_bound; lia).
  assert (c mod 16 < 16)%N by (apply N.mod_upper_bound; lia).
  rewrite !hex_value_digit by done. f_equal.
  pose proof (N.div_mod c 16) as E1.
  pose proof (N.div_mod (c / 16) 16) as E2.
  pose proof (N.div_mod (c / 256) 16) as E3.
  rewrite N.Div0.div_div in E2, E3. change (16 * 16)%N with 256%N in E2.
  change (256 * 16)%N with 4096%N in E3.
  generalize dependent (c mod 16)%N. generalize dependent ((c / 16) mod 16)%N.
  generalize dependent ((c / 256) mod 16)%N.
  generalize dependent (c / 4096)%N. generalize dependent (c / 256)%N.
  generalize dependent (c / 16)%N. intros. lia.
Qed.

Lemma parse_unicode_escape (c : N) (s : jsstring) :
  (c < 65536)%N ->
  parse_string_body (unicode_escape c ++ s) = after_unit c s.
Proof.
  intros Hc. unfold unicode_escape. cbn [app parse_string_body N.eqb Pos.eqb].
  by rewrite hex4_value_escape.
Qed.

Lemma parse_quote_unit (c : N) (s : jsstring) :
  parse_string_body (quote_unit c ++ s) = after_unit c s.
Proof.
  unfold quote_unit.
  repeat match goal with
         | |- context [(c =? ?k)%N] => destruct (N.eqb_spec c k) as [-> | ?]
         end; try reflexivity.
  destruct (N.ltb_spec c 32).
  - apply parse_unicode_escape. lia.
  - by apply parse_literal.
Qed.

Lemma surrogate_bounds (c : N) :
  is_high_surrogate c = true \/ is_low_surrogate c = true ->
  (32 <= c)%N /\ c <> 34%N /\ c <> 92%N /\ (c < 65536)%N.
Proof.
  unfold is_high_surrogate, is_low_surrogate.
  rewrite !andb_true_iff, !N.leb_le. lia.
Qed.

Lemma parse_quote_body (s rest : jsstring) :
  parse_string_body (quote_body s ++ 34%N :: rest) = Some (s, rest).
Proof.
  remember (length s) as n eqn:Hn.
  revert s Hn. induction n as [n IH] using lt_wf_ind. intros s Hn.
  destruct s as [|c s]; [done |]. cbn [quote_body].
  assert (forall t, length t < n ->
            parse_string_body (quote_body t ++ 34%N :: rest) = Some (t, rest))
    as IH' by (intros t Ht; by eapply IH).
  cbn [length] in Hn.
  destruct (is_high_surrogate c) eqn:Hhigh.
  - destruct (surrogate_bounds c (or_introl Hhigh)) as (? & ? & ? & ?).
    destruct s as [|d s].
    + rewrite parse_unicode_escape by done. done.
    + destruct (is_low_surrogate d) eqn:Hlow.
      * destruct (surrogate_bounds d (or_intror Hlow)) as (? & ? & ? & ?).
        cbn [app]. rewrite parse_literal by done. unfold after_unit.
        rewrite parse_literal by done. unfold after_unit.
        rewrite IH'; [done | cbn [length] in Hn; lia].
      * rewrite <- app_assoc, parse_unicode_escape by done. unfold after_unit.
        rewrite IH'; [done | lia].
  - destruct (is_low_surrogate c) eqn:Hlow.
    + destruct (surrogate_bounds c (or_intror Hlow)) as (? & ? & ? & ?).
      rewrite <- app_assoc, parse_unicode_escape by done. unfold after_unit.
      rewrite IH'; [done | lia].
    + rewrite <- app_assoc, parse_quote_unit. unfold after_unit.
      rewrite IH'; [done | lia].
Qed.

Lemma value_rect' (P : value -> Prop) :
  P VUndefined -> P VNull -> (forall b, P (VBool b)) ->
  (forall n, P (VNum n)) -> (forall s, P (VStr s)) ->
  (forall items, Forall P items -> P (VArr items)) ->
  (forall props, Forall (fun kv => P kv.2) props -> P (VObj props)) ->
  forall v, P v.
Proof.
  intros Hu Hn Hb Hnum Hs Ha Ho.
  fix IH 1. intros [| |b|n|s|items|props].
  - exact Hu.
  - exact Hn.
  - apply Hb.
  - apply Hnum.
  - apply Hs.
  - apply Ha. induction items as [|x items IHitems]; constructor.
    + apply IH.
    + exact IHitems.
  - apply Ho. induction props as [|[k x] props IHprops]; constructor.
    + apply IH.
    + exact IHprops.
Qed.

Lemma storable_array (items : list value) :
  storable (VArr items) <-> Forall storable items.
Proof.
  cbn [storable]. induction items as [|x items IH].
  - split; [constructor | done].
  - rewrite Forall_cons, IH. done.
Qed.

Lemma storable_object (props : list (jsstring * value)) :
  storable (VObj props)
  <-> define_all props [] = props /\ Forall (fun kv => storable kv.2) props.
Proof.
  cbn [storable]. apply and_iff_compat_l.
  induction props as [|[k x] props IH].
  - split; [constructor | done].
  - rewrite Forall_cons, IH. done.
Qed.

Lemma value_end_number_end (rest : jsstring) :
  value_end rest -> number_end rest.
Proof.
  destruct rest as [|c rest]; [done |]. cbn. intros [-> | [-> | ->]]; done.
Qed.

Lemma integer_text_head (z : Z) :
  exists c r, integer_text z = c :: r /\ (c = 45%N \/ is_digit c = true).
Proof.
  unfold integer_text.
  destruct (digits_of_N_head (Z.abs_N z)) as (d & r & -> & Hd & _).
  destruct (z <? 0)%Z.
  - exists 45%N, (d :: r). split; [done | by left].
  - exists d, r. split; [done | by right].
Qed.

Lemma digit_cases (c : N) :
  is_digit c = true -> (48 <= c <= 57)%N.
Proof. unfold is_digit. rewrite andb_true_iff, !N.leb_le. lia. Qed.

Lemma serialize_number (n : number) :
  storable (VNum n) -> serialize (VNum n) = integer_text (mantissa n).
Proof.
  destruct n as [m e]. cbn [storable mantissa exponent serialize].
  intros [-> Hsafe]. by apply number_to_string_integer.
Qed.

Lemma serialize_head (v : value) :
  storable v -> exists c r, serialize v = c :: r /\ opens_value c.
Proof.
  destruct v as [| |[|]|n|s|items|props]; intros Hv;
    try done; try (by eexists _, _).
  rewrite serialize_number by done.
  destruct (integer_text_head (mantissa n)) as (c & r & -> & [-> | Hc]).
  - by eexists _, _.
  - apply digit_cases in Hc. exists c, r. split; [done |].
    unfold opens_value, is_json_ws.
    destruct (N.eqb_spec c 32), (N.eqb_spec c 9), (N.eqb_spec c 10),
      (N.eqb_spec c 13); lia.
Qed.

Lemma skip_ws_opens (c : N) (s : jsstring) :
  is_json_ws c = false -> skip_ws (c :: s) = c :: s.
Proof. intros H. cbn. by rewrite H. Qed.

Lemma next_is_other (c d : N) (s : jsstring) :
  d <> c -> next_is c (d :: s) = None.
Proof. intros H. cbn. by destruct (N.eqb_spec d c). Qed.

Lemma members_with_storable (props : list (jsstring * value)) :
  Forall (fun kv => storable kv.2) props ->
  members_with serialize props = map member_text props.
Proof.
  induction 1 as [|[k v] props Hv _ IH]; [done |].
  cbn [members_with map]. rewrite IH. by destruct v.
Qed.

Lemma join_cons (sep l : jsstring) (ls : list jsstring) :
  ls <> [] -> join sep (l :: ls) = l ++ sep ++ join sep ls.
Proof. by destruct ls. Qed.

Section RoundTrip.

(** The statement proved by induction on the value. *)
Let reads_back (v : value) : Prop :=
  storable v ->
  forall fuel rest,
    value_end rest ->
    2 * length (serialize v) <= fuel ->
    parse_value fuel (serialize v ++ rest) = Some (v, rest).

Lemma parse_elements_serialized (items : list value) :
  Forall reads_back items ->
  Forall storable items ->
  items <> [] ->
  forall fuel rest,
    2 * length (join (js ",") (map serialize items)) + 1 <= fuel ->
    parse_elements fuel
      (join (js ",") (map serialize items) ++ 93%N :: rest)
    = Some (items, rest).
Proof.
  induction 1 as [|x items Hx _ IH]; [done |].
  intros Hstor _ fuel rest Hfuel.
  apply Forall_cons in Hstor as [Hsx Hsitems].
  destruct fuel as [|fuel]; [lia |]. cbn [parse_elements].
  destruct items as [|y items].
  - cbn [map join] in *. rewrite Hx; [|done|by right; left|lia].
    cbn [skip_ws is_json_ws N.eqb Pos.eqb orb next_is]. done.
  - cbn [map] in Hfuel |- *.
    rewrite (join_cons _ (serialize x)) in Hfuel |- * by done.
    change (js ",") with [44%N] in *. rewrite <- !app_assoc.
    cbn [app]. rewrite length_app in Hfuel. cbn [length] in Hfuel.
    rewrite Hx; [|done|by left|lia].
    cbn [skip_ws is_json_ws N.eqb Pos.eqb orb next_is].
    destruct (serialize_head y) as (c & r & Hy & Hc & _).
    { by apply Forall_cons in Hsitems as [? _]. }
    assert (exists t, join [44%N] (serialize y :: map serialize items)
                      = c :: t) as [t Ht].
    { destruct items; cbn [join map]; rewrite Hy; by eexists. }
    rewrite Ht, <- app_comm_cons, skip_ws_opens by done.
    rewrite app_comm_cons, <- Ht.
    rewrite IH; [done | done | done |].
    destruct (serialize_head x Hsx) as (? & ? & Hxs & _).
    rewrite Hxs in Hfuel. cbn [map]. rewrite !length_app in Hfuel.
    cbn [length] in Hfuel. lia.
Qed.

Lemma parse_members_serialized (props : list (jsstring * value)) :
  Forall (fun kv => reads_back kv.2) props ->
  Forall (fun kv => storable kv.2) props ->
  props <> [] ->
  forall fuel acc rest,
    2 * length (join (js ",") (map member_text props)) + 1 <= fuel ->
    parse_members fuel acc
      (join (js ",") (map member_text props) ++ 125%N :: rest)
    = Some (define_all props acc, rest).
Proof.
  induction 1 as [|[k x] props Hx _ IH]; [done |].
  intros Hstor _ fuel acc rest Hfuel.
  apply Forall_cons in Hstor as [Hsx Hsprops]. cbn [snd] in Hx, Hsx.
  destruct fuel as [|fuel]; [lia |]. cbn [parse_members].
  destruct (serialize_head x Hsx) as (c & r & Hxs & Hc & _).
  assert (forall tail,
            value_end tail ->
            2 * length (member_text (k, x)) <= fuel ->
            next_is 34 (member_text (k, x) ++ tail) = Some
              (quote_body k ++ 34%N :: 58%N :: serialize x ++ tail)
            /\ parse_value fuel (skip_ws (serialize x ++ tail))
               = Some (x, tail)) as Hmember.
  { intros tail Htail Hlen. unfold member_text, quote. cbn [fst snd].
    change (js ":") with [58%N]. split.
    - cbn [app next_is DQUOTE N.eqb Pos.eqb].
      by rewrite <- !app_assoc.
    - rewrite Hxs, <- app_comm_cons, skip_ws_opens by done.
      rewrite app_comm_cons, <- Hxs. apply Hx; [done | done |].
      unfold member_text in Hlen. rewrite !length_app in Hlen.
      cbn [snd] in Hlen. lia. }
  destruct props as [|kv props].
  - cbn [map join] in *.
    destruct (Hmember (125%N :: rest)) as [Hquote Hvalue];
      [by right; right | lia |].
    rewrite Hquote, parse_quote_body.
    cbn [skip_ws is_json_ws N.eqb Pos.eqb orb next_is].
    rewrite Hvalue.
    cbn [skip_ws is_json_ws N.eqb Pos.eqb orb next_is]. done.
  - cbn [map] in Hfuel |- *.
    rewrite (join_cons _ (member_text (k, x))) in Hfuel |- * by done.
    change (js ",") with [44%N] in *. rewrite <- !app_assoc.
    cbn [app]. rewrite length_app in Hfuel. cbn [length] in Hfuel.
    destruct (Hmember (44%N :: join [44%N]
                                  (member_text kv :: map member_text props)
                       ++ 125%N :: rest)) as [Hquote Hvalue];
      [by left | lia |].
    rewrite Hquote, parse_quote_body.
    cbn [skip_ws is_json_ws N.eqb Pos.eqb orb next_is].
    rewrite Hvalue.
    cbn [skip_ws is_json_ws N.eqb Pos.eqb orb next_is].
    assert (exists t, join [44%N] (member_text kv :: map member_text props)
                      = 34%N :: t) as [t Ht].
    { destruct props; cbn [join map]; by eexists. }
    rewrite Ht, <- app_comm_cons, skip_ws_opens by done.
    rewrite app_comm_cons, <- Ht.
    rewrite IH; [done | done | done |].
    cbn [map]. unfold member_text at 1, quote in Hfuel.
    rewrite !length_app in Hfuel. cbn [length] in Hfuel. lia.
Qed.

End RoundTrip.

Lemma starts_with_head (c d : N) (s p : jsstring) :
  c <> d -> starts_with (c :: s) (d :: p) = false.
Proof. intros H. cbn. by destruct (N.eqb_spec d c); [congruence |]. Qed.

Lemma parse_serialize (v : value) :
  storable v ->
  forall fuel rest,
    value_end rest ->
    2 * length (serialize v) <= fuel ->
    parse_value fuel (serialize v ++ rest) = Some (v, rest).
Proof.
  induction v as [| |b|n|s|items IH|props IH] using value_rect';
    intros Hv fuel rest Hrest Hfuel.
  - done.
  - destruct fuel as [|fuel]; [cbn in Hfuel; lia | reflexivity].
  - destruct fuel as [|fuel]; [destruct b; cbn in Hfuel; lia |].
    destruct b; reflexivity.
  - rewrite serialize_number in * by done.
    destruct (integer_text_head (mantissa n)) as (c & r & Hc & Hhead).
    destruct fuel as [|fuel]; [rewrite Hc in Hfuel; cbn in Hfuel; lia |].
    assert (48 <= c <= 57 \/ c = 45)%N as Hrange.
    { destruct Hhead as [-> | Hd]; [lia | apply digit_cases in Hd; lia]. }
    rewrite Hc. cbn [app parse_value].
    destruct (N.eqb_spec c 34); [lia |]. destruct (N.eqb_spec c 91); [lia |].
    destruct (N.eqb_spec c 123); [lia |].
    change (js "true") with (116%N :: js "rue").
    change (js "false") with (102%N :: js "alse").
    change (js "null") with (110%N :: js "ull").
    rewrite !starts_with_head by lia.
    rewrite app_comm_cons, <- Hc.
    rewrite parse_number_integer by by apply value_end_number_end.
    destruct n as [m e]. destruct Hv as [He _]. cbn in He. by subst.
  - destruct fuel as [|fuel]; [cbn in Hfuel; lia |].
    cbn [serialize]. unfold quote, DQUOTE.
    cbn [app parse_value N.eqb Pos.eqb]. rewrite <- app_assoc. cbn [app].
    by rewrite parse_quote_body.
  - apply storable_array in Hv.
    destruct fuel as [|fuel]; [cbn in Hfuel; lia |].
    cbn [serialize]. change (js "[") with [91%N]. change (js "]") with [93%N].
    rewrite <- !app_assoc. cbn [app parse_value N.eqb Pos.eqb].
    destruct items as [|x items]; [done |].
    destruct (serialize_head x) as (c & r & Hx & Hc & Hc93 & _).
    { by apply Forall_cons in Hv as [? _]. }
    assert (exists t, join [44%N] (map serialize (x :: items)) = c :: t)
      as [t Ht].
    { cbn [map]. destruct items; cbn [join map]; rewrite Hx; by eexists. }
    change (js ",") with [44%N] in *.
    rewrite Ht, <- app_comm_cons, skip_ws_opens, next_is_other by done.
    rewrite app_comm_cons, <- Ht.
    rewrite parse_elements_serialized; [done | | done | done |].
    + eapply Forall_impl; [exact IH |]. intros v Hread. exact Hread.
    + cbn [serialize] in Hfuel. rewrite !length_app in Hfuel.
      change (length (js "[")) with 1 in Hfuel.
      change (length (js "]")) with 1 in Hfuel. lia.
  - apply storable_object in Hv as [Hdefine Hv].
    destruct fuel as [|fuel]; [cbn in Hfuel; lia |].
    cbn [serialize]. rewrite members_with_storable in * by done.
    change (js "{") with [123%N]. change (js "}") with [125%N].
    rewrite <- !app_assoc. cbn [app parse_value N.eqb Pos.eqb].
    destruct props as [|kv props]; [done |].
    assert (exists t, join [44%N] (map member_text (kv :: props)) = 34%N :: t)
      as [t Ht].
    { cbn [map]. destruct props; cbn [join map]; by eexists. }
    change (js ",") with [44%N] in *.
    rewrite Ht, <- app_comm_cons, skip_ws_opens, next_is_other by done.
    rewrite app_comm_cons, <- Ht.
    rewrite parse_members_serialized; [by rewrite Hdefine | | done | done |].
    + eapply Forall_impl; [exact IH |]. intros v Hread. exact Hread.
    + cbn [serialize] in Hfuel. rewrite members_with_storable in Hfuel by done.
      rewrite !length_app in Hfuel.
      change (length (js "{")) with 1 in Hfuel.
      change (length (js "}")) with 1 in Hfuel. lia.
Qed.

Lemma JSON_parse_serialize (v : value) :
  storable v -> JSON_parse (serialize v) = Some v.
Proof.
  intros Hv. unfold JSON_parse.
  destruct (serialize_head v Hv) as (c & r & Hs & Hc & _).
  rewrite Hs, skip_ws_opens, <- Hs by done.
  rewrite <- (app_nil_r (serialize v)) at 2.
  rewrite parse_serialize; [done | done | done | lia].
Qed.

End JsonFacts.

(** ** The chat archive *)

Module ArchiveSpec.
Import ChatMode JsonFacts.

Lemma value_of_source_storable (s : Source.t) : storable (value_of_source s).
Proof. destruct s as [[t|] [u|]]; by repeat split. Qed.

Lemma storable_map {A} (f : A -> value) (l : list A) :
  Forall (fun x => storable (f x)) l -> storable (VArr (map f l)).
Proof.
  intros H. apply storable_array. induction H; constructor; done.
Qed.

Lemma value_of_message_storable (m : ChatMessage.t) :
  timely_message m -> storable (value_of_message m).
Proof.
  unfold timely_message. destruct m as [id r text [image|] t [srcs|]];
    cbn [ChatMessage.timestamp]; intros Ht.
  all: apply storable_object; split; [reflexivity |].
  all: repeat (apply Forall_cons; split); try apply Forall_nil; cbn;
    try done; try (by destruct r).
  all: apply (storable_map value_of_source), Forall_forall.
  all: intros s _; apply value_of_source_storable.
Qed.

Lemma value_of_session_storable (s : ChatSession.t) :
  timely_session s -> storable (value_of_session s).
Proof.
  intros [Ht Hm]. apply storable_object. split; [reflexivity |].
  repeat (apply Forall_cons; split); try apply Forall_nil; cbn; try done.
  apply (storable_map value_of_message).
  eapply Forall_impl; [exact Hm |]. apply value_of_message_storable.
Qed.

Lemma map_injective {A B} (f : A -> B) (l1 l2 : list A) :
  (forall x y, f x = f y -> x = y) -> map f l1 = map f l2 -> l1 = l2.
Proof.
  intros Hf. revert l2. induction l1 as [|x l1 IH]; intros [|y l2] H;
    try done.
  injection H as Hxy Hl. f_equal; auto.
Qed.

Lemma value_of_source_inj (s1 s2 : Source.t) :
  value_of_source s1 = value_of_source s2 -> s1 = s2.
Proof.
  destruct s1 as [[t1|] [u1|]], s2 as [[t2|] [u2|]]; cbn; intros H;
    by simplify_eq.
Qed.

Lemma value_of_message_inj (m1 m2 : ChatMessage.t) :
  value_of_message m1 = value_of_message m2 -> m1 = m2.
Proof.
  destruct m1 as [id1 r1 text1 [image1|] t1 [srcs1|]],
    m2 as [id2 r2 text2 [image2|] t2 [srcs2|]]; cbn; intros H;
    simplify_eq; try (destruct r1, r2; simplify_eq); try done.
  all: f_equal; f_equal.
  all: by apply (map_injective value_of_source);
    [apply value_of_source_inj |].
Qed.

Lemma value_of_session_inj (s1 s2 : ChatSession.t) :
  value_of_session s1 = value_of_session s2 -> s1 = s2.
Proof.
  destruct s1 as [id1 title1 msgs1 t1], s2 as [id2 title2 msgs2 t2]; cbn.
  intros H. simplify_eq. f_equal.
  by apply (map_injective value_of_message); [apply value_of_message_inj |].
Qed.

Lemma saveCurrentSession_stores (now_id now : Z) (first : ChatMessage.t)
  (rest : list ChatMessage.t) (old : list value) (isOpen : bool)
  (localStorage : gmap jsstring jsstring) :
  let newArchives :=
    VArr (value_of_session (new_session now_id now (first :: rest) first)
          :: old) in
  saveCurrentSession now_id now (first :: rest)
    {| archives := VArr old; isArchivesOpen := isOpen |} localStorage
  = Some ({| archives := newArchives; isArchivesOpen := true |},
          <[CHAT_ARCHIVE_KEY := serialize newArchives]> localStorage).
Proof. reflexivity. Qed.

(** C9: saving the current messages (there is at least one) puts a new
    session, with these messages and the time of saving, in front of the
    archived sessions and writes the list to the store; a component mounted
    afresh on that store reads back this very list: the new session first,
    then the old ones in their order, each with its id, title, messages and
    timestamp. Timestamps are readings of [Date.now()]. *)
Theorem saved_sessions_survive_reload (now_id now : Z)
  (messages : list ChatMessage.t) (old : list ChatSession.t)
  (isOpen : bool) (localStorage : gmap jsstring jsstring) :
  messages <> [] ->
  safe_integer now ->
  Forall timely_message messages ->
  Forall timely_session old ->
  exists session st' localStorage',
    saveCurrentSession now_id now messages
      {| archives := VArr (map value_of_session old);
         isArchivesOpen := isOpen |} localStorage
    = Some (st', localStorage')
    /\ (forall first rest,
          messages = first :: rest ->
          session = new_session now_id now messages first)
    /\ ChatSession.id session = Z_toString now_id
    /\ ChatSession.messages session = messages
    /\ ChatSession.timestamp session = now
    /\ archives st' = VArr (map value_of_session (session :: old))
    /\ archives (loadArchives localStorage' initial)
       = VArr (map value_of_session (session :: old))
    /\ forall reloaded,
         archives (loadArchives localStorage' initial)
         = VArr (map value_of_session reloaded) ->
         reloaded = session :: old.
Proof.
  intros Hmessages Hnow Htimely Hold.
  destruct messages as [|first rest]; [done |].
  set (messages := first :: rest) in *.
  set (session := new_session now_id now messages first).
  assert (archives
            (loadArchives
               (<[CHAT_ARCHIVE_KEY :=
                    serialize (VArr (map value_of_session (session :: old)))]>
                  localStorage) initial)
          = VArr (map value_of_session (session :: old))) as Hreload.
  { unfold loadArchives. rewrite lookup_insert_eq.
    rewrite JSON_parse_serialize; [done |].
    apply (storable_map value_of_session). constructor.
    - by apply value_of_session_storable.
    - eapply Forall_impl; [exact Hold |]. apply value_of_session_storable. }
  exists session. eexists _, _. split; [apply saveCurrentSession_stores |].
  fold messages session. cbn [archives].
  change (value_of_session session :: map value_of_session old)
    with (map value_of_session (session :: old)).
  split; [by intros first' rest' [= <- <-] |].
  repeat split; try done.
  intros reloaded Hreloaded. rewrite Hreload in Hreloaded.
  injection Hreloaded as Hlist. symmetry.
  by apply (map_injective value_of_session); [apply value_of_session_inj |].
Qed.

Import Examples.

Lemma saved_sessions_survive_reload_witness :
  exists session st' localStorage',
    saveCurrentSession 1700000009000 1700000009001 [asked; answered]
      {| archives := VArr [value_of_session archived];
         isArchivesOpen := false |} ∅
    = Some (st', localStorage')
    /\ ChatSession.messages session = [asked; answered]
    /\ archives (loadArchives localStorage' initial)
       = VArr [value_of_session session; value_of_session archived].
Proof.
  destruct (saved_sessions_survive_reload 1700000009000 1700000009001
              [asked; answered] [archived] false ∅)
    as (session & st' & localStorage' & Hsave & _ & _ & Hmessages & _ & _
        & Hreload & _).
  - discriminate.
  - unfold safe_integer. cbn. lia.
  - repeat constructor; unfold timely_message, safe_integer; cbn; lia.
  - repeat constructor; unfold safe_integer; cbn; lia.
  - exists session, st', localStorage'.
    split; [exact Hsave |]. split; [exact Hmessages | exact Hreload].
Defined.

End ArchiveSpec.

(** ** Lists kept in the store *)

Module StoreFacts.

Lemma without_id_map {A} (f : A -> value) (ident : A -> jsstring)
  (id : jsstring) (l : list A) :
  (forall x, get_field (f x) (js "id") = Some (VStr (ident x))) ->
  without_id id (map f l)
  = Some (map f (List.filter (fun x => negb (bool_decide (ident x = id))) l)).
Proof.
  intros Hid. induction l as [|x l IH]; [done |].
  cbn [map without_id List.filter]. unfold id_differs. rewrite Hid, IH.
  by destruct (negb (bool_decide (ident x = id))).
Qed.

Lemma filter_Forall {A} (P : A -> Prop) (f : A -> bool) (l : list A) :
  Forall P l -> Forall P (List.filter f l).
Proof.
  induction 1 as [|x l Hx Hl IH]; cbn; [constructor |].
  destruct (f x); [by constructor | done].
Qed.

End StoreFacts.

(** ** Deleting archived sessions, and their titles *)

Module ArchiveFacts.
Import ChatMode JsonFacts ArchiveSpec StoreFacts.

Lemma reload_sessions (sessions : list ChatSession.t)
  (localStorage : gmap jsstring jsstring) :
  Forall timely_session sessions ->
  loadArchives
    (<[CHAT_ARCHIVE_KEY := serialize (VArr (map value_of_session sessions))]>
       localStorage) initial
  = {| archives := VArr (map value_of_session sessions);
       isArchivesOpen := false |}.
Proof.
  intros Ht. unfold loadArchives. rewrite lookup_insert_eq.
  rewrite JSON_parse_serialize; [done |].
  apply (storable_map value_of_session).
  eapply Forall_impl; [exact Ht |]. apply value_of_session_storable.
Qed.

(** X1: [deleteSession] on a list of archived sessions does not throw; it
    keeps, in their order, the sessions whose id is not the one given and
    leaves the panel as it is, and writes the list to the store, so that a
    component mounted afresh on that store shows the sessions kept: a
    deleted session does not come back. *)
Theorem deleted_session_stays_deleted (id : jsstring)
  (sessions : list ChatSession.t) (isOpen : bool)
  (localStorage : gmap jsstring jsstring) :
  Forall timely_session sessions ->
  exists localStorage',
    deleteSession id
      {| archives := VArr (map value_of_session sessions);
         isArchivesOpen := isOpen |} localStorage
    = Some ({| archives :=
                 VArr (map value_of_session (sessions_without id sessions));
               isArchivesOpen := isOpen |}, localStorage')
    /\ loadArchives localStorage' initial
       = {| archives :=
              VArr (map value_of_session (sessions_without id sessions));
            isArchivesOpen := false |}.
Proof.
  intros Ht. eexists. split.
  - unfold deleteSession. cbn [archives isArchivesOpen].
    rewrite (without_id_map value_of_session ChatSession.id) by done.
    fold (sessions_without id sessions). reflexivity.
  - cbn zeta.
    change (default (js "undefined") (JSON_stringify ?v)) with (serialize v).
    apply reload_sessions. by apply filter_Forall.
Qed.

(** X2: saving the current messages and then deleting the session with the
    id just given leaves, in the state and in the store, the sessions
    archived before that have another id: the new session is gone, and with
    it every older session that was saved at the same reading of the clock.
    When no older session has that id, the archive is what it was before
    the save. *)
Theorem saved_session_can_be_deleted (now_id now : Z)
  (messages : list ChatMessage.t) (old : list ChatSession.t) (isOpen : bool)
  (localStorage : gmap jsstring jsstring) :
  messages <> [] ->
  Forall timely_session old ->
  exists st1 localStorage1 localStorage2,
    saveCurrentSession now_id now messages
      {| archives := VArr (map value_of_session old);
         isArchivesOpen := isOpen |} localStorage
    = Some (st1, localStorage1)
    /\ deleteSession (Z_toString now_id) st1 localStorage1
       = Some ({| archives :=
                    VArr (map value_of_session
                            (sessions_without (Z_toString now_id) old));
                  isArchivesOpen := true |}, localStorage2)
    /\ loadArchives localStorage2 initial
       = {| archives :=
              VArr (map value_of_session
                      (sessions_without (Z_toString now_id) old));
            isArchivesOpen := false |}
    /\ (Forall (fun s => ChatSession.id s <> Z_toString now_id) old ->
        sessions_without (Z_toString now_id) old = old).
Proof.
  intros Hmessages Hold. destruct messages as [|first rest]; [done |].
  eexists _, _, _. split; [apply saveCurrentSession_stores |]. split.
  - unfold deleteSession. cbn [archives isArchivesOpen].
    change (value_of_session ?s :: map value_of_session old)
      with (map value_of_session (s :: old)).
    rewrite (without_id_map value_of_session ChatSession.id) by done.
    cbn [List.filter new_session ChatSession.id].
    rewrite bool_decide_eq_true_2 by done. cbn [negb].
    fold (sessions_without (Z_toString now_id) old). reflexivity.
  - split.
    + cbn zeta.
      change (default (js "undefined") (JSON_stringify ?v))
        with (serialize v).
      apply reload_sessions. by apply filter_Forall.
    + clear. unfold sessions_without.
      induction 1 as [|s l Hs Hl IH]; [done |]. cbn.
      rewrite bool_decide_eq_false_2 by done. cbn. by rewrite IH.
Qed.

(** X3: the title [saveCurrentSession] gives a session is never empty and
    has at most 43 units: it is the text of the first message when that has
    between 1 and 40 units, its first 40 units followed by three dots when
    it is longer, and [Untitled Investigation] when it is empty. *)
Theorem session_title_bounds (now_id now : Z)
  (messages : list ChatMessage.t) (first : ChatMessage.t) :
  let text := ChatMessage.text first in
  let title := ChatSession.title (new_session now_id now messages first) in
  title <> []
  /\ (length title <= 43)%nat
  /\ (text = [] -> title = js "Untitled Investigation")
  /\ (text <> [] -> (length text <= 40)%nat -> title = text)
  /\ ((40 < length text)%nat -> title = take 40 text ++ js "...").
Proof.
  cbn zeta. cbn [new_session ChatSession.title].
  destruct (Nat.ltb_spec 40 (length (ChatMessage.text first)))
    as [Hlong | Hshort].
  - assert (length (take 40 (ChatMessage.text first)) = 40%nat) as Hlen
      by (rewrite length_take; lia).
    destruct (take 40 (ChatMessage.text first)) as [|c t] eqn:Htake;
      [discriminate Hlen |].
    cbn [or_str truthy_str app]. rewrite app_comm_cons.
    split; [done |]. split; [rewrite length_app, Hlen; cbn; lia |].
    split; [intros H; rewrite H in Hlong; cbn in Hlong; lia |].
    split; [lia | done].
  - rewrite app_nil_r, take_ge by lia.
    destruct (ChatMessage.text first) as [|c t] eqn:Htext.
    + cbn. split; [done |]. split; [lia |]. split; [done |].
      split; [done | lia].
    + cbn [or_str truthy_str]. split; [done |]. split; [cbn in *; lia |].
      split; [done |]. split; [done | cbn in *; lia].
Qed.

Import Examples.

Lemma deleted_session_stays_deleted_witness :
  exists localStorage',
    deleteSession (js "1690000000000")
      {| archives := VArr (map value_of_session [archived; archived]);
         isArchivesOpen := true |} ∅
    = Some ({| archives :=
                 VArr (map value_of_session
                         (sessions_without (js "1690000000000")
                            [archived; archived]));
               isArchivesOpen := true |}, localStorage')
    /\ loadArchives localStorage' initial
       = {| archives :=
              VArr (map value_of_session
                      (sessions_without (js "1690000000000")
                         [archived; archived]));
            isArchivesOpen := false |}.
Proof.
  apply (deleted_session_stays_deleted (js "1690000000000")
           [archived; archived] true ∅).
  repeat constructor; unfold safe_integer; cbn; lia.
Defined.

Lemma saved_session_can_be_deleted_witness :
  exists st1 localStorage1 localStorage2,
    saveCurrentSession 1700000009000 1700000009001 [asked; answered]
      {| archives := VArr (map value_of_session [archived]);
         isArchivesOpen := false |} ∅
    = Some (st1, localStorage1)
    /\ deleteSession (Z_toString 1700000009000) st1 localStorage1
       = Some ({| archives :=
                    VArr (map value_of_session
                            (sessions_without (Z_toString 1700000009000)
                               [archived]));
                  isArchivesOpen := true |}, localStorage2)
    /\ loadArchives localStorage2 initial
       = {| archives :=
              VArr (map value_of_session
                      (sessions_without (Z_toString 1700000009000)
                         [archived]));
            isArchivesOpen := false |}
    /\ (Forall (fun s => ChatSession.id s <> Z_toString 1700000009000)
          [archived] ->
        sessions_without (Z_toString 1700000009000) [archived] = [archived]).
Proof.
  apply (saved_session_can_be_deleted 1700000009000 1700000009001
           [asked; answered] [archived] false ∅).
  - discriminate.
  - repeat constructor; unfold safe_integer; cbn; lia.
Defined.

End ArchiveFacts.

(** ** Sending a message *)

Module DispatchFacts.
Import Gemini GeminiFacts.

(** Every call of [queryWebNetwork] resolves, with a text that is not
    empty, after the primary request, or the primary one and the backup
    one. *)
Lemma queryWebNetwork_answers
  (generateContent : Request -> outcome GenerateContentResponse)
  (currentDate query : jsstring) (visualData visualMimeType : option jsstring)
  (activeNode : BotMode) (log : list Request) :
  exists r sent,
    queryWebNetwork generateContent currentDate query visualData
      visualMimeType activeNode log = (Resolved r, log ++ sent)
    /\ text r <> []
    /\ (sent = [request_for currentDate query visualData visualMimeType
                  activeNode CORE_PROTOCOL]
        \/ sent = [request_for currentDate query visualData visualMimeType
                     activeNode CORE_PROTOCOL;
                   request_for currentDate query visualData visualMimeType
                     activeNode BACKUP_PROTOCOL]).
Proof.
  destruct (generateContent
              (request_for currentDate query visualData visualMimeType
                 activeNode CORE_PROTOCOL)) as [resp | e] eqn:Hcore.
  - eexists _, _. split; [by apply primary_answers |].
    split; [apply packaged_nonempty | by left].
  - destruct (isTrafficError e) eqn:Htraffic.
    + destruct (generateContent
                  (request_for currentDate query visualData visualMimeType
                     activeNode BACKUP_PROTOCOL)) as [resp | e'] eqn:Hbackup.
      * eexists _, _. split; [by eapply backup_answers |].
        split; [|by right].
        cbn. intros H. apply app_eq_nil in H as [_ H]. discriminate H.
      * eexists _, _. split; [by eapply backup_fails |].
        split; [done | by right].
    + eexists _, _. split; [by eapply primary_fails_other |].
      split; [done | by left].
Qed.

End DispatchFacts.

Module SendSpec.
Import Gemini ChatMode DispatchFacts.

Section Send.

Variable generateContent : Request -> outcome GenerateContentResponse.
Variable currentDate : jsstring.
Variable File : Type.
Variable file_type : File -> jsstring.
Variable fileToBase64 : File -> outcome jsstring.

Let send := handleSend generateContent currentDate File file_type fileToBase64.

(** X4: [handleSend] does nothing at all (no message shown, no request
    sent, the state untouched) exactly when an answer is awaited already,
    or when no file is selected and the text typed is empty or white space
    only. *)
Theorem handleSend_ignored_iff (user_at bot_at : Z * Z)
  (messages : list ChatMessage.t) (st : Composer File) (log : list Request) :
  (trim (inputText st) = [] /\ selectedImage st = None
   \/ isLoading st = true)
  <-> send user_at bot_at messages st log
      = {| settled := Resolved tt; shown := []; composer := st;
           requests := log |}.
Proof.
  unfold send, handleSend, nothing_to_send. split.
  - intros [[-> ->] | ->]; [done |]. by rewrite orb_true_r.
  - destruct (isLoading st); [by right |]. rewrite orb_false_r.
    destruct (trim (inputText st)) as [|c t] eqn:Htrim.
    + destruct (selectedImage st) as [file|] eqn:Himage; [|by left].
      cbn [truthy_str negb andb].
      destruct (truthy_opt (imagePreview st)).
      * destruct (fileToBase64 file); [|discriminate].
        destruct (queryWebNetwork _ _ _ _ _ _ _) as [[] ?]; discriminate.
      * destruct (queryWebNetwork _ _ _ _ _ _ _) as [[] ?]; discriminate.
    + cbn [truthy_str negb andb].
      destruct (selectedImage st) as [file|].
      * destruct (truthy_opt (imagePreview st)).
        -- destruct (fileToBase64 file); [|discriminate].
           destruct (queryWebNetwork _ _ _ _ _ _ _) as [[] ?]; discriminate.
        -- destruct (queryWebNetwork _ _ _ _ _ _ _) as [[] ?]; discriminate.
      * destruct (queryWebNetwork _ _ _ _ _ _ _) as [[] ?]; discriminate.
Qed.

(** X5: when there is something to send and the file attached, if any, can
    be read, [handleSend] resolves after one or two requests, having shown
    first the messages with the message of the user (the text as typed)
    added, then the same with the message of the model after it, whose text
    is never empty, whatever the service did; it leaves the input empty and
    the component no longer loading. *)
Theorem handleSend_shows_question_then_answer (user_at bot_at : Z * Z)
  (messages : list ChatMessage.t) (st : Composer File) (log : list Request) :
  nothing_to_send st = false ->
  (forall file,
     selectedImage st = Some file ->
     truthy_opt (imagePreview st) = true ->
     exists rawBase64, fileToBase64 file = Resolved rawBase64) ->
  exists response sent,
    let user := userMessage user_at.1 user_at.2 st in
    let bot := botMessage bot_at.1 bot_at.2 response in
    let r := send user_at bot_at messages st log in
    settled r = Resolved tt
    /\ shown r = [messages ++ [user]; messages ++ [user; bot]]
    /\ ChatMessage.text user = inputText st
    /\ ChatMessage.role bot = role_model
    /\ ChatMessage.text bot <> []
    /\ requests r = log ++ sent
    /\ (1 <= length sent <= 2)%nat
    /\ isLoading (composer r) = false
    /\ inputText (composer r) = [].
Proof.
  intros Hguard Hread. unfold send, handleSend. rewrite Hguard.
  set (user := userMessage user_at.1 user_at.2 st).
  assert (forall imageBase64 imageMimeType,
            exists response sent,
              queryWebNetwork generateContent currentDate
                (ChatMessage.text user) imageBase64 imageMimeType
                (activeBotMode st) log = (Resolved response, log ++ sent)
              /\ text response <> []
              /\ (1 <= length sent <= 2)%nat) as Hanswer.
  { intros b m.
    destruct (queryWebNetwork_answers generateContent currentDate
                (ChatMessage.text user) b m (activeBotMode st) log)
      as (response & sent & Hrun & Htext & [-> | ->]);
      exists response; eexists; (split; [exact Hrun |]);
      (split; [exact Htext | cbn; lia]). }
  destruct (selectedImage st) as [file|] eqn:Himage.
  - destruct (truthy_opt (imagePreview st)) eqn:Hpreview.
    + destruct (Hread file eq_refl eq_refl) as [raw ->].
      destruct (Hanswer (Some raw) (Some (file_type file)))
        as (response & sent & -> & Htext & Hsent).
      exists response, sent. by repeat split; try lia.
    + destruct (Hanswer None None) as (response & sent & -> & Htext & Hsent).
      exists response, sent. by repeat split; try lia.
  - destruct (Hanswer None None) as (response & sent & -> & Htext & Hsent).
    exists response, sent. by repeat split; try lia.
Qed.

(** X6: when the file attached cannot be read, [handleSend] rejects with
    the error of the read after it has shown the message of the user; it
    sends no request and leaves the component loading, so that every later
    call of [handleSend], whatever is typed by then, is ignored. *)
Theorem failed_image_read_blocks_the_chat (user_at bot_at : Z * Z)
  (messages : list ChatMessage.t) (st : Composer File) (log : list Request)
  (file : File) (e : JsError) :
  isLoading st = false ->
  selectedImage st = Some file ->
  truthy_opt (imagePreview st) = true ->
  fileToBase64 file = Rejected e ->
  let r := send user_at bot_at messages st log in
  settled r = Rejected e
  /\ shown r = [messages ++ [userMessage user_at.1 user_at.2 st]]
  /\ requests r = log
  /\ isLoading (composer r) = true
  /\ forall user_at' bot_at' messages' typed log',
       send user_at' bot_at' messages' (setInputText typed (composer r)) log'
       = {| settled := Resolved tt; shown := [];
            composer := setInputText typed (composer r);
            requests := log' |}.
Proof.
  intros Hidle Himage Hpreview Hread. cbn zeta.
  unfold send, handleSend, nothing_to_send.
  rewrite Hidle, Himage, Hpreview, Hread, andb_false_r. cbn.
  repeat split. intros. by rewrite orb_true_r.
Qed.

(** X7: the mode selected has no effect on a call of [handleSend]: the
    system instruction does not depend on it, so the requests are the same
    for every mode, and so are the messages shown and the way the call
    ends. *)
Theorem bot_mode_changes_nothing (user_at bot_at : Z * Z)
  (messages : list ChatMessage.t) (st : Composer File) (log : list Request)
  (mode : BotMode) :
  let r := send user_at bot_at messages st log in
  let r' := send user_at bot_at messages (setActiveBotMode mode st) log in
  settled r' = settled r
  /\ shown r' = shown r
  /\ requests r' = requests r
  /\ composer r' = setActiveBotMode mode (composer r).
Proof.
  cbn zeta. unfold send, handleSend.
  change (nothing_to_send (setActiveBotMode mode st))
    with (nothing_to_send st).
  destruct (nothing_to_send st); [done |].
  cbn [selectedImage imagePreview setActiveBotMode activeBotMode].
  change (userMessage user_at.1 user_at.2
            {| inputText := inputText st; isLoading := isLoading st;
               selectedImage := selectedImage st;
               imagePreview := imagePreview st; activeBotMode := mode |})
    with (userMessage user_at.1 user_at.2 st).
  assert (forall b m,
            queryWebNetwork generateContent currentDate
              (ChatMessage.text (userMessage user_at.1 user_at.2 st)) b m mode
              log
            = queryWebNetwork generateContent currentDate
                (ChatMessage.text (userMessage user_at.1 user_at.2 st)) b m
                (activeBotMode st) log) as Hmode by reflexivity.
  destruct (selectedImage st) as [file|].
  - destruct (truthy_opt (imagePreview st)).
    + destruct (fileToBase64 file) as [raw | e]; [|done].
      rewrite Hmode.
      by destruct (queryWebNetwork _ _ _ _ _ (activeBotMode st) _) as [[] ?].
    + rewrite Hmode.
      by destruct (queryWebNetwork _ _ _ _ _ (activeBotMode st) _) as [[] ?].
  - rewrite Hmode.
    by destruct (queryWebNetwork _ _ _ _ _ (activeBotMode st) _) as [[] ?].
Qed.

(** X8: what becomes of a selected file. While its preview is not there,
    the message of the user shows no image, the requests carry the text
    only and the file stays selected. Once the preview is there and the file
    is read, the message shows the preview and the selection is cleared,
    but the requests carry the image only when both the text read from the
    file and the type of the file are not empty; otherwise they carry the
    text typed alone. *)
Theorem attachment_sent_only_when_complete (user_at bot_at : Z * Z)
  (messages : list ChatMessage.t) (st : Composer File) (log : list Request)
  (file : File) :
  isLoading st = false ->
  selectedImage st = Some file ->
  let r := send user_at bot_at messages st log in
  let user := userMessage user_at.1 user_at.2 st in
  let text_only := ContentParts (js "user") [textPart (inputText st)] in
  (truthy_opt (imagePreview st) = false ->
   ChatMessage.imageUrl user = None
   /\ selectedImage (composer r) = Some file
   /\ exists sent,
        requests r = log ++ sent /\ sent <> []
        /\ Forall (fun req => contents req = text_only) sent)
  /\ (forall rawBase64,
        truthy_opt (imagePreview st) = true ->
        fileToBase64 file = Resolved rawBase64 ->
        ChatMessage.imageUrl user = imagePreview st
        /\ selectedImage (composer r) = None
        /\ imagePreview (composer r) = None
        /\ exists sent,
             requests r = log ++ sent /\ sent <> []
             /\ Forall
                  (fun req =>
                     contents req
                     = if truthy_str rawBase64 && truthy_str (file_type file)
                       then ContentParts (js "user")
                              [inlineData rawBase64 (file_type file);
                               textPart (inputText st)]
                       else text_only)
                  sent).
Proof.
  intros Hidle Himage. cbn zeta. unfold send, handleSend, nothing_to_send.
  rewrite Hidle, Himage, andb_false_r. cbn [orb]. split.
  - intros Hpreview. rewrite Hpreview.
    destruct (queryWebNetwork_answers generateContent currentDate
                (inputText st) None None (activeBotMode st) log)
      as (response & sent & Hrun & _ & Hsent).
    cbn [userMessage ChatMessage.text ChatMessage.imageUrl].
    rewrite Hrun, Hpreview. cbn. split; [done |]. split; [done |].
    exists sent. split; [done |].
    destruct Hsent as [-> | ->]; (split; [done |]); by repeat constructor.
  - intros raw Hpreview Hread. rewrite Hpreview, Hread.
    destruct (queryWebNetwork_answers generateContent currentDate
                (inputText st) (Some raw) (Some (file_type file))
                (activeBotMode st) log)
      as (response & sent & Hrun & _ & Hsent).
    cbn [userMessage ChatMessage.text ChatMessage.imageUrl].
    rewrite Hrun, Hpreview. cbn. split; [done |]. split; [done |].
    split; [done |]. exists sent. split; [done |].
    destruct Hsent as [-> | ->]; (split; [done |]);
      repeat constructor; cbn; unfold dataPackets;
      by destruct (truthy_str raw && truthy_str (file_type file)).
Qed.

End Send.

(** X9: under a message that [handleSend] made of a response, every source
    chip carries a link that is not empty and a label that is not empty:
    chunks without a [uri] are filtered out, and a source without a title
    is labelled [Web Source]. *)
Theorem answer_chips_have_links (now_id now : Z) (response : WebResponse) :
  Forall (fun chip =>
            (exists href, chip.1 = Some href /\ href <> []) /\ chip.2 <> [])
    (MessageBubble.footprint (botMessage now_id now response)).
Proof.
  unfold MessageBubble.footprint, botMessage, sources_of.
  cbn [ChatMessage.role ChatMessage.sources].
  destruct (groundingChunks response) as [chunks|]; [|constructor].
  induction chunks as [|chunk chunks IH]; [constructor |].
  cbn [map List.filter].
  destruct (truthy_opt (Source.uri (to_source chunk))) eqn:Huri; [|done].
  cbn [map]. constructor; [|done]. cbn [fst snd]. split.
  - destruct (Source.uri (to_source chunk)) as [[|c u]|]; try done.
    by eexists.
  - by apply or_str_nonempty.
Qed.

Import Examples.

Lemma handleSend_shows_question_then_answer_witness :
  exists response sent,
    let user := userMessage 1700000000000 1700000000001 (composing None) in
    let bot := botMessage 1700000004000 1700000004001 response in
    let r :=
      handleSend (always (Resolved (answer (js "A hijacker.")))) today
        Upload upload_type upload_read
        (1700000000000, 1700000000001)%Z (1700000004000, 1700000004001)%Z []
        (composing None) [] in
    settled r = Resolved tt
    /\ shown r = [[] ++ [user]; [] ++ [user; bot]]
    /\ ChatMessage.text user = inputText (composing None)
    /\ ChatMessage.role bot = role_model
    /\ ChatMessage.text bot <> []
    /\ requests r = [] ++ sent
    /\ (1 <= length sent <= 2)%nat
    /\ isLoading (composer r) = false
    /\ inputText (composer r) = [].
Proof.
  apply (handleSend_shows_question_then_answer
           (always (Resolved (answer (js "A hijacker.")))) today Upload
           upload_type upload_read (1700000000000, 1700000000001)%Z
           (1700000004000, 1700000004001)%Z [] (composing None) []).
  - reflexivity.
  - intros file Hfile. discriminate Hfile.
Defined.

Lemma failed_image_read_blocks_the_chat_witness :
  let r :=
    handleSend (always (Resolved (answer (js "A hijacker.")))) today
      Upload upload_type upload_read
      (1700000000000, 1700000000001)%Z (1700000004000, 1700000004001)%Z []
      (composing (Some unreadable)) [] in
  settled r = Rejected (Error (js "NotReadableError"))
  /\ requests r = []
  /\ isLoading (composer r) = true.
Proof.
  destruct (failed_image_read_blocks_the_chat
              (always (Resolved (answer (js "A hijacker.")))) today Upload
              upload_type upload_read (1700000000000, 1700000000001)%Z
              (1700000004000, 1700000004001)%Z [] (composing (Some unreadable))
              [] unreadable (Error (js "NotReadableError")) eq_refl eq_refl
              eq_refl eq_refl)
    as (Hsettled & _ & Hrequests & Hloading & _).
  cbn zeta. split; [exact Hsettled |]. split; [exact Hrequests |].
  exact Hloading.
Defined.

Lemma attachment_sent_only_when_complete_witness :
  let r :=
    handleSend (always (Resolved (answer (js "A hijacker.")))) today
      Upload upload_type upload_read
      (1700000000000, 1700000000001)%Z (1700000004000, 1700000004001)%Z []
      (composing (Some snapshot)) [] in
  selectedImage (composer r) = None
  /\ exists sent,
       requests r = [] ++ sent /\ sent <> []
       /\ Forall
            (fun req =>
               contents req
               = ContentParts (js "user")
                   [inlineData (js "iVBORw0KGgo=") (js "image/png");
                    textPart question])
            sent.
Proof.
  destruct (attachment_sent_only_when_complete
              (always (Resolved (answer (js "A hijacker.")))) today Upload
              upload_type upload_read (1700000000000, 1700000000001)%Z
              (1700000004000, 1700000004001)%Z [] (composing (Some snapshot))
              [] snapshot eq_refl eq_refl) as [_ Hsent].
  destruct (Hsent (js "iVBORw0KGgo=") eq_refl eq_refl)
    as (_ & Hcleared & _ & Hrequests).
  cbn zeta. split; [exact Hcleared | exact Hrequests].
Defined.

End SendSpec.

(** ** The script view: the history, the download and the generation *)

Module ScriptSpec.
Import Gemini ScriptMode JsonFacts ArchiveSpec StoreFacts.

Lemma value_of_script_storable (s : SavedScript.t) :
  timely_script s -> storable (value_of_script s).
Proof.
  intros Ht. apply storable_object. split; [reflexivity |].
  repeat (apply Forall_cons; split); try apply Forall_nil; cbn; done.
Qed.


Lemma reload_scripts (scripts : list SavedScript.t)
  (localStorage : gmap jsstring jsstring) :
  Forall timely_script scripts ->
  loadHistory
    (<[STORAGE_KEY := serialize (VArr (map value_of_script scripts))]>
       localStorage) initial
  = setSavedScripts (VArr (map value_of_script scripts)) initial.
Proof.
  intros Ht. unfold loadHistory. rewrite lookup_insert_eq.
  rewrite JSON_parse_serialize; [done |].
  apply (storable_map value_of_script).
  eapply Forall_impl; [exact Ht |]. apply value_of_script_storable.
Qed.


(** X11: [deleteScript] on a history of saved scripts does not throw; it
    keeps, in their order, the scripts whose id is not the one given, and
    writes the list to the store, so that a component mounted afresh on that
    store shows the scripts kept. *)
Theorem deleted_script_stays_deleted (id : jsstring) (st : State)
  (scripts : list SavedScript.t) (localStorage : gmap jsstring jsstring) :
  savedScripts st = VArr (map value_of_script scripts) ->
  Forall timely_script scripts ->
  exists localStorage',
    let kept := VArr (map value_of_script (scripts_without id scripts)) in
    deleteScript id st localStorage
    = Some (setSavedScripts kept st, localStorage')
    /\ savedScripts (loadHistory localStorage' initial) = kept.
Proof.
  intros Hscripts Ht. unfold deleteScript. rewrite Hscripts.
  rewrite (without_id_map value_of_script SavedScript.id) by done.
  eexists. cbn zeta. split; [reflexivity |].
  change (default (js "undefined") (JSON_stringify ?v)) with (serialize v).
  fold (scripts_without id scripts).
  rewrite reload_scripts; [done |]. by apply filter_Forall.
Qed.

Lemma underscored_no_space (s : jsstring) :
  Forall (fun c => is_white_space c = false) (underscored s).
Proof.
  induction s as [|c s IH]; [constructor |]. cbn [underscored].
  destruct (is_white_space c) eqn:Hc.
  - destruct (match s with d :: _ => is_white_space d | [] => false end);
      [done | by constructor].
  - by constructor.
Qed.

Lemma underscored_nonempty (s : jsstring) : s <> [] -> underscored s <> [].
Proof.
  induction s as [|c s IH]; [done |]. intros _. cbn [underscored].
  destruct (is_white_space c); [|done].
  destruct s as [|d s]; [done |].
  destruct (is_white_space d); [by apply IH | done].
Qed.

Lemma underscored_same (s : jsstring) :
  Forall (fun c => is_white_space c = false) s -> underscored s = s.
Proof.
  induction 1 as [|c s Hc Hs IH]; [done |]. cbn [underscored].
  by rewrite Hc, IH.
Qed.

(** X12: [downloadScript] downloads nothing while there is no script.
    Otherwise the blob is the script, and the name of the file holds no
    white space and is [.md] after a stem that is not empty: [case.md] when
    the topic is empty, the topic itself before [.md] when the topic holds
    no white space. *)
Theorem download_name_has_no_space (st : State) :
  match downloadScript st with
  | None => generatedScript st = []
  | Some d =>
      generatedScript st <> []
      /\ blob d = generatedScript st
      /\ Forall (fun c => is_white_space c = false) (download d)
      /\ (exists stem, download d = stem ++ js ".md" /\ stem <> [])
      /\ (ScriptParams.topic (params st) = [] -> download d = js "case.md")
      /\ (ScriptParams.topic (params st) <> [] ->
          Forall (fun c => is_white_space c = false)
            (ScriptParams.topic (params st)) ->
          download d = ScriptParams.topic (params st) ++ js ".md")
  end.
Proof.
  unfold downloadScript. destruct (generatedScript st) as [|c t]; [done |].
  cbn [truthy_str download blob]. split; [done |]. split; [done |].
  split.
  { apply Forall_app. split; [apply underscored_no_space |].
    by repeat constructor. }
  split.
  { eexists. split; [reflexivity |]. apply underscored_nonempty.
    by apply or_str_nonempty. }
  split.
  - by intros ->.
  - intros Htopic Hclean.
    destruct (ScriptParams.topic (params st)) as [|d topic]; [done |].
    cbn [or_str truthy_str]. by rewrite underscored_same.
Qed.

Import Examples.


Lemma deleted_script_stays_deleted_witness :
  exists localStorage',
    let kept :=
      VArr (map value_of_script
              (scripts_without (js "1690000000000") [filed])) in
    deleteScript (js "1690000000000")
      (setSavedScripts (VArr (map value_of_script [filed])) drafted) ∅
    = Some (setSavedScripts kept
              (setSavedScripts (VArr (map value_of_script [filed])) drafted),
            localStorage')
    /\ savedScripts (loadHistory localStorage' initial) = kept.
Proof.
  apply (deleted_script_stays_deleted (js "1690000000000")
           (setSavedScripts (VArr (map value_of_script [filed])) drafted)
           [filed] ∅).
  - reflexivity.
  - repeat constructor; unfold timely_script, safe_integer; cbn; lia.
Defined.

End ScriptSpec.

Module GenerateSpec.
Import Gemini ScriptMode DispatchFacts.

Section Generate.

Variable generateContent : Request -> outcome GenerateContentResponse.
Variables currentDate today : jsstring.

Let generate := handleGenerate generateContent currentDate today.

Let report (topic : jsstring) (st : State) : Async WebResponse :=
  compileWebReport generateContent currentDate today topic
    (ScriptParams.channelName (params st))
    (ScriptParams.wordCount (params st))
    (ScriptParams.tone (params st)) (includeConspiracies st).

(** X13: [handleGenerate] does nothing when the topic to use (the one
    passed if it is not empty, the one of the form otherwise) or the channel
    is empty. Otherwise it ends, after one or two requests, with the
    component no longer generating, and the script is the text of the
    response of [compileWebReport] as it came, never empty, suggestion lines
    included: the suggestions shown are those of that text, and the topic of
    the form is the topic used. The history is untouched. *)
Theorem handleGenerate_keeps_the_raw_answer
  (overrideTopic : option jsstring) (st : State) (log : list Request) :
  let topicToUse := or_str overrideTopic (ScriptParams.topic (params st)) in
  (topicToUse = [] \/ ScriptParams.channelName (params st) = [] ->
   generate overrideTopic st log = (st, log))
  /\ (topicToUse <> [] ->
      ScriptParams.channelName (params st) <> [] ->
      exists response sent,
        let st' := (generate overrideTopic st log).1 in
        report topicToUse st log = (Resolved response, log ++ sent)
        /\ (generate overrideTopic st log).2 = log ++ sent
        /\ (1 <= length sent <= 2)%nat
        /\ isGenerating st' = false
        /\ generatedScript st' = text response
        /\ generatedScript st' <> []
        /\ suggestions st' = parseSuggestions (text response)
        /\ copied st' = false
        /\ ScriptParams.topic (params st') = topicToUse
        /\ ScriptParams.channelName (params st')
           = ScriptParams.channelName (params st)
        /\ savedScripts st' = savedScripts st).
Proof.
  cbn zeta. unfold generate, handleGenerate. split.
  - intros [-> | ->]; [done |]. by rewrite orb_true_r.
  - intros Htopic Hchannel.
    destruct (or_str overrideTopic (ScriptParams.topic (params st)))
      as [|c topic] eqn:Huse; [done |].
    destruct (ScriptParams.channelName (params st)) as [|d channel] eqn:Hch;
      [done |].
    cbn [truthy_str negb orb]. unfold report, compileWebReport. rewrite Hch.
    destruct (queryWebNetwork_answers generateContent currentDate
                (report_prompt today (c :: topic) (d :: channel)
                   (ScriptParams.wordCount (params st))
                   (ScriptParams.tone (params st)) (includeConspiracies st))
                None None creative log)
      as (response & sent & Hrun & Htext & Hsent).
    exists response, sent. rewrite Hrun. cbn [fst snd].
    split; [done |]. split; [done |].
    split; [destruct Hsent as [-> | ->]; cbn; lia |].
    unfold suggestionsEffect.
    destruct overrideTopic as [[|c' t]|]; cbn in Huse;
      cbn [truthy_str isGenerating generatedScript suggestions copied params
           savedScripts setParams setGeneratedScript setSuggestions
           setIsGenerating setCopied ScriptParams.topic
           ScriptParams.channelName];
      by rewrite ?Hch.
Qed.

(** X14: when the service rejects every request, a generation still ends
    with a script: the connection-error text or the system-overload text of
    the dispatcher, which the component holds like any script (it can be
    downloaded), with no suggestion and the component no longer
    generating. *)
Theorem failed_generation_becomes_the_script
  (overrideTopic : option jsstring) (st : State) (log : list Request) :
  or_str overrideTopic (ScriptParams.topic (params st)) <> [] ->
  ScriptParams.channelName (params st) <> [] ->
  (forall req, exists e, generateContent req = Rejected e) ->
  let st' := (generate overrideTopic st log).1 in
  (generatedScript st' = CONNECTION_ERROR
   \/ generatedScript st' = SYSTEM_OVERLOAD)
  /\ suggestions st' = []
  /\ isGenerating st' = false
  /\ downloadScript st' <> None.
Proof.
  intros Htopic Hchannel Hdown. cbn zeta. unfold generate, handleGenerate.
  destruct (or_str overrideTopic (ScriptParams.topic (params st)))
    as [|c topic] eqn:Huse; [done |].
  destruct (ScriptParams.channelName (params st)) as [|d channel] eqn:Hch;
    [done |].
  cbn [truthy_str negb orb]. unfold compileWebReport.
  set (prompt := report_prompt _ _ _ _ _ _).
  destruct (Hdown (request_for currentDate prompt None None creative
                     CORE_PROTOCOL)) as [e He].
  destruct (isTrafficError e) eqn:Htraffic.
  - destruct (Hdown (request_for currentDate prompt None None creative
                       BACKUP_PROTOCOL)) as [e' He'].
    rewrite (GeminiFacts.backup_fails _ _ _ _ _ _ _ _ _ He Htraffic He').
    cbn [fst]. split; [by right |]. by repeat split.
  - rewrite (GeminiFacts.primary_fails_other _ _ _ _ _ _ _ _ He Htraffic).
    cbn [fst]. split; [by left |]. by repeat split.
Qed.

End Generate.

Import Examples.

Lemma failed_generation_becomes_the_script_witness :
  let st' :=
    (handleGenerate (always (Rejected offline)) today (js "11/2/2026") None
       drafted []).1 in
  (generatedScript st' = CONNECTION_ERROR
   \/ generatedScript st' = SYSTEM_OVERLOAD)
  /\ suggestions st' = []
  /\ isGenerating st' = false
  /\ downloadScript st' <> None.
Proof.
  apply (failed_generation_becomes_the_script (always (Rejected offline))
           today (js "11/2/2026") None drafted []).
  - discriminate.
  - discriminate.
  - intros req. exists offline. reflexivity.
Defined.

End GenerateSpec.

(** ** The footage search *)

Module StockSpec.
Import Gemini StockMode.

Lemma trim_nonempty (s : jsstring) : trim s <> [] -> s <> [].
Proof. by intros H ->. Qed.

Section Search.

Variable generateContent : Request -> outcome GenerateContentResponse.

Lemma findStockFootage_resolves (query : jsstring) (log : list Request) :
  exists videos,
    findStockFootage generateContent query log
    = (Resolved videos, log ++ [stock_request query])
    /\ (forall e,
          generateContent (stock_request query) = Rejected e -> videos = []).
Proof.
  unfold findStockFootage, try_catch, bind, await_generateContent.
  destruct (generateContent (stock_request query)) as [response | e];
    [|by eexists].
  destruct (json_match _) as [m|]; [|by eexists].
  destruct (JSON_parse m) as [v|]; [|by eexists].
  destruct v; try by eexists.
  destruct (map_stock_videos query items); by eexists.
Qed.

(** X15: [handleSearch] does nothing when the query is empty or white space
    only. Otherwise it sends the one request of [findStockFootage], for the
    query as typed, and ends no longer loading with the videos found as
    results; the notice that nothing was found is shown exactly when there
    are none, as when the service rejects the request. *)
Theorem handleSearch_settles (st : State) (log : list Request) :
  (trim (query st) = [] -> handleSearch generateContent st log = (st, log))
  /\ (trim (query st) <> [] ->
      exists videos,
        let st' := {| query := query st; results := videos;
                      loading := false |} in
        findStockFootage generateContent (query st) log
        = (Resolved videos, log ++ [stock_request (query st)])
        /\ handleSearch generateContent st log
           = (st', log ++ [stock_request (query st)])
        /\ (nothing_found st' = true <-> videos = [])
        /\ (forall e,
              generateContent (stock_request (query st)) = Rejected e ->
              videos = [])).
Proof.
  unfold handleSearch. split.
  - by intros ->.
  - intros Hquery. pose proof (trim_nonempty _ Hquery) as Hraw.
    destruct (trim (query st)) as [|c t]; [done |]. cbn [truthy_str negb].
    destruct (findStockFootage_resolves (query st) log)
      as (videos & Hrun & Hfail).
    exists videos. rewrite Hrun. cbn zeta. split; [done |]. split; [done |].
    split; [|done]. unfold nothing_found. cbn [loading results query].
    destruct (query st) as [|d q]; [done |]. cbn [truthy_str negb andb].
    rewrite andb_true_r, Nat.eqb_eq. by destruct videos.
Qed.

End Search.

End StockSpec.

(** ** Links to videos *)

Module LinkSpec.
Import YouTubeEmbed.

(** Literals as lists of code units. *)
Ltac units :=
  repeat match goal with
         | |- context [js ?s] =>
             let l := eval vm_compute in (js s) in change (js s) with l
         end.

Lemma forallb_Forall {A} (f : A -> bool) (l : list A) :
  forallb f l = true <-> Forall (fun x => f x = true) l.
Proof.
  induction l as [|x l IH]; cbn; [by split |].
  rewrite andb_true_iff, IH, Forall_cons. done.
Qed.

Lemma take_id_app (id rest : jsstring) :
  length id = 11%nat -> forallb is_id_char id = true ->
  take_id (id ++ rest) = Some id.
Proof.
  intros Hlen Hid. unfold take_id.
  rewrite take_app_length' by done. by rewrite Hlen, Hid.
Qed.

Lemma take_id_some (s id : jsstring) :
  take_id s = Some id ->
  length id = 11%nat /\ forallb is_id_char id = true
  /\ exists rest, s = id ++ rest.
Proof.
  unfold take_id. intros H.
  destruct (length (take 11 s) =? 11)%nat eqn:Hlen; [|done].
  destruct (forallb is_id_char (take 11 s)) eqn:Hid; [|done].
  injection H as <-. apply Nat.eqb_eq in Hlen.
  split; [done |]. split; [done |]. exists (drop 11 s).
  by rewrite take_drop.
Qed.

Lemma after_literal_some (lit : jsstring) (k : jsstring -> option jsstring)
  (s id : jsstring) :
  after_literal lit k s = Some id ->
  exists r, s = lit ++ r /\ k r = Some id.
Proof.
  unfold after_literal. intros H.
  destruct (starts_with s lit) eqn:Hlit; [|done].
  apply starts_with_spec in Hlit as [r ->]. exists r. split; [done |].
  by rewrite drop_app_length in H.
Qed.

Lemma after_nonspace_some (s id : jsstring) :
  after_nonspace s = Some id ->
  exists name rest,
    s = name ++ id ++ rest
    /\ Forall (fun c => is_white_space c = false) name
    /\ length id = 11%nat /\ forallb is_id_char id = true.
Proof.
  induction s as [|c s IH]; [done |]. cbn [after_nonspace].
  destruct (is_white_space c) eqn:Hc.
  - intros H. apply take_id_some in H as (Hlen & Hid & rest & ->).
    by exists [], rest.
  - destruct (after_nonspace s) as [id'|] eqn:Hs.
    + intros [= ->]. destruct (IH eq_refl) as (name & rest & -> & Hn & Hid).
      exists (c :: name), rest. split; [done |]. split; [by constructor | done].
    + intros H. apply take_id_some in H as (Hlen & Hid & rest & ->).
      by exists [], rest.
Qed.

Lemma user_path_some (s id : jsstring) :
  user_path s = Some id ->
  exists name rest,
    s = name ++ id ++ rest /\ name <> []
    /\ Forall (fun c => is_white_space c = false) name
    /\ length id = 11%nat /\ forallb is_id_char id = true.
Proof.
  destruct s as [|c s]; [done |]. cbn [user_path].
  destruct (is_white_space c) eqn:Hc; [done |]. intros H.
  apply after_nonspace_some in H as (name & rest & -> & Hn & Hid).
  exists (c :: name), rest. split; [done |]. split; [done |].
  split; [by constructor | done].
Qed.

Lemma orelse_some (a b : option jsstring) (id : jsstring) :
  orelse a b = Some id -> a = Some id \/ b = Some id.
Proof. destruct a; cbn; intros H; [left | right]; done. Qed.

Lemma match_here_some (s id : jsstring) :
  match_here s = Some id ->
  length id = 11%nat /\ forallb is_id_char id = true /\ marked s id.
Proof.
  unfold match_here, marked, video_markers. intros H.
  apply orelse_some in H as [H | H].
  { apply after_literal_some in H as (r & -> & H).
    apply take_id_some in H as (Hlen & Hid & rest & ->).
    split; [done |]. split; [done |]. left. eexists _, rest.
    split; [|reflexivity]. apply list_elem_of_here. }
  apply after_literal_some in H as (r & -> & H).
  repeat (apply orelse_some in H as [H | H]).
  4: { apply after_literal_some in H as (r' & -> & H).
       apply user_path_some in H as (name & rest & -> & Hne & Hn & Hlen & Hid).
       split; [done |]. split; [done |]. right. by exists name, rest. }
  all: apply after_literal_some in H as (r' & -> & H).
  all: apply take_id_some in H as (Hlen & Hid & rest & ->).
  all: split; [done |]; split; [done |]; left.
  - exists (js "youtube.com/embed/"), rest. split; [set_solver | done].
  - exists (js "youtube.com/v/"), rest. split; [set_solver | done].
  - exists (js "youtube.com/watch?v="), rest. split; [set_solver | done].
  - exists (js "youtube.com/ytscreeningroom?v="), rest.
    split; [set_solver | done].
  - exists (js "youtube.com/shorts/"), rest. split; [set_solver | done].
Qed.

Lemma search_some (s id : jsstring) :
  search s = Some id ->
  exists before s', s = before ++ s' /\ match_here s' = Some id.
Proof.
  induction s as [|c s IH].
  - cbn [search]. destruct (match_here []) eqn:H; [|done].
    intros [= ->]. by exists [], [].
  - cbn [search]. destruct (match_here (c :: s)) eqn:H.
    + intros [= ->]. by exists [], (c :: s).
    + intros Hs. destruct (IH Hs) as (before & s' & -> & Hm).
      by exists (c :: before), s'.
Qed.

(** X16: an id that [getVideoId] returns has 11 units, each a letter, a
    digit, an underscore or a hyphen, and stands in the link right after one
    of the six markers of the pattern, or after [youtube.com/user/] and one
    or more units that are no white space. *)
Theorem getVideoId_sound (url id : jsstring) :
  getVideoId url = Some id ->
  length id = 11%nat
  /\ Forall (fun c => is_id_char c = true) id
  /\ ((exists marker,
         marker ∈ video_markers /\ contains url (marker ++ id))
      \/ exists name,
           name <> [] /\ Forall (fun c => is_white_space c = false) name
           /\ contains url (js "youtube.com/user/" ++ name ++ id)).
Proof.
  unfold getVideoId. destruct (truthy_str url); [|done]. intros H.
  apply search_some in H as (before & s' & -> & H).
  apply match_here_some in H as (Hlen & Hid & Hmarked).
  split; [done |]. split; [by apply forallb_Forall |].
  destruct Hmarked
    as [(marker & rest & Hin & ->) | (name & rest & -> & Hne & Hn)].
  - left. exists marker. split; [done |]. exists before, rest.
    by rewrite <- app_assoc.
  - right. exists name. split; [done |]. split; [done |].
    exists before, rest. by rewrite <- !app_assoc.
Qed.

Lemma match_here_other (c : N) (s : jsstring) :
  c <> 121%N -> match_here (c :: s) = None.
Proof.
  intros Hc. unfold match_here, after_literal. units.
  cbn [starts_with]. apply N.eqb_neq in Hc. rewrite N.eqb_sym in Hc.
  by rewrite Hc.
Qed.

Lemma search_skip (before s : jsstring) :
  Forall (fun c => c <> 121%N) before -> search (before ++ s) = search s.
Proof.
  induction 1 as [|c before Hc Hbefore IH]; [done |].
  cbn [app search]. by rewrite match_here_other.
Qed.

Lemma search_here (s id : jsstring) :
  match_here s = Some id -> search s = Some id.
Proof. intros H. destruct s; cbn [search]; by rewrite H. Qed.

Lemma search_finds (before s id : jsstring) :
  match_here s = Some id -> exists found, search (before ++ s) = Some found.
Proof.
  intros H. induction before as [|c before IH].
  - exists id. by apply search_here.
  - cbn [app search]. destruct (match_here (c :: before ++ s)); eauto.
Qed.

Lemma match_here_marker (marker id rest : jsstring) :
  marker ∈ video_markers ->
  length id = 11%nat -> Forall (fun c => is_id_char c = true) id ->
  match_here (marker ++ id ++ rest) = Some id.
Proof.
  intros Hmarker Hlen Hid. apply forallb_Forall in Hid.
  pose proof (take_id_app id rest Hlen Hid) as Htake.
  unfold video_markers in Hmarker.
  repeat (apply elem_of_cons in Hmarker as [-> | Hmarker]);
    [..|by apply elem_of_nil in Hmarker].
  all: unfold match_here, after_literal, orelse; units.
  all: cbn -[take_id]; by rewrite ?drop_0, Htake.
Qed.

Lemma marker_is_truthy (before marker after : jsstring) :
  marker ∈ video_markers -> truthy_str (before ++ marker ++ after) = true.
Proof.
  intros Hmarker. destruct before; [|done].
  unfold video_markers in Hmarker.
  repeat (apply elem_of_cons in Hmarker as [-> | Hmarker]);
    [..|by apply elem_of_nil in Hmarker]; done.
Qed.

Lemma getVideoId_at_marker (before marker id rest : jsstring) :
  marker ∈ video_markers ->
  length id = 11%nat ->
  Forall (fun c => is_id_char c = true) id ->
  Forall (fun c => c <> 121%N) before ->
  getVideoId (before ++ marker ++ id ++ rest) = Some id.
Proof.
  intros Hmarker Hlen Hid Hbefore. unfold getVideoId.
  rewrite marker_is_truthy, search_skip by done.
  by apply search_here, match_here_marker.
Qed.

(** X17: a link in which one of the six markers is followed by 11 units
    that are letters, digits, underscores or hyphens has a video id,
    whatever stands before and after; when no [y] stands before the marker
    (as in [https://www.] or [https://m.]), the id found is these 11
    units. *)
Theorem getVideoId_finds_marked_id (before marker id rest : jsstring) :
  marker ∈ video_markers ->
  length id = 11%nat ->
  Forall (fun c => is_id_char c = true) id ->
  (exists found, getVideoId (before ++ marker ++ id ++ rest) = Some found)
  /\ (Forall (fun c => c <> 121%N) before ->
      getVideoId (before ++ marker ++ id ++ rest) = Some id).
Proof.
  intros Hmarker Hlen Hid. split.
  - unfold getVideoId. rewrite marker_is_truthy by done.
    by eapply search_finds, match_here_marker.
  - by apply getVideoId_at_marker.
Qed.

Lemma id_char_is_no_dot_or_slash (c : N) :
  is_id_char c = true -> (46 =? c)%N = false /\ (47 =? c)%N = false.
Proof.
  intros Hc. split; apply N.eqb_neq; intros <-; discriminate Hc.
Qed.

(** X18: the renderer of a link mounts the video component for a watch link
    and for a [youtu.be] link to a video, but not for a link to the same
    video as a short or as an embed, although [getVideoId] finds the id in
    all four: the alternatives of the pattern for shorts and embeds are out
    of reach of a link that does not also hold [youtube.com/watch] or
    [youtu.be/]. *)
Theorem only_watch_links_get_a_player (id : jsstring)
  (children : ReactNode) :
  length id = 11%nat ->
  Forall (fun c => is_id_char c = true) id ->
  let shorts := js "https://www.youtube.com/shorts/" ++ id in
  let embedded := js "https://www.youtube.com/embed/" ++ id in
  let watch := js "https://www.youtube.com/watch?v=" ++ id in
  let short_link := js "https://youtu.be/" ++ id in
  (getVideoId shorts = Some id
   /\ MessageBubble.embed (MessageBubble.a (Some shorts) children) = None)
  /\ (getVideoId embedded = Some id
      /\ MessageBubble.embed (MessageBubble.a (Some embedded) children) = None)
  /\ (getVideoId watch = Some id
      /\ MessageBubble.embed (MessageBubble.a (Some watch) children)
         = Some (watch, children))
  /\ (getVideoId short_link = Some id
      /\ MessageBubble.embed (MessageBubble.a (Some short_link) children)
         = Some (short_link, children)).
Proof.
  intros Hlen Hid. cbn zeta.
  assert (forall before marker,
            marker ∈ video_markers ->
            Forall (fun c => c <> 121%N) before ->
            getVideoId (before ++ marker ++ id) = Some id) as Hfound.
  { intros before marker Hmarker Hbefore.
    pose proof (getVideoId_at_marker before marker id [] Hmarker Hlen Hid
                  Hbefore) as Hexact.
    by rewrite app_nil_r in Hexact. }
  split; [|split; [|split]]; split.
  - apply (Hfound (js "https://www.") (js "youtube.com/shorts/"));
      [set_solver | units; by repeat constructor].
  - do 12 (destruct id as [|? id]; try discriminate Hlen).
    repeat match goal with
           | H : Forall _ (_ :: _) |- _ =>
               apply Forall_cons in H as [?%id_char_is_no_dot_or_slash H]
           end.
    destruct_and!. unfold MessageBubble.a, MessageBubble.isYouTube.
    cbn [MessageBubble.embed]. units. cbn -[N.eqb].
    repeat match goal with
           | H : (_ =? _)%N = false |- _ => rewrite ?H; clear H
           end.
    by rewrite ?andb_false_r.
  - apply (Hfound (js "https://www.") (js "youtube.com/embed/"));
      [set_solver | units; by repeat constructor].
  - do 12 (destruct id as [|? id]; try discriminate Hlen).
    repeat match goal with
           | H : Forall _ (_ :: _) |- _ =>
               apply Forall_cons in H as [?%id_char_is_no_dot_or_slash H]
           end.
    destruct_and!. unfold MessageBubble.a, MessageBubble.isYouTube.
    cbn [MessageBubble.embed]. units. cbn -[N.eqb].
    repeat match goal with
           | H : (_ =? _)%N = false |- _ => rewrite ?H; clear H
           end.
    by rewrite ?andb_false_r.
  - apply (Hfound (js "https://www.") (js "youtube.com/watch?v="));
      [set_solver | units; by repeat constructor].
  - unfold MessageBubble.a, MessageBubble.isYouTube.
    cbn [MessageBubble.embed].
    assert (includes (js "https://www.youtube.com/watch?v=" ++ id)
              (js "youtube.com/watch") = true)
      as -> by (apply includes_spec;
                by exists (js "https://www."), (js "?v=" ++ id)).
    done.
  - apply (Hfound (js "https://") (js "youtu.be/"));
      [set_solver | units; by repeat constructor].
  - unfold MessageBubble.a, MessageBubble.isYouTube.
    cbn [MessageBubble.embed].
    assert (includes (js "https://youtu.be/" ++ id) (js "youtu.be/") = true)
      as -> by (apply includes_spec; by exists (js "https://"), id).
    by rewrite orb_true_r.
Qed.

Import Examples.

Lemma video_is_an_id :
  length video = 11%nat /\ Forall (fun c => is_id_char c = true) video.
Proof. split; [reflexivity |]. apply forallb_Forall. reflexivity. Qed.

Lemma getVideoId_sound_witness :
  length video = 11%nat
  /\ Forall (fun c => is_id_char c = true) video
  /\ ((exists marker,
         marker ∈ video_markers /\ contains watch_link (marker ++ video))
      \/ exists name,
           name <> [] /\ Forall (fun c => is_white_space c = false) name
           /\ contains watch_link (js "youtube.com/user/" ++ name ++ video)).
Proof.
  apply (getVideoId_sound watch_link video). reflexivity.
Defined.

Lemma getVideoId_finds_marked_id_witness :
  getVideoId
    (js "https://m." ++ js "youtube.com/watch?v=" ++ video ++ js "&t=42s")
  = Some video.
Proof.
  apply (getVideoId_finds_marked_id (js "https://m.")
           (js "youtube.com/watch?v=") video (js "&t=42s")).
  - unfold video_markers. set_solver.
  - apply video_is_an_id.
  - apply video_is_an_id.
  - units. repeat constructor; discriminate.
Defined.

Lemma only_watch_links_get_a_player_witness :
  getVideoId (js "https://www.youtube.com/shorts/" ++ video) = Some video
  /\ MessageBubble.embed
       (MessageBubble.a (Some (js "https://www.youtube.com/shorts/" ++ video))
          node_element)
     = None.
Proof.
  apply (only_watch_links_get_a_player video node_element);
    apply video_is_an_id.
Defined.

End LinkSpec.

(** ** The theme *)

Module ThemeSpec.
Import App.

(** What holds of the theme once it has been toggled. *)
Lemma toggleTheme_settles (st : State)
  (localStorage : gmap jsstring jsstring) :
  let r := toggleTheme st localStorage in
  (theme r.1 = js "dark" \/ theme r.1 = js "light")
  /\ dark r.1 = bool_decide (theme r.1 = js "dark")
  /\ r.2 !! THEME_KEY = Some (theme r.1).
Proof.
  cbn zeta. unfold toggleTheme. cbn [fst snd theme dark].
  rewrite lookup_insert_eq. destruct (bool_decide (theme st = js "dark")).
  - split; [by right |]. done.
  - split; [by left |]. done.
Qed.

Lemma toggled_settled (n : nat) (st : State)
  (localStorage : gmap jsstring jsstring) :
  (theme st = js "dark" \/ theme st = js "light") ->
  dark st = bool_decide (theme st = js "dark") ->
  localStorage !! THEME_KEY = Some (theme st) ->
  let r := toggled n st localStorage in
  (theme r.1 = js "dark" \/ theme r.1 = js "light")
  /\ dark r.1 = bool_decide (theme r.1 = js "dark")
  /\ r.2 !! THEME_KEY = Some (theme r.1).
Proof.
  revert st localStorage. induction n as [|n IH]; intros st localStorage.
  - by intros.
  - intros _ _ _. cbn [toggled].
    pose proof (toggleTheme_settles st localStorage) as H.
    destruct (toggleTheme st localStorage) as [st' localStorage'].
    destruct H as (H1 & H2 & H3). by apply IH.
Qed.

(** X19: after the component has mounted and the theme has been toggled any
    number of times, the root element has the class [dark] exactly when the
    theme is [dark], and the theme is not empty. Once the theme has been
    toggled at least once it is [dark] or [light] and it is the stored one,
    and mounting the component afresh on the store gives the same theme and
    the same class. *)
Theorem theme_survives_reload (localStorage : gmap jsstring jsstring)
  (st0 : State) (n : nat) :
  let r := toggled n (mount localStorage st0) localStorage in
  dark r.1 = bool_decide (theme r.1 = js "dark")
  /\ theme r.1 <> []
  /\ ((0 < n)%nat ->
      (theme r.1 = js "dark" \/ theme r.1 = js "light")
      /\ r.2 !! THEME_KEY = Some (theme r.1)
      /\ forall st1, mount r.2 st1 = r.1).
Proof.
  cbn zeta. destruct n as [|n].
  - cbn [toggled fst]. split; [|split; [|lia]].
    + unfold mount. destruct (localStorage !! THEME_KEY) as [[|c t]|]; done.
    + unfold mount. destruct (localStorage !! THEME_KEY) as [[|c t]|]; done.
  - cbn [toggled].
    pose proof (toggleTheme_settles (mount localStorage st0) localStorage)
      as H.
    destruct (toggleTheme (mount localStorage st0) localStorage)
      as [st' localStorage'].
    destruct H as (H1 & H2 & H3).
    destruct (toggled_settled n st' localStorage' H1 H2 H3)
      as (Htheme & Hdark & Hstored).
    split; [done |]. split; [by destruct Htheme as [-> | ->] |].
    intros _. split; [done |]. split; [done |]. intros st1.
    unfold mount. rewrite Hstored.
    destruct (toggled n st' localStorage') as [[t d] stored].
    cbn [fst snd theme dark] in *. subst d.
    by destruct Htheme as [-> | ->].
Qed.

End ThemeSpec.

(** ** The transcription and the images *)

Module TranscriptSpec.
Import Gemini.

Section Transcription.

Variable generateContent : Request -> outcome GenerateContentResponse.
Variables videoBase64 mimeType : jsstring.

Let request : Request := transcribe_request videoBase64 mimeType.
Let transcribe := transcribeVideo generateContent videoBase64 mimeType.

(** X20: [transcribeVideo] resolves exactly when the service answers its
    request, with the text of the answer, or [[No transcription generated]]
    where the answer has none, so never with an empty text; when the service
    rejects the request it rejects with a new error, whose message is not
    empty and which has no status. *)
Theorem transcribeVideo_resolves_iff_service_answers (log : list Request) :
  (forall response,
     generateContent request = Resolved response ->
     transcribe log
     = (Resolved (or_str (response_text response)
                    (js "[No transcription generated]")),
        log ++ [request]))
  /\ (forall transcription,
        (transcribe log).1 = Resolved transcription ->
        transcription <> []
        /\ exists response, generateContent request = Resolved response)
  /\ (forall thrown,
        (transcribe log).1 = Rejected thrown ->
        (exists msg, message thrown = Some msg /\ msg <> [])
        /\ status thrown = None
        /\ exists e, generateContent request = Rejected e).
Proof.
  unfold transcribe, transcribeVideo, try_catch, bind, await_generateContent.
  fold request. split; [by intros response -> |].
  destruct (generateContent request) as [response | e].
  - split.
    + intros t [= <-]. split; [by apply or_str_nonempty | by eexists].
    + intros thrown [=].
  - split.
    + intros t. destruct (opt_includes (message e) (js "413")); [done |].
      by destruct (opt_includes (message e) (js "404")).
    + intros thrown Hthrown.
      destruct (opt_includes (message e) (js "413")).
      { injection Hthrown as <-. split; [by eexists | eauto]. }
      destruct (opt_includes (message e) (js "404")).
      { injection Hthrown as <-. split; [by eexists | eauto]. }
      injection Hthrown as <-. split; [by eexists | eauto].
Qed.

End Transcription.

End TranscriptSpec.

Module ImageSpec.

Lemma loaded_after_onload (src : option jsstring)
  (st0 st : ImageProbe.State) (evs : list ImageProbe.Event) :
  ImageProbe.run src st0 evs st ->
  ImageProbe.status st = loaded ->
  ImageProbe.status st0 = loaded \/ ImageProbe.OnLoad ∈ evs.
Proof.
  induction 1 as [st | st ev st' evs st'' Hstep Hrun IH]; [by left |].
  intros Hloaded. destruct (IH Hloaded) as [Hst' | Hin].
  - inversion Hstep; subst; cbn in Hst'; try done.
    + by left.
    + right. apply list_elem_of_here.
  - right. by apply list_elem_of_further.
Qed.

Section Render.

Variable encodeURIComponent : jsstring -> jsstring.

(** X21: whatever the events, neither image component renders the image
    element before a probe of the image has loaded: when one of them shows
    the image, an [onload] is among the events since it mounted, the status
    is [loaded], and the image shown is the source, which is not empty, with
    the alternative text given. *)
Theorem image_shown_only_after_load (src alt : option jsstring)
  (evs : list ImageProbe.Event) (st : ImageProbe.State)
  (shown : jsstring) (shown_alt : option jsstring) :
  ImageProbe.run src ImageProbe.initial evs st ->
  MarkdownImage.render encodeURIComponent src alt st
    = ImageElement shown shown_alt
  \/ ScriptImage.render src alt st = ImageElement shown shown_alt ->
  ImageProbe.OnLoad ∈ evs
  /\ ImageProbe.status st = loaded
  /\ src = Some shown /\ shown <> [] /\ shown_alt = alt.
Proof.
  intros Hrun Hshown.
  assert (ImageProbe.status st = loaded
          /\ src = Some shown /\ shown <> [] /\ shown_alt = alt)
    as (Hloaded & Hrest).
  { destruct Hshown as [H | H].
    - unfold MarkdownImage.render in H. destruct src as [s|]; [|done].
      destruct (truthy_str s && is_wiki_wrapper s); [done |].
      destruct (ImageProbe.status st), s; cbn in H; try done.
      by injection H as <- <-.
    - unfold ScriptImage.render in H. destruct src as [s|]; [|done].
      destruct (ImageProbe.status st), s; cbn in H; try done.
      by injection H as <- <-. }
  split; [|done].
  by destruct (loaded_after_onload _ _ _ _ Hrun Hloaded).
Qed.

End Render.

Import Examples.

Lemma image_shown_only_after_load_witness :
  ImageProbe.OnLoad ∈ [ImageProbe.Effect; ImageProbe.OnLoad]
  /\ ImageProbe.status
       {| ImageProbe.status := loaded; ImageProbe.probes := [] |} = loaded
  /\ Some photo = Some photo /\ photo <> [] /\ None = @None jsstring.
Proof.
  apply (image_shown_only_after_load no_encoding (Some photo) None
           [ImageProbe.Effect; ImageProbe.OnLoad]
           {| ImageProbe.status := loaded; ImageProbe.probes := [] |}
           photo None).
  - eapply ImageProbe.run_cons.
    + apply (ImageProbe.step_effect_probe (Some photo) ImageProbe.initial
               photo); reflexivity.
    + eapply ImageProbe.run_cons; [|apply ImageProbe.run_nil].
      by eapply (ImageProbe.step_onload (Some photo)).
  - left. reflexivity.
Defined.

End ImageSpec.
